(** * Reconciliation of Keycloak authentication-flow executions

    A shallow embedding of [plugins/modules/keycloak_authentication.py]
    (functions [find_exec_in_executions], [get_identifier],
    [create_authentication_execution], [update_authentication_execution],
    [add_error_line], [create_or_update_executions] and [main]) and the
    properties of the reconciliation pass and of the module stated about
    it.

    Python dictionaries that come from JSON are finite maps from strings
    to values; the executions declared by the caller are records, since the
    argument spec of the module fixes their keys and the types of their
    values.  The Keycloak client object [kc] is an interface; every call
    made through it is recorded, in order, next to the remote state. *)

From stdpp Require Import gmap strings list fin_maps pretty.

(** ** Python values *)

#[warnings="-register-all"]
Inductive value : Type :=
| VNone
| VBool (b : bool)
| VInt (n : Z)
| VStr (s : string)
| VList (l : list value)
| VDict (d : gmap string value).

Abbreviation dict := (gmap string value).

Fixpoint value_eq_dec (x y : value) {struct x} : Decision (x = y).
Proof.
  refine (match x, y with
  | VNone, VNone => left _
  | VBool a, VBool b => cast_if (decide (a = b))
  | VInt a, VInt b => cast_if (decide (a = b))
  | VStr a, VStr b => cast_if (decide (a = b))
  | VList a, VList b => cast_if (@list_eq_dec _ value_eq_dec a b)
  | VDict a, VDict b => cast_if (@gmap_eq_dec _ _ _ _ value_eq_dec a b)
  | _, _ => right _
  end); abstract congruence.
Defined.

#[global] Instance value_eqdec : EqDecision value := value_eq_dec.

(** Python's [==] identifies [True] with [1] and [False] with [0]; on
    every other pair of values of this type it is structural. *)
Fixpoint py_norm (v : value) : value :=
  match v with
  | VBool b => VInt (Z.b2z b)
  | VList l => VList (py_norm <$> l)
  | VDict d => VDict (py_norm <$> d)
  | _ => v
  end.

Definition py_eqb (x y : value) : bool := bool_decide (py_norm x = py_norm y).

Definition is_none (v : value) : bool :=
  match v with VNone => true | _ => false end.

(** ** Exceptions and results *)

Inductive exn : Type := KeyError | TypeError | IndexError | KeycloakError.

Inductive result (A : Type) : Type :=
| Ok (a : A)
| Raise (e : exn).
Arguments Ok {A} a.
Arguments Raise {A} e.

#[global] Instance result_ret : MRet result := λ A a, Ok a.
#[global] Instance result_bind : MBind result := λ A B f r,
  match r with Ok a => f a | Raise e => Raise e end.

(** [d[k]] *)
Definition py_getitem (d : dict) (k : string) : result value :=
  match d !! k with Some v => Ok v | None => Raise KeyError end.

(** [l[i]], with Python's negative indices. *)
Definition py_position {A} (l : list A) (i : Z) : Z :=
  if bool_decide (i < 0)%Z then (Z.of_nat (length l) + i)%Z else i.

Definition py_list_getitem {A} (l : list A) (i : Z) : result A :=
  let p := py_position l i in
  if bool_decide (0 ≤ p)%Z then
    match l !! Z.to_nat p with Some x => Ok x | None => Raise IndexError end
  else Raise IndexError.

(** ** Strings *)

Definition ascii_upper (c : Ascii.ascii) : Ascii.ascii :=
  let n := Ascii.nat_of_ascii c in
  if bool_decide (97 ≤ n ≤ 122) then Ascii.ascii_of_nat (n - 32) else c.

Definition ascii_lower (c : Ascii.ascii) : Ascii.ascii :=
  let n := Ascii.nat_of_ascii c in
  if bool_decide (65 ≤ n ≤ 90) then Ascii.ascii_of_nat (n + 32) else c.

Fixpoint string_lower (s : string) : string :=
  match s with
  | EmptyString => EmptyString
  | String c r => String (ascii_lower c) (string_lower r)
  end.

(** The line feed. *)
Definition newline : string := String (Ascii.ascii_of_nat 10) EmptyString.

(** [str.capitalize], on ASCII. *)
Definition capitalize (s : string) : string :=
  match s with
  | EmptyString => EmptyString
  | String c r => String (ascii_upper c) (string_lower r)
  end.

(** ** What the module imports

    [is_struct_included] lives in the collection's [module_utils] and
    [repr] is the interpreter's; both are taken as given. *)
Class Imports : Type := {
  is_struct_included : dict → dict → list string → bool;
  py_repr : value → string
}.

(** [str(v)] *)
Definition py_str `{Imports} (v : value) : string :=
  match v with
  | VNone => "None"
  | VBool true => "True"
  | VBool false => "False"
  | VInt n => pretty n
  | VStr s => s
  | VList _ | VDict _ => py_repr v
  end.

(** ** The declared executions and the flow *)

Record new_exec_t : Type := NewExec {
  providerId : option string;
  displayName : option string;
  requirement : option string;
  flowAlias : option string;
  authenticationConfig : option dict;
  index : option Z;
  level : option Z;
  exec_id : option value
}.

Definition set_level (e : new_exec_t) (l : Z) : new_exec_t :=
  NewExec (providerId e) (displayName e) (requirement e) (flowAlias e)
          (authenticationConfig e) (index e) (Some l) (exec_id e).

Definition set_id (e : new_exec_t) (v : value) : new_exec_t :=
  NewExec (providerId e) (displayName e) (requirement e) (flowAlias e)
          (authenticationConfig e) (index e) (level e) (Some v).

Definition opt_str (o : option string) : value := from_option VStr VNone o.
Definition opt_int (o : option Z) : value := from_option VInt VNone o.
Definition opt_dict (o : option dict) : value := from_option VDict VNone o.

Definition opt_insert (k : string) (o : option value) (d : dict) : dict :=
  match o with Some v => <[k := v]> d | None => d end.

(** The dictionary a declared execution is in Python: the six keys of the
    argument spec are always there ([None] when unset), ["level"] and
    ["id"] once the pass has set them. *)
Definition to_dict (e : new_exec_t) : dict :=
  opt_insert "id" (exec_id e)
  (opt_insert "level" (VInt <$> level e)
  (<["providerId" := opt_str (providerId e)]>
  (<["displayName" := opt_str (displayName e)]>
  (<["requirement" := opt_str (requirement e)]>
  (<["flowAlias" := opt_str (flowAlias e)]>
  (<["authenticationConfig" := opt_dict (authenticationConfig e)]>
  (<["index" := opt_int (index e)]> ∅))))))).

Inductive executions_param : Type :=
| ExecsMissing
| ExecsNone
| ExecsList (l : list new_exec_t).

Record flow_config : Type := FlowConfig {
  alias : string;
  authenticationExecutions : executions_param
}.

(** ** The Keycloak client

    The methods of [kc] the pass calls.  [get_executions_representation]
    reads; the six others change the remote side. *)
Inductive call : Type :=
| get_executions_representation (flow : string)
| add_authenticationConfig_to_execution (id : value) (cfg : value)
| update_authentication_executions (flow_alias_parent : string) (payload : dict)
| change_execution_priority (id : value) (diff : Z)
| create_subflow (name : value) (flow_alias_parent : string)
| create_execution (payload : dict) (flow_alias_parent : string)
| delete_authentication_execution (id : value).

Definition mutating (c : call) : bool :=
  match c with get_executions_representation _ => false | _ => true end.

(** The remote side: a state of type [KC], the list a read returns and the
    state a changing call leaves; [None] is a call that raises. *)
Class KeycloakAPI (KC : Type) : Type := {
  kc_read : string → KC → option (list dict);
  kc_write : call → KC → option KC
}.

(** A computation against the remote side returns or raises, leaves a
    remote state, and has issued a list of calls. *)
Definition M (KC A : Type) : Type := KC → result A * KC * list call.

#[global] Instance M_ret {KC} : MRet (M KC) := λ A a kc, (Ok a, kc, []).

#[global] Instance M_bind {KC} : MBind (M KC) := λ A B f m kc,
  match m kc with
  | (Ok a, kc1, c1) => let '(r, kc2, c2) := f a kc1 in (r, kc2, c1 ++ c2)
  | (Raise e, kc1, c1) => (Raise e, kc1, c1)
  end.

Definition lift {KC A} (r : result A) : M KC A := λ kc, (r, kc, []).

Definition fetch `{KeycloakAPI KC} (flow : string) : M KC (list dict) := λ kc,
  match kc_read flow kc with
  | Some l => (Ok l, kc, [get_executions_representation flow])
  | None => (Raise KeycloakError, kc, [get_executions_representation flow])
  end.

Definition invoke `{KeycloakAPI KC} (c : call) : M KC unit := λ kc,
  match kc_write c kc with
  | Some kc' => (Ok tt, kc', [c])
  | None => (Raise KeycloakError, kc, [c])
  end.

(** [if not check_mode: m] *)
Definition unless_check_mode {KC} (check_mode : bool) (m : M KC unit) : M KC unit :=
  if check_mode then mret tt else m.

(** A call of a Python function declared with [params] positional
    parameters, none of them with a default, on [args] positional
    arguments: unless the two numbers agree it raises [TypeError] before
    the body runs. *)
Definition py_call {KC A} (params args : nat) (body : M KC A) : M KC A :=
  if bool_decide (args = params) then body else lift (Raise TypeError).

(** ** [find_exec_in_executions] *)

(** The parenthesised disjunction of the condition. *)
Definition same_name (existing_exec searched_exec : dict) : bool :=
  match existing_exec !! "providerId", searched_exec !! "providerId" with
  | Some a, Some b => py_eqb a b
  | _, _ => false
  end
  ||
  match existing_exec !! "displayName", searched_exec !! "displayName" with
  | Some a, Some b => py_eqb a b
  | _, _ => false
  end.

(** The whole condition; the two levels are read only when the names agree. *)
Definition same_exec (existing_exec searched_exec : dict) : result bool :=
  if same_name existing_exec searched_exec then
    a ← py_getitem existing_exec "level";
    b ← py_getitem searched_exec "level";
    mret (py_eqb a b)
  else mret false.

Fixpoint find_exec_from (i : Z) (searched_exec : dict) (executions : list dict)
  : result Z :=
  match executions with
  | [] => Ok (-1)%Z
  | existing_exec :: rest =>
      match same_exec existing_exec searched_exec with
      | Ok true => Ok i
      | Ok false => find_exec_from (i + 1)%Z searched_exec rest
      | Raise e => Raise e
      end
  end.

Definition find_exec_in_executions (searched_exec : dict) (executions : list dict)
  : result Z :=
  find_exec_from 0%Z searched_exec executions.

(** ** [get_identifier]

    The last branch means to raise [Exception]; building its message
    formats a string that names a field [{exec}] with a positional
    argument only, which raises [KeyError] first. *)
Definition get_identifier (execution : new_exec_t) : result string :=
  match providerId execution with
  | Some p => Ok p
  | None =>
      match displayName execution with
      | Some d => Ok d
      | None => Raise KeyError
      end
  end.

(** ** [update_authentication_execution] *)

(** The copy of [new_exec] without ["flowAlias"] and ["authenticationConfig"]. *)
Definition updated_exec (new_exec : new_exec_t) : dict :=
  delete "authenticationConfig" (delete "flowAlias" (to_dict new_exec)).

Definition update_authentication_execution `{KeycloakAPI KC}
    (flow_alias_parent : string) (new_exec : new_exec_t) : M KC unit :=
  match requirement new_exec with
  | Some _ => invoke (update_authentication_executions flow_alias_parent (updated_exec new_exec))
  | None => mret tt
  end.

(** ** [create_authentication_execution] *)

Definition hasSameName (new_exec other_exec : dict) : bool :=
  match other_exec !! "providerId", new_exec !! "providerId" with
  | Some a, Some b => py_eqb a b
  | _, _ =>
      match other_exec !! "displayName", new_exec !! "displayName" with
      | Some a, Some b => py_eqb a b
      | _, _ => false
      end
  end.

Definition create_authentication_execution `{KeycloakAPI KC}
    (config : flow_config) (new_exec : new_exec_t) (flow_alias_parent : string)
    (isFlow : bool) : M KC dict :=
  (if isFlow
   then invoke (create_subflow (opt_str (displayName new_exec)) flow_alias_parent)
   else invoke (create_execution (updated_exec new_exec) flow_alias_parent));;
  l ← fetch (alias config);
  lift (py_list_getitem (filter (λ o, hasSameName (to_dict new_exec) o = true) l) 0%Z).

(** ** [add_error_line] *)

Definition error_line `{Imports} (err_msg flow exec_name : string)
    (subflow : option string) (expected actual : value) : string :=
  "Flow " +:+ flow
  +:+ match subflow with Some s => ", subflow " +:+ s | None => "" end
  +:+ ", Execution: " +:+ exec_name +:+ ": " +:+ capitalize err_msg +:+ " "
  +:+ (if is_none expected then "" else " (Expected : " +:+ py_str expected)
  +:+ (if is_none actual then "" else ", Actual : " +:+ py_str actual)
  +:+ ".".

Definition missing_line (flow exec_name : string) (subflow : option string) : string :=
  "Flow " +:+ flow +:+ " is missing execution " +:+ exec_name
  +:+ match subflow with Some s => " in subflow " +:+ s | None => "" end.

Definition extra_line `{Imports} (flow : string) (exec_name lvl : value) : string :=
  "Flow " +:+ flow +:+ " has extra execution " +:+ py_str exec_name
  +:+ " at depth level " +:+ py_str lvl.

(** ** [create_or_update_executions] *)

(** What the pass accumulates and returns: [changed], the two sides of the
    diff and the lines of [err_msg]. *)
Record report : Type := Report {
  changed : bool;
  before : string;
  after : string;
  err_msg : list string
}.

(** The local variables that live across the iterations of the loop: the
    report, [levels], the working copy [existing_executions], and the
    declared executions already visited, as the loop has left them (it
    writes ["level"] and ["id"] into the caller's dictionaries). *)
Record pass_state : Type := PassState {
  rep : report;
  levels : gmap string Z;
  existing_executions : list dict;
  visited : list new_exec_t
}.

Definition no_report : report := Report false "" "" [].

(** Lines 302-304: the level of [new_exec] is registered under its
    identifier and written into it. *)
Definition register_level (levels : gmap string Z) (new_exec : new_exec_t)
  : result (gmap string Z * new_exec_t) :=
  match get_identifier new_exec with
  | Raise e => Raise e
  | Ok name =>
      match
        match flowAlias new_exec with
        | Some parent =>
            match levels !! parent with
            | Some l => Ok (l + 1)%Z
            | None => Raise KeyError
            end
        | None => Ok 0%Z
        end
      with
      | Raise e => Raise e
      | Ok lvl =>
          let levels' := <[name := lvl]> levels in
          match get_identifier new_exec with
          | Raise e => Raise e
          | Ok name' =>
              match levels' !! name' with
              | Some l => Ok (levels', set_level new_exec l)
              | None => Raise KeyError
              end
          end
      end
  end.

(** Lines 311-314: the keys left out of the comparison. *)
Definition key_if_none {A} (key : string) (o : option A) : list string :=
  match o with None => [key] | Some _ => [] end.

Definition exclude_keys (new_exec : new_exec_t) : list string :=
  ["authenticationConfig"; "flowAlias"]
  ++ key_if_none "providerId" (providerId new_exec)
  ++ key_if_none "displayName" (displayName new_exec)
  ++ key_if_none "requirement" (requirement new_exec)
  ++ key_if_none "flowAlias" (flowAlias new_exec)
  ++ key_if_none "authenticationConfig" (authenticationConfig new_exec)
  ++ key_if_none "index" (index new_exec).

(** Lines 326-328, for one key of the declared configuration. *)
Definition config_key_differs (existing_exec : dict) (key : string) (v : value)
  : result bool :=
  if is_none v then Ok false else
  match existing_exec !! "authenticationConfig" with
  | None => Ok false
  | Some (VDict existing_config) =>
      match existing_config !! key with
      | Some w => Ok (negb (py_eqb v w))
      | None => Raise KeyError
      end
  | Some _ => Raise TypeError
  end.

Fixpoint config_differs_from (existing_exec : dict) (items : list (string * value))
    (config_changed : bool) : result bool :=
  match items with
  | [] => Ok config_changed
  | (key, v) :: rest =>
      match config_key_differs existing_exec key v with
      | Ok b => config_differs_from existing_exec rest (config_changed || b)
      | Raise e => Raise e
      end
  end.

(** Lines 322-328. *)
Definition config_differs (new_config : dict) (existing_exec : dict) : result bool :=
  config_differs_from existing_exec (map_to_list new_config) false.

(** Lines 324-336. *)
Definition push_config `{KeycloakAPI KC} `{Imports} (check_mode : bool)
    (config : flow_config) (new_exec : new_exec_t) (existing_exec : dict)
    (id : value) (r : report) : M KC report :=
  match authenticationConfig new_exec with
  | None => mret r
  | Some new_config =>
      config_changed ← lift (config_differs new_config existing_exec);
      if (config_changed : bool) then
        unless_check_mode check_mode
          (invoke (add_authenticationConfig_to_execution id (VDict new_config)));;
        name ← lift (get_identifier new_exec);
        actual ← lift (py_getitem existing_exec "authenticationConfig");
        mret (Report true
                (before r +:+ py_str (VDict existing_exec))
                (after r +:+ py_str (VDict (to_dict new_exec)))
                (err_msg r ++ [error_line "wrong config" (alias config) name None
                                 (VStr (py_str (VDict new_config)))
                                 (VStr (py_str actual))]))
      else mret r
  end.

(** Lines 337-343.  [update_authentication_execution] has four
    parameters and is called on five arguments. *)
Definition push_changes `{KeycloakAPI KC} `{Imports} (check_mode : bool)
    (config : flow_config) (flow_alias_parent : string) (new_exec : new_exec_t)
    (existing_exec : dict) (r : report) : M KC report :=
  unless_check_mode check_mode
    (py_call 4 5 (update_authentication_execution flow_alias_parent new_exec));;
  name ← lift (get_identifier new_exec);
  actual ← lift (py_getitem existing_exec "requirement");
  mret (Report true (before r) (py_str (VDict (to_dict new_exec)))
          (err_msg r ++ [error_line "wrong requirement" (alias config) name None
                           (opt_str (requirement new_exec)) actual])).

(** Lines 344-349. *)
Definition push_priority `{KeycloakAPI KC} `{Imports} (check_mode : bool)
    (config : flow_config) (new_exec : new_exec_t) (id : value)
    (exec_index new_exec_index : Z) (r : report) : M KC report :=
  unless_check_mode check_mode
    (invoke (change_execution_priority id (exec_index - new_exec_index)%Z));;
  name ← lift (get_identifier new_exec);
  mret (Report true (before r) (after r)
          (err_msg r ++ [error_line "wrong index" (alias config) name None
                           (VInt new_exec_index) (VInt exec_index)])).

(** [existing_executions[i].clear()] *)
Definition clear_at (existing_executions : list dict) (i : Z) : list dict :=
  <[Z.to_nat (py_position existing_executions i) := ∅]> existing_executions.

(** Lines 309-351: an execution of the same name at the same level exists. *)
Definition update_existing `{KeycloakAPI KC} `{Imports} (check_mode : bool)
    (config : flow_config) (st : pass_state) (flow_alias_parent : string)
    (new_exec_index : Z) (new_exec : new_exec_t) (exec_index : Z)
  : M KC pass_state :=
  existing_exec ← lift (py_list_getitem (existing_executions st) exec_index);
  let exec_need_changes :=
    negb (is_struct_included (to_dict new_exec) existing_exec (exclude_keys new_exec))
    || bool_decide (exec_index ≠ new_exec_index) in
  let r0 :=
    if exec_need_changes
    then Report (changed (rep st)) (before (rep st) +:+ py_str (VDict existing_exec))
                (after (rep st)) (err_msg (rep st))
    else rep st in
  id ← lift (py_getitem existing_exec "id");
  let new_exec := set_id new_exec id in
  r1 ← push_config check_mode config new_exec existing_exec id r0;
  r2 ← (if exec_need_changes
        then push_changes check_mode config flow_alias_parent new_exec existing_exec r1
        else mret r1);
  r3 ← (if bool_decide (exec_index ≠ new_exec_index)
        then push_priority check_mode config new_exec id exec_index new_exec_index r2
        else mret r2);
  mret (PassState r3 (levels st) (clear_at (existing_executions st) exec_index)
          (visited st ++ [new_exec])).

(** Line 354: is a sub-flow declared, and does the working copy hold, at
    the wanted index, an entry with a display name? *)
Definition subflow_at_index (isFlow : bool) (new_exec_index : Z)
    (existing_executions : list dict) : result bool :=
  if isFlow && bool_decide (new_exec_index < Z.of_nat (length existing_executions))%Z
  then
    match py_list_getitem existing_executions new_exec_index with
    | Raise e => Raise e
    | Ok existing_exec =>
        match py_getitem existing_exec "displayName" with
        | Raise e => Raise e
        | Ok v => Ok (negb (is_none v))
        end
    end
  else Ok false.

(** Lines 355-364: the sub-flow at this index has another name. *)
Definition rename_subflow `{KeycloakAPI KC} `{Imports} (check_mode : bool)
    (config : flow_config) (st : pass_state) (flow_alias_parent : string)
    (new_exec_index : Z) (new_exec : new_exec_t)
  : M KC (report * list dict * new_exec_t) :=
  existing_exec ← lift (py_list_getitem (existing_executions st) new_exec_index);
  id_to_update ← lift (py_getitem existing_exec "id");
  let new_exec := set_id new_exec id_to_update in
  unless_check_mode check_mode
    (py_call 4 5 (update_authentication_execution flow_alias_parent new_exec));;
  name ← lift (get_identifier new_exec);
  actual ← lift (py_getitem existing_exec "displayName");
  mret (Report (changed (rep st)) (before (rep st)) (after (rep st))
          (err_msg (rep st) ++ [error_line "wrong flow name" (alias config) name None
                                  (VStr name) actual]),
        clear_at (existing_executions st) new_exec_index,
        new_exec).

(** Lines 365-369: the execution is created, then given its requirement
    and its configuration. *)
Definition create_missing `{KeycloakAPI KC} `{Imports}
    (config : flow_config) (flow_alias_parent : string)
    (new_exec : new_exec_t) (isFlow : bool) : M KC new_exec_t :=
  created ← create_authentication_execution config new_exec flow_alias_parent isFlow;
  id ← lift (py_getitem created "id");
  let new_exec := set_id new_exec id in
  py_call 4 5 (update_authentication_execution flow_alias_parent new_exec);;
  invoke (add_authenticationConfig_to_execution id
            (opt_dict (authenticationConfig new_exec)));;
  mret new_exec.

(** Lines 352-375: no execution of that name at that level exists. *)
Definition add_missing `{KeycloakAPI KC} `{Imports} (check_mode : bool)
    (config : flow_config) (st : pass_state) (flow_alias_parent : string)
    (new_exec_index : Z) (new_exec : new_exec_t) : M KC pass_state :=
  if bool_decide (is_Some (providerId new_exec) ∨ is_Some (displayName new_exec))
  then
    let isFlow :=
      bool_decide (is_Some (displayName new_exec))
      && bool_decide (providerId new_exec = None) in
    rename ← lift (subflow_at_index isFlow new_exec_index (existing_executions st));
    '(r, existing, new_exec) ←
      (if (rename : bool)
       then rename_subflow check_mode config st flow_alias_parent new_exec_index new_exec
       else if check_mode
       then mret (rep st, existing_executions st, new_exec)
       else
         new_exec ← create_missing config flow_alias_parent new_exec isFlow;
         mret (rep st, existing_executions st, new_exec));
    name ← lift (get_identifier new_exec);
    mret (PassState
            (Report true (before r)
               (after r +:+ py_str (VDict (to_dict new_exec)) +:+ newline)
               (err_msg r ++ [missing_line (alias config) name (flowAlias new_exec)]))
            (levels st) existing (visited st ++ [new_exec]))
  else
    mret (PassState (rep st) (levels st) (existing_executions st)
            (visited st ++ [new_exec])).

(** Lines 293-375: one iteration of the loop over the declared executions;
    [position] is the index [enumerate] gives. *)
Definition process_execution `{KeycloakAPI KC} `{Imports} (check_mode : bool)
    (config : flow_config) (st : pass_state) (position : Z) (new_exec : new_exec_t)
  : M KC pass_state :=
  let new_exec_index := default position (index new_exec) in
  let flow_alias_parent := default (alias config) (flowAlias new_exec) in
  '(levels', new_exec) ← lift (register_level (levels st) new_exec);
  let st := PassState (rep st) levels' (existing_executions st) (visited st) in
  exec_index ← lift (find_exec_in_executions (to_dict new_exec) (existing_executions st));
  if bool_decide (exec_index ≠ (-1)%Z)
  then update_existing check_mode config st flow_alias_parent new_exec_index new_exec exec_index
  else add_missing check_mode config st flow_alias_parent new_exec_index new_exec.

Fixpoint process_executions `{KeycloakAPI KC} `{Imports} (check_mode : bool)
    (config : flow_config) (st : pass_state) (position : Z)
    (new_execs : list new_exec_t) : M KC pass_state :=
  match new_execs with
  | [] => mret st
  | new_exec :: rest =>
      st' ← process_execution check_mode config st position new_exec;
      process_executions check_mode config st' (position + 1)%Z rest
  end.

(** Lines 377-384: what is left of the working copy is removed. *)
Definition remove_extra_execution `{KeycloakAPI KC} `{Imports} (check_mode : bool)
    (config : flow_config) (r : report) (existing_exec : dict) : M KC report :=
  if bool_decide (existing_exec ≠ ∅)
  then
    name ← lift (py_getitem existing_exec "displayName");
    lvl ← lift (py_getitem existing_exec "level");
    let r' := Report true
                (before r +:+ py_str (VDict existing_exec) +:+ newline)
                (after r)
                (err_msg r ++ [extra_line (alias config) name lvl]) in
    (if check_mode then mret tt
     else
       id ← lift (py_getitem existing_exec "id");
       invoke (delete_authentication_execution id));;
    mret r'
  else mret r.

Fixpoint remove_extra_executions `{KeycloakAPI KC} `{Imports} (check_mode : bool)
    (config : flow_config) (r : report) (existing_executions : list dict)
  : M KC report :=
  match existing_executions with
  | [] => mret r
  | existing_exec :: rest =>
      r' ← remove_extra_execution check_mode config r existing_exec;
      remove_extra_executions check_mode config r' rest
  end.

(** What line 293 iterates over: nothing when the parameter is [None]. *)
Definition declared_executions (p : executions_param) : list new_exec_t :=
  match p with ExecsList l => l | _ => [] end.

(** The body of the [try]. *)
Definition reconcile `{KeycloakAPI KC} `{Imports} (check_mode : bool)
    (config : flow_config) : M KC (report * list new_exec_t) :=
  match authenticationExecutions config with
  | ExecsMissing => mret (no_report, [])
  | declared =>
      existing ← fetch (alias config);
      st ← process_executions check_mode config
             (PassState no_report ∅ existing []) 0%Z
             (declared_executions declared);
      r ← remove_extra_executions check_mode config (rep st) (existing_executions st);
      mret (r, visited st)
  end.

(** How a call of [create_or_update_executions] ends: it returns its
    triple, or the handler of the [try] ends the module through
    [fail_json] with the exception in its message. *)
Inductive outcome : Type :=
| Returns (r : report) (declared : list new_exec_t)
| fail_json (e : exn).

Definition create_or_update_executions `{KeycloakAPI KC} `{Imports}
    (check_mode : bool) (config : flow_config) (kc : KC)
  : outcome * KC * list call :=
  match reconcile check_mode config kc with
  | (Ok (r, declared), kc', calls) => (Returns r declared, kc', calls)
  | (Raise e, kc', calls) => (fail_json e, kc', calls)
  end.

(** What an outcome shows of [changed], of the report and of the declared
    executions: nothing when the module has failed. *)
Definition outcome_changed (o : outcome) : option bool :=
  match o with Returns r _ => Some (changed r) | fail_json _ => None end.

Definition outcome_lines (o : outcome) : option (list string) :=
  match o with Returns r _ => Some (err_msg r) | fail_json _ => None end.

Definition outcome_levels (o : outcome) : option (list (option Z)) :=
  match o with Returns _ declared => Some (level <$> declared) | fail_json _ => None end.

Definition is_update_call (c : call) : bool :=
  match c with update_authentication_executions _ _ => true | _ => false end.

Definition is_priority_call (c : call) : bool :=
  match c with change_execution_priority _ _ => true | _ => false end.

(** ** An instance to run the pass on

    A rendering in the manner of [repr] (keys in the order of the map,
    strings quoted without escapes). *)
Fixpoint simple_repr (v : value) : string :=
  match v with
  | VNone => "None"
  | VBool true => "True"
  | VBool false => "False"
  | VInt n => pretty n
  | VStr s => "'" +:+ s +:+ "'"
  | VList l => "[" +:+ String.concat ", " (simple_repr <$> l) +:+ "]"
  | VDict d =>
      "{" +:+ String.concat ", "
                ((λ kv, "'" +:+ kv.1 +:+ "': " +:+ kv.2)
                   <$> map_to_list (simple_repr <$> d))
      +:+ "}"
  end.

(** Modelled from the spec: [is_struct_included], of the collection's
    [module_utils], is not among the sources.  The spec has it compare
    the declared execution with the matched one, leaving out the excluded
    keys: every other key of the first structure is in the second with an
    equal value. *)
Definition struct_included (struct1 struct2 : dict) (exclude : list string) : bool :=
  bool_decide (map_Forall (λ key v,
    key ∈ exclude ∨ py_eqb v <$> struct2 !! key = Some true) struct1).

Definition simple_imports : Imports :=
  {| is_struct_included := struct_included; py_repr := simple_repr |}.

(** Modelled from the spec: the methods of the Keycloak client, of the
    collection's [module_utils], are not among the sources.  This is the
    deterministic in-memory stand-in the specification describes for them:
    the remote state is the list of executions of the flow, in the order a
    read returns them; a configuration is attached to the execution of the
    given id, an update merges its payload into the execution of that id,
    a creation appends an execution with a fresh id one level under its
    parent, and a removal drops the execution of the given id. *)
Definition has_id (id : value) (e : dict) : bool :=
  match e !! "id" with Some v => py_eqb v id | None => false end.

Definition level_under (flow_alias_parent : string) (l : list dict) : Z :=
  match list_find (λ e, e !! "displayName" = Some (VStr flow_alias_parent)) l with
  | Some (_, e) =>
      match e !! "level" with Some (VInt n) => (n + 1)%Z | _ => 0%Z end
  | None => 0%Z
  end.

Definition fresh_id (l : list dict) : value := VStr ("id-" +:+ pretty (length l)).

Definition memory_write (c : call) (l : list dict) : option (list dict) :=
  match c with
  | get_executions_representation _ => Some l
  | add_authenticationConfig_to_execution id cfg =>
      Some ((λ e, if has_id id e then <["authenticationConfig" := cfg]> e else e) <$> l)
  | update_authentication_executions _ payload =>
      Some ((λ e, if has_id (default VNone (payload !! "id")) e
                  then payload ∪ e else e) <$> l)
  | change_execution_priority _ _ => Some l
  | create_subflow name flow_alias_parent =>
      Some (l ++ [ {[ "id" := fresh_id l; "displayName" := name;
                      "level" := VInt (level_under flow_alias_parent l) ]} ])
  | create_execution payload flow_alias_parent =>
      Some (l ++ [ <["id" := fresh_id l]>
                     (<["level" := VInt (level_under flow_alias_parent l)]> payload) ])
  | delete_authentication_execution id =>
      Some (filter (λ e, has_id id e = false) l)
  end.

Definition memory_keycloak : KeycloakAPI (list dict) :=
  {| kc_read := λ _ l, Some l; kc_write := memory_write |}.

(** The pass against the in-memory Keycloak. *)
Definition run_in_memory (check_mode : bool) (config : flow_config)
    (remote : list dict) : outcome * list dict * list call :=
  @create_or_update_executions (list dict) memory_keycloak simple_imports
    check_mode config remote.

(** Declared executions, as the argument spec delivers them. *)
Definition declared (provider name req parent : option string)
    (cfg : option dict) (idx : option Z) : new_exec_t :=
  NewExec provider name req parent cfg idx None None.

Definition step_exec (provider : string) : new_exec_t :=
  declared (Some provider) None None None None None.

(** Executions as a read returns them. *)
Definition remote_exec (id name : string) (lvl : Z) (req : string) : dict :=
  {[ "id" := VStr id; "providerId" := VStr name; "displayName" := VStr name;
     "level" := VInt lvl; "requirement" := VStr req ]}.

Definition remote_config (a : string) : value :=
  VDict {[ "id" := VStr "cfg-1"; "alias" := VStr "c";
           "config" := VDict {[ "a" := VStr a ]} ]}.

Definition declared_config (a : string) : dict :=
  {[ "alias" := VStr "c"; "config" := VDict {[ "a" := VStr a ]} ]}.

(** A configuration in the shape of the module's examples (lines 109-112
    and 185-189): an alias and a mapping from string keys to string
    values, on the remote side with the id given to it there. *)
Definition named_config (a : string) (mapping : gmap string string) : dict :=
  {[ "alias" := VStr a; "config" := VDict (VStr <$> mapping) ]}.

Definition remote_named_config (id a : string) (mapping : gmap string string) : value :=
  VDict (<["id" := VStr id]> (named_config a mapping)).

(** The execution [A] as a read returns it, configured with a mapping. *)
Definition exec_a_with (mapping : gmap string string) : dict :=
  <["authenticationConfig" := remote_named_config "cfg-1" "c" mapping]>
    (remote_exec "1" "A" 0 "REQUIRED").

(** The flows the examples run on, all under the alias ["flow"]. *)
Definition flow_of (l : list new_exec_t) : flow_config :=
  FlowConfig "flow" (ExecsList l).

(** [A], then [B] under [A], then [C] under [B]. *)
Definition flow_nested : flow_config :=
  flow_of [ step_exec "A";
            declared None (Some "B") None (Some "A") None None;
            declared (Some "C") None None (Some "B") None None ].

(** [X] alone, against a remote side that may hold more. *)
Definition flow_x : flow_config := flow_of [ step_exec "X" ].

Definition remote_x_y : list dict :=
  [ remote_exec "1" "X" 0 "REQUIRED"; remote_exec "2" "Y" 0 "REQUIRED" ].

Definition remote_p_y_x : list dict :=
  [ remote_exec "1" "P" 0 "REQUIRED"; remote_exec "2" "Y" 0 "REQUIRED";
    remote_exec "3" "X" 0 "REQUIRED" ].

(** [A] declared [REQUIRED], [DISABLED] on the remote side. *)
Definition flow_a_required : flow_config :=
  flow_of [ declared (Some "A") None (Some "REQUIRED") None None None ].

Definition remote_a_disabled : list dict := [ remote_exec "1" "A" 0 "DISABLED" ].

(** [A] with a new configuration, then [B] under a parent [Z] that no
    execution before it declares. *)
Definition exec_a_configured : new_exec_t :=
  declared (Some "A") None None None (Some (declared_config "2")) None.

Definition exec_b_under_z : new_exec_t :=
  declared (Some "B") None None (Some "Z") None None.

Definition flow_unresolved : flow_config :=
  flow_of [ exec_a_configured; exec_b_under_z ].

Definition remote_a_configured : list dict :=
  [ <["authenticationConfig" := remote_config "1"]> (remote_exec "1" "A" 0 "REQUIRED") ].

(** [A] with its new configuration alone, against [A] and [Y]; and what
    the in-memory Keycloak shows once the configuration is pushed and [Y]
    removed. *)
Definition flow_a_configured : flow_config := flow_of [ exec_a_configured ].

Definition remote_a_configured_y : list dict :=
  remote_a_configured ++ [ remote_exec "2" "Y" 0 "REQUIRED" ].

Definition remote_a_settled : list dict :=
  [ <["authenticationConfig" := VDict (declared_config "2")]>
      (remote_exec "1" "A" 0 "REQUIRED") ].

(** The searched execution of the identity example: provider ["idp-x"]
    at a given level. *)
Definition searched_idp_x (lvl : Z) : dict := to_dict (set_level (step_exec "idp-x") lvl).

Definition remote_idp_x : list dict := [ remote_exec "1" "idp-x" 0 "REQUIRED" ].

(** The leaf [X] as a read that spells out its missing display name
    returns it. *)
Definition remote_x_unnamed : dict :=
  <["displayName" := VNone]> (remote_exec "1" "X" 0 "REQUIRED").

(** An execution with neither provider id nor display name, after [X]. *)
Definition exec_nameless : new_exec_t := declared None None None None None None.

Definition flow_nameless : flow_config := flow_of [ step_exec "X"; exec_nameless ].

(** [A], and [B] at the explicit index 2, against [A], [Y], [B]. *)
Definition exec_b_at_2 : new_exec_t :=
  declared (Some "B") None None None None (Some 2%Z).

Definition flow_a_b_at_2 : flow_config := flow_of [ step_exec "A"; exec_b_at_2 ].

Definition remote_a_y_b : list dict :=
  [ remote_exec "1" "A" 0 "REQUIRED"; remote_exec "2" "Y" 0 "REQUIRED";
    <["index" := VInt 2]> (remote_exec "3" "B" 0 "REQUIRED") ].

(** ** The specification's side

    The identity rule of the specification: the levels are equal and the
    provider kinds are both present and equal, or the display names are.
    The fields of an execution are optional strings: one is present when
    its key is there with a value other than [None]. *)
Definition both_present_and_equal (key : string) (existing desired : dict) : bool :=
  match existing !! key, desired !! key with
  | Some a, Some b => negb (is_none a) && negb (is_none b) && py_eqb a b
  | _, _ => false
  end.

Definition identity_rule (desired existing : dict) : bool :=
  both_present_and_equal "level" existing desired
  && (both_present_and_equal "providerId" existing desired
      || both_present_and_equal "displayName" existing desired).

(** A field that both executions hold as [None], and a pair of
    executions with no such field among the three of the rule. *)
Definition unset_on_both (key : string) (existing desired : dict) : Prop :=
  existing !! key = Some VNone ∧ desired !! key = Some VNone.

Definition set_apart (desired existing : dict) : Prop :=
  ∀ key, key ∈ ["level"; "providerId"; "displayName"] →
    ¬ unset_on_both key existing desired.

(** The Level Assigner of the specification: the nodes are taken in
    declared order; under a mapping from identifiers (the provider kind if
    present, else the display name) to the level last recorded for them, a
    node without parent gets level 0, a node with a parent gets the level
    recorded under its parent's alias plus one, and the assignment fails
    when nothing is recorded under that alias. *)
Definition node_identifier (node : new_exec_t) : option string :=
  match providerId node with Some p => Some p | None => displayName node end.

Definition node_level (recorded : gmap string Z) (node : new_exec_t) : option Z :=
  match flowAlias node with
  | None => Some 0%Z
  | Some parent => (λ l, (l + 1)%Z) <$> recorded !! parent
  end.

Fixpoint level_assigner (recorded : gmap string Z) (nodes : list new_exec_t)
  : option (list Z) :=
  match nodes with
  | [] => Some []
  | node :: rest =>
      match node_identifier node, node_level recorded node with
      | Some name, Some lvl =>
          (lvl ::.) <$> level_assigner (<[name := lvl]> recorded) rest
      | _, _ => None
      end
  end.

(** The ordering precondition of the specification fails on a list when
    some node has a parent alias that is neither the provider kind nor the
    display name of a node before it. *)
Definition names_node (parent : string) (node : new_exec_t) : bool :=
  bool_decide (providerId node = Some parent ∨ displayName node = Some parent).

Fixpoint has_unresolved_parent (earlier nodes : list new_exec_t) : bool :=
  match nodes with
  | [] => false
  | node :: rest =>
      match flowAlias node with
      | Some parent => negb (existsb (names_node parent) earlier)
      | None => false
      end
      || has_unresolved_parent (earlier ++ [node]) rest
  end.

(** The entries of the working copy that no declared execution has
    consumed, the line reported for one and the call that removes it. *)
Definition orphans (existing_executions : list dict) : list dict :=
  filter (λ e, e ≠ ∅) existing_executions.

Definition orphan_line `{Imports} (config : flow_config) (e : dict) : string :=
  extra_line (alias config) (default VNone (e !! "displayName"))
    (default VNone (e !! "level")).

Definition orphan_call (e : dict) : call :=
  delete_authentication_execution (default VNone (e !! "id")).

(** An entry that can be reported and removed carries its display name,
    its level and its remote id. *)
Definition removable (e : dict) : Prop :=
  is_Some (e !! "displayName") ∧ is_Some (e !! "level") ∧ is_Some (e !! "id").

(** An entry of the working copy is well formed for the matcher when it
    has been cleared or carries its level. *)
Definition cleared_or_levelled (e : dict) : Prop :=
  e = ∅ ∨ is_Some (e !! "level").

(** ** The report by the steps of the specification

    What the comparison and classification of the specification find,
    and the report they make: the findings of a pass depend on the
    declared flow and on the executions read, not on the mode.

    A finding is what one report line tells: a configuration, a
    requirement (or another attribute) or an index that differs on a
    matched execution, a sub-flow found under another name, a declared
    execution that is missing, an existing execution that is extra. *)
Inductive finding : Type :=
| wrong_config (exec_name : string) (new_exec : new_exec_t) (existing_exec : dict)
    (actual : value)
| wrong_requirement (exec_name : string) (new_exec : new_exec_t) (existing_exec : dict)
    (actual : value)
| wrong_index (exec_name : string) (new_exec_index exec_index : Z)
| wrong_flow_name (exec_name : string) (actual : value)
| missing_execution (exec_name : string) (new_exec : new_exec_t)
| extra_execution (existing_exec : dict) (exec_name lvl : value).

(** The line of a finding, in the formats of [add_error_line]. *)
Definition finding_line `{Imports} (config : flow_config) (f : finding) : string :=
  match f with
  | wrong_config name new_exec _ actual =>
      error_line "wrong config" (alias config) name None
        (VStr (py_str (opt_dict (authenticationConfig new_exec)))) (VStr (py_str actual))
  | wrong_requirement name new_exec _ actual =>
      error_line "wrong requirement" (alias config) name None
        (opt_str (requirement new_exec)) actual
  | wrong_index name new_exec_index exec_index =>
      error_line "wrong index" (alias config) name None
        (VInt new_exec_index) (VInt exec_index)
  | wrong_flow_name name actual =>
      error_line "wrong flow name" (alias config) name None (VStr name) actual
  | missing_execution name new_exec =>
      missing_line (alias config) name (flowAlias new_exec)
  | extra_execution _ name lvl => extra_line (alias config) name lvl
  end.

(** What a finding adds to the two sides of the diff: the requirement
    finding starts the [after] side anew, as line 343 does. *)
Definition finding_before `{Imports} (before : string) (f : finding) : string :=
  match f with
  | wrong_config _ _ existing_exec _ | wrong_requirement _ _ existing_exec _ =>
      before +:+ py_str (VDict existing_exec)
  | extra_execution existing_exec _ _ =>
      before +:+ py_str (VDict existing_exec) +:+ newline
  | _ => before
  end.

Definition finding_after `{Imports} (after : string) (f : finding) : string :=
  match f with
  | wrong_config _ new_exec _ _ => after +:+ py_str (VDict (to_dict new_exec))
  | wrong_requirement _ new_exec _ _ => py_str (VDict (to_dict new_exec))
  | missing_execution _ new_exec =>
      after +:+ py_str (VDict (to_dict new_exec)) +:+ newline
  | _ => after
  end.

(** Every finding marks [changed] and appends its line. *)
Definition apply_finding `{Imports} (config : flow_config) (r : report) (f : finding)
  : report :=
  Report true (finding_before (before r) f) (finding_after (after r) f)
    (err_msg r ++ [finding_line config f]).

Definition apply_findings `{Imports} (config : flow_config) (r : report)
    (fs : list finding) : report :=
  fold_left (apply_finding config) fs r.

(** The report of a pass that has found [fs], in this order. *)
Definition report_of `{Imports} (config : flow_config) (fs : list finding) : report :=
  apply_findings config no_report fs.

(** The three facets of the Change Classifier on a matched pair:
    [configChanged], as lines 322-328 compute it; [attributesChanged],
    which needs the requirement of the existing execution for its line;
    [positionChanged]. *)
Definition config_findings (name : string) (new_exec : new_exec_t) (existing_exec : dict)
  : option (list finding) :=
  match authenticationConfig new_exec with
  | None => Some []
  | Some new_config =>
      match config_differs new_config existing_exec with
      | Ok true =>
          actual ← existing_exec !! "authenticationConfig";
          Some [wrong_config name new_exec existing_exec actual]
      | Ok false => Some []
      | Raise _ => None
      end
  end.

Definition attribute_findings (name : string) (new_exec : new_exec_t)
    (existing_exec : dict) (attributesChanged : bool) : option (list finding) :=
  if attributesChanged then
    actual ← existing_exec !! "requirement";
    Some [wrong_requirement name new_exec existing_exec actual]
  else Some [].

Definition position_findings (name : string) (new_exec_index exec_index : Z)
  : list finding :=
  if bool_decide (exec_index ≠ new_exec_index)
  then [wrong_index name new_exec_index exec_index] else [].

(** Step 3a: the declared execution takes the id of the matched one. *)
Definition classify_matched `{Imports} (name : string) (new_exec : new_exec_t)
    (existing_exec : dict) (exec_index new_exec_index : Z)
  : option (new_exec_t * list finding) :=
  id ← existing_exec !! "id";
  let matched := set_id new_exec id in
  let attributesChanged :=
    negb (is_struct_included (to_dict new_exec) existing_exec (exclude_keys new_exec))
    || bool_decide (exec_index ≠ new_exec_index) in
  configs ← config_findings name matched existing_exec;
  attributes ← attribute_findings name matched existing_exec attributesChanged;
  Some (matched, configs ++ attributes ++ position_findings name new_exec_index exec_index).

(** Step 3b: a declared sub-flow, where an existing entry with a display
    name occupies its index, is that entry under another name, and is
    reported under both lines; every other unmatched execution is
    missing. *)
Definition classify_unmatched (name : string) (new_exec : new_exec_t)
    (new_exec_index : Z) (existing_executions : list dict)
  : option (new_exec_t * list dict * list finding) :=
  let isFlow :=
    bool_decide (is_Some (displayName new_exec))
    && bool_decide (providerId new_exec = None) in
  match subflow_at_index isFlow new_exec_index existing_executions with
  | Ok true =>
      match py_list_getitem existing_executions new_exec_index with
      | Ok occupant =>
          id ← occupant !! "id";
          actual ← occupant !! "displayName";
          let renamed := set_id new_exec id in
          Some (renamed, clear_at existing_executions new_exec_index,
                [wrong_flow_name name actual; missing_execution name renamed])
      | Raise _ => None
      end
  | Ok false => Some (new_exec, existing_executions, [missing_execution name new_exec])
  | Raise _ => None
  end.

(** Step 3 for one node: its level by the Level Assigner, the matcher of
    the source on the working copy, the matched entry consumed. *)
Definition classify_node `{Imports} (levels : gmap string Z)
    (existing_executions : list dict) (position : Z) (node : new_exec_t)
  : option (gmap string Z * list dict * new_exec_t * list finding) :=
  name ← node_identifier node;
  lvl ← node_level levels node;
  let new_exec := set_level node lvl in
  let new_exec_index := default position (index node) in
  match find_exec_in_executions (to_dict new_exec) existing_executions with
  | Ok exec_index =>
      if bool_decide (exec_index ≠ (-1)%Z) then
        match py_list_getitem existing_executions exec_index with
        | Ok existing_exec =>
            '(matched, fs) ←
              classify_matched name new_exec existing_exec exec_index new_exec_index;
            Some (<[name := lvl]> levels, clear_at existing_executions exec_index,
                  matched, fs)
        | Raise _ => None
        end
      else
        '(new_exec, existing_executions, fs) ←
          classify_unmatched name new_exec new_exec_index existing_executions;
        Some (<[name := lvl]> levels, existing_executions, new_exec, fs)
  | Raise _ => None
  end.

Fixpoint classify_nodes `{Imports} (levels : gmap string Z)
    (existing_executions : list dict) (position : Z) (nodes : list new_exec_t)
  : option (gmap string Z * list dict * list new_exec_t * list finding) :=
  match nodes with
  | [] => Some (levels, existing_executions, [], [])
  | node :: rest =>
      '(levels, existing_executions, new_exec, fs) ←
        classify_node levels existing_executions position node;
      '(levels, existing_executions, new_execs, fs') ←
        classify_nodes levels existing_executions (position + 1)%Z rest;
      Some (levels, existing_executions, new_exec :: new_execs, fs ++ fs')
  end.

(** Step 4: the entries left, each with its display name and level. *)
Fixpoint classify_extras (existing_executions : list dict) : option (list finding) :=
  match existing_executions with
  | [] => Some []
  | existing_exec :: rest =>
      if bool_decide (existing_exec ≠ ∅) then
        name ← existing_exec !! "displayName";
        lvl ← existing_exec !! "level";
        fs ← classify_extras rest;
        Some (extra_execution existing_exec name lvl :: fs)
      else classify_extras rest
  end.

(** The findings of a pass over the executions read, and the declared
    executions as it leaves them; [None] where the pass cannot be
    carried out. *)
Definition classify_flow `{Imports} (config : flow_config) (existing : list dict)
  : option (list finding * list new_exec_t) :=
  '(_, existing_executions, new_execs, fs) ←
    classify_nodes ∅ existing 0%Z (declared_executions (authenticationExecutions config));
  extras ← classify_extras existing_executions;
  Some (fs ++ extras, new_execs).

(** ** Predicates on computations *)

(** A computation that issues no call and leaves the remote state. *)
Definition quiet {KC A} (m : M KC A) : Prop :=
  ∀ kc, ∃ r, m kc = (r, kc, []).

(** Either nothing has happened, or [changed] is set. *)
Definition untouched_or_changed {KC} (r : report) (kc : KC)
    (x : result report * KC * list call) : Prop :=
  ∀ r' kc1 c1, x = (Ok r', kc1, c1) →
    (r' = r ∧ kc1 = kc ∧ c1 = []) ∨ changed r' = true.

Definition untouched_or_changed_st {KC} (st : pass_state) (kc : KC)
    (x : result pass_state * KC * list call) : Prop :=
  ∀ st' kc1 c1, x = (Ok st', kc1, c1) →
    (rep st' = rep st ∧ kc1 = kc ∧ c1 = []) ∨ changed (rep st') = true.

(** A declared execution as a later stage of the iteration holds it:
    the same but for its ["id"]. *)
Definition same_but_id (a b : new_exec_t) : Prop :=
  a = b ∨ ∃ v, a = set_id b v.

(** Whenever the first computation returns, the second returns the same
    value, from any remote state, without a call. *)
Definition follows {KC A} (m m' : M KC A) : Prop :=
  ∀ kc kc' a kc1 c1, m kc = (Ok a, kc1, c1) → m' kc' = (Ok a, kc', []).

(** Every removal the remote side is asked for succeeds. *)
Definition removals_succeed `{KeycloakAPI KC} : Prop :=
  ∀ id (kc : KC), is_Some (kc_write (delete_authentication_execution id) kc).

(** The comparison can be carried out: if the existing execution has a
    configuration, it is a dictionary with every key the declared
    configuration gives a value other than [None]. *)
Definition comparable (new_config existing_exec : dict) : Prop :=
  ∀ x, existing_exec !! "authenticationConfig" = Some x →
    ∃ existing_config, x = VDict existing_config
      ∧ ∀ key v, new_config !! key = Some v → v ≠ VNone →
          is_Some (existing_config !! key).

(** A key of the declared configuration whose value differs. *)
Definition differing_key (new_config existing_exec : dict) : Prop :=
  ∃ existing_config key v w,
    existing_exec !! "authenticationConfig" = Some (VDict existing_config)
    ∧ new_config !! key = Some v ∧ v ≠ VNone
    ∧ existing_config !! key = Some w ∧ py_eqb v w = false.

(** Two mappings differ: a key's declared value differs from, or is
    absent in, the existing mapping, or the existing mapping holds a key
    that is not declared. *)
Definition mappings_differ (mapping mapping' : gmap string string) : Prop :=
  (∃ key v, mapping !! key = Some v ∧ mapping' !! key ≠ Some v)
  ∨ (∃ key, mapping !! key = None ∧ is_Some (mapping' !! key)).

(** ** A second pass

    The explicit indices, where given, are the positions in the declared
    list. *)
Definition indexed_in_place (new_execs : list new_exec_t) : Prop :=
  ∀ i new_exec j,
    new_execs !! i = Some new_exec → index new_exec = Some j → j = Z.of_nat i.

(** [is_struct_included] does not read, in its second structure, the
    keys it is told to leave out. *)
Definition ignores_excluded_keys `{Imports} : Prop :=
  ∀ struct1 struct2 struct2' exclude,
    (∀ key, key ∉ exclude → struct2 !! key = struct2' !! key) →
    is_struct_included struct1 struct2 exclude = is_struct_included struct1 struct2' exclude.

(** What the remote side shows of a matched execution once the pass has
    returned: the entry as it was read, but for its configuration, from
    which the declared one no longer differs. *)
Definition settled_entry (new_exec : new_exec_t) (existing_exec settled_exec : dict) : Prop :=
  (∀ key, key ≠ "authenticationConfig" → settled_exec !! key = existing_exec !! key)
  ∧ ∀ new_config, authenticationConfig new_exec = Some new_config →
      config_differs new_config settled_exec = Ok false.

(** The remote side once the pass has returned: the executions that
    were matched, in their order, and no other. *)
Definition settled (new_execs : list new_exec_t) (existing existing' : list dict) : Prop :=
  length existing' = length new_execs
  ∧ ∀ i new_exec existing_exec settled_exec,
      new_execs !! i = Some new_exec →
      existing !! i = Some existing_exec →
      existing' !! i = Some settled_exec →
      settled_entry new_exec existing_exec settled_exec.

(** No call the computation issues, from any remote state, is in [P]. *)
Definition never {KC A} (P : call → bool) (m : M KC A) : Prop :=
  ∀ kc, Forall (λ c, P c = false) (m kc).2.

(** ** What the pass keeps

    The report tells of a change exactly when it holds a line. *)
Definition reports_its_changes (r : report) : Prop :=
  changed r = true ↔ err_msg r ≠ [].

(** The working copy against the list the read returned: entry by entry,
    the same or cleared. *)
Definition working_copy_of (existing : list dict) (working : list dict) : Prop :=
  Forall2 (λ e' e, e' = ∅ ∨ e' = e) working existing.

(** The calls that push a configuration and those that remove an
    execution. *)
Definition is_config_call (c : call) : bool :=
  match c with add_authenticationConfig_to_execution _ _ => true | _ => false end.

Definition is_removal_call (c : call) : bool :=
  match c with delete_authentication_execution _ => true | _ => false end.

(** The removal of an entry of the list the read has returned. *)
Definition removes_one_of (existing : list dict) (c : call) : Prop :=
  ∀ id, c = delete_authentication_execution id →
    ∃ e, e ∈ existing ∧ e !! "id" = Some id.

(** The keys the caller declares. *)
Definition same_declaration (a b : new_exec_t) : Prop :=
  providerId a = providerId b ∧ displayName a = displayName b
  ∧ requirement a = requirement b ∧ flowAlias a = flowAlias b
  ∧ authenticationConfig a = authenticationConfig b ∧ index a = index b.

(** Lines 245-252: the call that creates [new_exec] under its parent. *)
Definition creation_call (new_exec : new_exec_t) (flow_alias_parent : string)
    (isFlow : bool) : call :=
  if isFlow then create_subflow (opt_str (displayName new_exec)) flow_alias_parent
  else create_execution (updated_exec new_exec) flow_alias_parent.

(** The line reported for a declared execution that the flow lacks. *)
Definition missing_line_of (config : flow_config) (new_exec : new_exec_t) : string :=
  missing_line (alias config) (default "" (node_identifier new_exec)) (flowAlias new_exec).

(** ** More to run the pass on *)

(** A remote side that accepts every call and shows no execution. *)
Definition silent_keycloak : KeycloakAPI unit :=
  {| kc_read := λ _ _, Some []; kc_write := λ _ kc, Some kc |}.

(** [X] declared with its level, as the loop holds it. *)
Definition exec_x_levelled : new_exec_t := set_level (step_exec "X") 0.

(** [X] as the in-memory Keycloak shows it once created in the empty flow. *)
Definition created_x : dict :=
  <["id" := fresh_id []]> (<["level" := VInt 0]> (updated_exec exec_x_levelled)).

(** The flow declared with no executions at all. *)
Definition flow_none : flow_config := FlowConfig "flow" ExecsNone.

(** ** [main]

    The parameters of the module as the argument spec delivers them;
    [realm] and the connection parameters travel unchanged to the client
    and to every call, and are left out as they are from the calls of the
    pass. *)
Inductive state_choice : Type := absent | present | exact.

Record module_params : Type := ModuleParams {
  param_alias : string;
  param_providerId : option string;
  param_description : option string;
  param_copyFrom : option string;
  param_authenticationExecutions : option (list new_exec_t);
  state : state_choice;
  force : bool
}.

(** [module]: its parameters, [module.check_mode] and [module._diff]. *)
Record ansible_module : Type := AnsibleModule {
  params : module_params;
  check_mode : bool;
  diff_mode : bool
}.

(** The methods of [kc] that [main] calls on the flow itself. *)
Inductive flow_call : Type :=
| get_authentication_flow_by_alias (flow : string)
| copy_auth_flow (config : value)
| create_empty_auth_flow (config : value)
| delete_authentication_flow_by_id (id : value).

(** The calls of [main], its own and those of the pass, in order. *)
Inductive main_call : Type :=
| on_flow (c : flow_call)
| on_executions (c : call).

(** The flow calls that change the remote side, with those of the pass. *)
Definition main_mutating (c : main_call) : bool :=
  match c with
  | on_flow (get_authentication_flow_by_alias _) => false
  | on_flow _ => true
  | on_executions c => mutating c
  end.

(** The remote side, for the flow: [get_token] returns a header or raises
    [KeycloakError] with a message; the lookup returns a dictionary or
    [None]; a creation returns the new flow or [None] and leaves a remote
    state; [None] outside is a call that raises. *)
Class KeycloakFlows (KC : Type) : Type := {
  get_token : module_params → KC → unit + string;
  kc_flow_by_alias : string → KC → option (option dict);
  kc_copy_auth_flow : value → KC → option (option dict * KC);
  kc_create_empty_auth_flow : value → KC → option (option dict * KC);
  kc_delete_flow : value → KC → option KC
}.

(** [result], the dictionary handed to [exit_json] or [fail_json]; the
    keys ["diff"] and ["end_state"] are there once set. *)
Record module_result : Type := ModuleResult {
  result_changed : bool;
  result_msg : value;
  result_flow : dict;
  result_diff : option (value * value);
  result_end_state : option value
}.

(** How [main] ends: in [exit_json], in one of its [fail_json], in the
    [fail_json] of the pass, or on an exception nothing catches. *)
Inductive module_exit : Type :=
| exit_json (result : module_result)
| fail_json_msg (msg : string)
| fail_json_result (result : module_result)
| pass_failed (e : exn)
| uncaught (e : exn).

(** Lines 440-448; [executions] is the list under
    ["authenticationExecutions"] as it stands when the dictionary is
    read. *)
Definition new_auth_repr (p : module_params) (executions : option (list new_exec_t))
  : dict :=
  {[ "alias" := VStr (param_alias p);
     "copyFrom" := opt_str (param_copyFrom p);
     "providerId" := opt_str (param_providerId p);
     "authenticationExecutions" :=
       from_option (λ l, VList ((λ e, VDict (to_dict e)) <$> l)) VNone executions;
     "description" := opt_str (param_description p);
     "builtIn" := VNone;
     "subflow" := VNone ]}.

(** [new_auth_repr] as the pass reads it. *)
Definition config_of (p : module_params) : flow_config :=
  FlowConfig (param_alias p)
    (from_option ExecsList ExecsNone (param_authenticationExecutions p)).

Definition set_changed (r : module_result) (b : bool) : module_result :=
  ModuleResult b (result_msg r) (result_flow r) (result_diff r) (result_end_state r).

Definition set_msg (r : module_result) (m : value) : module_result :=
  ModuleResult (result_changed r) m (result_flow r) (result_diff r) (result_end_state r).

Definition set_diff (r : module_result) (d : value * value) : module_result :=
  ModuleResult (result_changed r) (result_msg r) (result_flow r) (Some d) (result_end_state r).

Definition set_end_state (r : module_result) (s : value) : module_result :=
  ModuleResult (result_changed r) (result_msg r) (result_flow r) (result_diff r) (Some s).

(** [if module._diff: result['diff'] = dict(before=..., after=...)] *)
Definition with_diff (module : ansible_module) (r : module_result)
    (before after : value) : module_result :=
  if diff_mode module then set_diff r (before, after) else r.

(** A step of [main] ends the module or goes on with a value; it leaves
    a remote state and has issued calls. *)
Definition Main (KC A : Type) : Type := KC → (module_exit + A) * KC * list main_call.

#[global] Instance Main_ret {KC} : MRet (Main KC) := λ A a kc, (inr a, kc, []).

#[global] Instance Main_bind {KC} : MBind (Main KC) := λ A B f m kc,
  match m kc with
  | (inr a, kc1, c1) => let '(r, kc2, c2) := f a kc1 in (r, kc2, c1 ++ c2)
  | (inl e, kc1, c1) => (inl e, kc1, c1)
  end.

(** [module.exit_json], [module.fail_json], or an exception. *)
Definition ended {KC A} (e : module_exit) : Main KC A := λ kc, (inl e, kc, []).

Definition escapes {KC A} (r : result A) : Main KC A :=
  match r with Ok a => mret a | Raise e => ended (uncaught e) end.

(** A call of a method of [kc] on the flow. *)
Definition flow_op {KC A} (c : flow_call) (f : KC → option (A * KC)) : Main KC A :=
  λ kc,
  match f kc with
  | Some (a, kc') => (inr a, kc', [on_flow c])
  | None => (inl (uncaught KeycloakError), kc, [on_flow c])
  end.

Section entry_point.
Context `{KeycloakAPI KC} `{KeycloakFlows KC} `{Imports}.

(** Lines 429-432. *)
Definition connect (p : module_params) : Main KC unit := λ kc,
  match get_token p kc with
  | inl _ => (inr tt, kc, [])
  | inr msg => (inl (fail_json_msg msg), kc, [])
  end.

(** [create_or_update_executions], called from [main]. *)
Definition run_pass (check_mode : bool) (config : flow_config)
  : Main KC (report * list new_exec_t) := λ kc,
  match create_or_update_executions check_mode config kc with
  | (Returns r declared, kc', calls) => (inr (r, declared), kc', on_executions <$> calls)
  | (fail_json e, kc', calls) => (inl (pass_failed e), kc', on_executions <$> calls)
  end.

(** Lines 487-491 and 522-526: the executions are read again and laid
    into the flow, which is the end state; the read returns a list or
    raises, as it does for the pass. *)
Definition with_executions (p : module_params) (auth_repr : dict) : Main KC value :=
  λ kc,
  let c := on_executions (get_executions_representation (param_alias p)) in
  match kc_read (param_alias p) kc with
  | Some exec_repr =>
      (inr (VDict (<["authenticationExecutions" := VList (VDict <$> exec_repr)]> auth_repr)),
       kc, [c])
  | None => (inl (uncaught KeycloakError), kc, [c])
  end.

(** Lines 473-477 and 505-509: the flow is created from a copy when
    [copyFrom] is given, empty otherwise. *)
Definition flow_creation_call (p : module_params) : flow_call :=
  let config := VDict (new_auth_repr p (param_authenticationExecutions p)) in
  match param_copyFrom p with
  | Some _ => copy_auth_flow config
  | None => create_empty_auth_flow config
  end.

Definition kc_create_flow (p : module_params) : KC → option (option dict * KC) :=
  let config := VDict (new_auth_repr p (param_authenticationExecutions p)) in
  match param_copyFrom p with
  | Some _ => kc_copy_auth_flow config
  | None => kc_create_empty_auth_flow config
  end.

(** Lines 473-482 and 505-513: the flow is created and has to be there. *)
Definition create_flow (p : module_params) (result : module_result) : Main KC dict :=
  auth_repr ← flow_op (flow_creation_call p) (kc_create_flow p);
  match auth_repr with
  | Some auth_repr => mret auth_repr
  | None =>
      ended (fail_json_result
               (set_msg result
                  (VStr ("Authentication just created not found: "
                         +:+ py_str (VDict (new_auth_repr p
                                              (param_authenticationExecutions p)))))))
  end.

(** Lines 453-491: there is no such flow. *)
Definition missing (module : ansible_module) (result : module_result)
  : Main KC module_result :=
  let p := params module in
  match state p with
  | absent =>
      let result := with_diff module result (VStr "") (VStr "") in
      let result := set_changed result false in
      let result := set_end_state result (VDict ∅) in
      let result := set_msg result (VStr (param_alias p +:+ " absent")) in
      ended (exit_json result)
  | present =>
      let result := set_changed result true in
      let result :=
        with_diff module result (VStr "")
          (VDict (new_auth_repr p (param_authenticationExecutions p))) in
      (if check_mode module then ended (exit_json result) else mret tt);;
      auth_repr ← create_flow p result;
      '(_, declared) ← run_pass (check_mode module) (config_of p);
      (* the dictionary under ["after"] is [new_auth_repr] itself, whose
         executions the pass has written into *)
      let result :=
        with_diff module result (VStr "")
          (VDict (new_auth_repr p ((λ _, declared) <$> param_authenticationExecutions p))) in
      end_state ← with_executions p auth_repr;
      mret (set_end_state result end_state)
  | exact => mret result
  end.

(** Lines 493-544: the flow is there. *)
Definition found (module : ansible_module) (result : module_result) (auth_repr : dict)
  : Main KC module_result :=
  let p := params module in
  match state p with
  | present =>
      '(result, auth_repr) ←
        (if force p then
           let result := set_changed result true in
           let result :=
             with_diff module result (VDict auth_repr)
               (VDict (new_auth_repr p (param_authenticationExecutions p))) in
           (if check_mode module then ended (exit_json result) else mret tt);;
           id ← escapes (py_getitem auth_repr "id");
           flow_op (delete_authentication_flow_by_id id)
             (λ kc, (tt,.) <$> kc_delete_flow id kc);;
           auth_repr ← create_flow p result;
           mret (result, auth_repr)
         else mret (result, auth_repr));
      '(r, _) ← run_pass (check_mode module) (config_of p);
      let result := set_changed result (result_changed result || changed r) in
      let result := with_diff module result (VStr (before r)) (VStr (after r)) in
      end_state ← with_executions p auth_repr;
      let result := set_end_state result end_state in
      mret (set_msg result (VList (VStr <$> err_msg r)))
  | _ =>
      let result := set_changed result true in
      let result := with_diff module result (VDict auth_repr) (VStr "") in
      (if check_mode module then ended (exit_json result) else mret tt);;
      id ← escapes (py_getitem auth_repr "id");
      flow_op (delete_authentication_flow_by_id id)
        (λ kc, (tt,.) <$> kc_delete_flow id kc);;
      id ← escapes (py_getitem auth_repr "id");
      mret (set_msg result
              (VStr ("Authentication flow: " +:+ param_alias p +:+ " id: "
                     +:+ py_str id +:+ " is deleted")))
  end.

(** Lines 426-546, up to the last [exit_json]. *)
Definition main_body (module : ansible_module) : Main KC module_result :=
  let p := params module in
  let result := ModuleResult false (VStr "") ∅ None None in
  connect p;;
  auth_repr ← flow_op (get_authentication_flow_by_alias (param_alias p))
                 (λ kc, (., kc) <$> kc_flow_by_alias (param_alias p) kc);
  match auth_repr with
  | Some auth_repr =>
      if bool_decide (auth_repr = ∅) then missing module result
      else found module result auth_repr
  | None => missing module result
  end.

Definition main (module : ansible_module) (kc : KC)
  : module_exit * KC * list main_call :=
  match main_body module kc with
  | (inl e, kc', calls) => (e, kc', calls)
  | (inr result, kc', calls) => (exit_json result, kc', calls)
  end.
End entry_point.

(** A step of [main] that leaves the remote state and issues no call that
    changes it. *)
Definition harmless {KC A} (m : Main KC A) : Prop :=
  ∀ kc, (m kc).1.2 = kc ∧ Forall (λ c, main_mutating c = false) (m kc).2.

(** ** Remote sides and modules to run [main] on *)

(** The flow as the lookup shows it. *)
Definition flow_repr (flow : string) : dict :=
  {[ "id" := VStr "f-1"; "alias" := VStr flow ]}.

(** A remote side on which the flow exists, whatever its executions:
    deleting it drops them, creating it anew starts from none. *)
Definition flow_there : KeycloakFlows (list dict) :=
  {| get_token := λ _ _, inl tt;
     kc_flow_by_alias := λ flow _, Some (Some (flow_repr flow));
     kc_copy_auth_flow := λ _ l, Some (Some (flow_repr "flow"), l);
     kc_create_empty_auth_flow := λ _ _, Some (Some (flow_repr "flow"), []);
     kc_delete_flow := λ _ _, Some [] |}.

(** A remote side on which the lookup finds no flow. *)
Definition flow_not_there : KeycloakFlows (list dict) :=
  {| get_token := λ _ _, inl tt;
     kc_flow_by_alias := λ _ _, Some None;
     kc_copy_auth_flow := λ _ l, Some (Some (flow_repr "flow"), l);
     kc_create_empty_auth_flow := λ _ _, Some (Some (flow_repr "flow"), []);
     kc_delete_flow := λ _ _, Some [] |}.

(** The module run on the flow ["flow"]. *)
Definition module_of (executions : option (list new_exec_t)) (state : state_choice)
    (check_mode : bool) : ansible_module :=
  AnsibleModule (ModuleParams "flow" None None None executions state false)
    check_mode false.

(** The flow created from a copy, with no executions declared. *)
Definition module_copy : ansible_module :=
  AnsibleModule (ModuleParams "flow" None None (Some "browser") None present false)
    false false.

Definition main_there := @main (list dict) memory_keycloak flow_there simple_imports.

Definition main_not_there := @main (list dict) memory_keycloak flow_not_there simple_imports.

(** What [main] returns for [X] declared against [X], [Y] in check mode. *)
Definition result_x_y : module_result :=
  ModuleResult true (VList [VStr "Flow flow has extra execution Y at depth level 0"]) ∅ None
    (Some (VDict (<["authenticationExecutions" := VList (VDict <$> remote_x_y)]>
                    (flow_repr "flow")))).

Definition calls_x_y : list main_call :=
  [on_flow (get_authentication_flow_by_alias "flow");
   on_executions (get_executions_representation "flow");
   on_executions (get_executions_representation "flow")].

(** A sub-flow [S] declared at the index [-1]. *)
Definition flow_s_at_minus_1 : flow_config :=
  flow_of [ declared None (Some "S") None None None (Some (-1)%Z) ].

(** The existing flow re-created by force, with no executions declared. *)
Definition module_force : ansible_module :=
  AnsibleModule (ModuleParams "flow" None None None None present true) false false.

(** * Properties *)

(** ** The monad *)

Section monad_facts.
Context {KC : Type}.

Lemma bind_lift_ok {A B} (a : A) (f : A → M KC B) (kc : KC) :
  (lift (Ok a) ≫= f) kc = f a kc.
Proof.
  unfold mbind, M_bind, lift. destruct (f a kc) as [[r kc'] c]. done.
Qed.

Lemma bind_lift_raise {A B} (e : exn) (f : A → M KC B) (kc : KC) :
  (lift (Raise e) ≫= f) kc = (Raise e, kc, []).
Proof. done. Qed.

Lemma bind_ret {A B} (a : A) (f : A → M KC B) (kc : KC) :
  (mret a ≫= f) kc = f a kc.
Proof.
  unfold mbind, M_bind, mret, M_ret. destruct (f a kc) as [[r kc'] c]. done.
Qed.

Lemma bind_ok {A B} (m : M KC A) (f : A → M KC B) kc a kc1 c1 :
  m kc = (Ok a, kc1, c1) →
  (m ≫= f) kc = (let '(r, kc2, c2) := f a kc1 in (r, kc2, c1 ++ c2)).
Proof. intros Hm. unfold mbind, M_bind. by rewrite Hm. Qed.

Lemma bind_raise {A B} (m : M KC A) (f : A → M KC B) kc e kc1 c1 :
  m kc = (Raise e, kc1, c1) → (m ≫= f) kc = (Raise e, kc1, c1).
Proof. intros Hm. unfold mbind, M_bind. by rewrite Hm. Qed.

(** A bind that returns has returned on both sides. *)
Lemma bind_returns {A B} (m : M KC A) (f : A → M KC B) kc b kc2 c :
  (m ≫= f) kc = (Ok b, kc2, c) →
  ∃ a kc1 c1 c2, m kc = (Ok a, kc1, c1) ∧ f a kc1 = (Ok b, kc2, c2) ∧ c = c1 ++ c2.
Proof.
  unfold mbind, M_bind. destruct (m kc) as [[[a|e] kc1] c1]; [|done].
  destruct (f a kc1) as [[r kc2'] c2] eqn:Hf. intros [= -> -> <-].
  by exists a, kc1, c1, c2.
Qed.

Lemma bind_assoc {A B C} (m : M KC A) (f : A → M KC B) (g : B → M KC C) kc :
  ((m ≫= f) ≫= g) kc = (m ≫= λ a, f a ≫= g) kc.
Proof.
  unfold mbind, M_bind. destruct (m kc) as [[[a|e] kc1] c1]; [|done].
  destruct (f a kc1) as [[[b|e] kc2] c2]; [|done].
  destruct (g b kc2) as [[r kc3] c3]. by rewrite app_assoc.
Qed.

Lemma bind_ext {A B} (m : M KC A) (f g : A → M KC B) kc :
  (∀ a kc', f a kc' = g a kc') → (m ≫= f) kc = (m ≫= g) kc.
Proof.
  intros Hfg. unfold mbind, M_bind. destruct (m kc) as [[[a|e] kc1] c1]; [|done].
  by rewrite Hfg.
Qed.

Lemma lift_returns {A} (r : result A) (kc : KC) a kc1 c :
  lift r kc = (Ok a, kc1, c) → r = Ok a ∧ kc1 = kc ∧ c = [].
Proof. unfold lift. by intros [= -> -> <-]. Qed.

Lemma ret_returns {A} (x : A) (kc : KC) a kc1 c :
  (mret x : M KC A) kc = (Ok a, kc1, c) → a = x ∧ kc1 = kc ∧ c = [].
Proof. unfold mret, M_ret. by intros [= -> -> <-]. Qed.

Lemma py_call_mismatch {A} (params args : nat) (body : M KC A) (kc : KC) :
  args ≠ params → py_call params args body kc = (Raise TypeError, kc, []).
Proof. intros Hne. unfold py_call. by rewrite bool_decide_eq_false_2. Qed.
End monad_facts.

(** ** The matcher *)

Lemma both_present_and_equal_membership key existing desired :
  ¬ unset_on_both key existing desired →
  both_present_and_equal key existing desired
  = match existing !! key, desired !! key with
    | Some a, Some b => py_eqb a b
    | _, _ => false
    end.
Proof.
  unfold both_present_and_equal, unset_on_both. intros Hne.
  destruct (existing !! key) as [a|]; [|done].
  destruct (desired !! key) as [b|]; [|done].
  destruct a, b; try done. by destruct Hne.
Qed.

Lemma same_exec_identity_rule (existing_exec searched_exec : dict) :
  is_Some (searched_exec !! "level") →
  cleared_or_levelled existing_exec →
  set_apart searched_exec existing_exec →
  same_exec existing_exec searched_exec = Ok (identity_rule searched_exec existing_exec).
Proof.
  intros [b Hb] Hwf Hapart. unfold same_exec, identity_rule, same_name.
  rewrite !both_present_and_equal_membership by (apply Hapart; set_solver).
  destruct Hwf as [-> | [a Ha]].
  - rewrite !lookup_empty. done.
  - unfold py_getitem. rewrite Ha, Hb. simpl.
    destruct (_ || _); [by rewrite andb_true_r | by rewrite andb_false_r].
Qed.

Lemma find_exec_from_identity_rule (i : Z) (searched_exec : dict) (executions : list dict) :
  is_Some (searched_exec !! "level") →
  Forall cleared_or_levelled executions →
  Forall (set_apart searched_exec) executions →
  find_exec_from i searched_exec executions =
    Ok (match list_find (λ e, identity_rule searched_exec e = true) executions with
        | Some (j, _) => (i + Z.of_nat j)%Z
        | None => (-1)%Z
        end).
Proof.
  intros Hs Hall Hapart. revert i.
  induction Hall as [|e l He Hl IH]; intros i; [done|].
  apply Forall_cons in Hapart as [Hap Hapart].
  cbn [find_exec_from list_find]. rewrite same_exec_identity_rule by done.
  case_decide as Hrule.
  - rewrite Hrule. simpl. f_equal. lia.
  - apply not_true_is_false in Hrule. rewrite Hrule, IH by done.
    destruct (list_find _ l) as [[j x]|]; simpl; [f_equal; lia | done].
Qed.

(** C2.  The matcher tests its names with [in], which holds of a key
    whose value is [None], and [None == None] is true.  Where no field
    of the rule is [None] on both sides (the searched execution carries
    its level, every existing entry is cleared or carries its level),
    [find_exec_in_executions] returns the index of the first entry, in
    list order, that satisfies the identity rule of the specification,
    and [-1] when no entry does.  Where the provider id or the display
    name is [None] on both sides and the levels are equal, the entry is
    matched although that field is not present and equal; so the
    declared leaf [Y] is found at the remote leaf [X], which the
    identity rule does not relate to it. *)
Theorem find_exec_in_executions_matches_on_none :
  (∀ searched_exec executions,
     is_Some (searched_exec !! "level") →
     Forall cleared_or_levelled executions →
     Forall (set_apart searched_exec) executions →
     find_exec_in_executions searched_exec executions =
       Ok (match list_find (λ e, identity_rule searched_exec e = true) executions with
           | Some (i, _) => Z.of_nat i
           | None => (-1)%Z
           end))
  ∧ (∀ key searched_exec existing_exec rest a b,
       key = "providerId" ∨ key = "displayName" →
       unset_on_both key existing_exec searched_exec →
       existing_exec !! "level" = Some a →
       searched_exec !! "level" = Some b →
       py_eqb a b = true →
       find_exec_in_executions searched_exec (existing_exec :: rest) = Ok 0%Z
       ∧ both_present_and_equal key existing_exec searched_exec = false)
  ∧ (find_exec_in_executions (to_dict (set_level (step_exec "Y") 0)) [remote_x_unnamed]
       = Ok 0%Z
     ∧ identity_rule (to_dict (set_level (step_exec "Y") 0)) remote_x_unnamed = false).
Proof.
  split; [|split].
  - intros searched_exec executions Hs Hall Hapart. unfold find_exec_in_executions.
    rewrite find_exec_from_identity_rule by done.
    by destruct (list_find _ executions) as [[j x]|].
  - intros key searched_exec existing_exec rest a b Hkey [He Hs] Ha Hb Hab.
    split.
    + unfold find_exec_in_executions. cbn [find_exec_from].
      unfold same_exec, same_name, py_getitem.
      destruct Hkey as [-> | ->]; rewrite He, Hs, Ha, Hb; simpl;
        rewrite ?orb_true_r, Hab; reflexivity.
    + unfold both_present_and_equal. by rewrite He, Hs.
  - split; reflexivity.
Qed.

(** ** Check mode issues no call *)

Section check_mode_facts.
Context `{KeycloakAPI KC} `{Imports}.

Local Abbreviation quiet := (quiet (KC:=KC)).

Lemma quiet_ret {A} (a : A) : quiet (mret a).
Proof. intros kc. by exists (Ok a). Qed.

Lemma quiet_lift {A} (r : result A) : quiet (lift r).
Proof. intros kc. by exists r. Qed.

Lemma quiet_bind {A B} (m : M KC A) (f : A → M KC B) :
  quiet m → (∀ a, quiet (f a)) → quiet (m ≫= f).
Proof.
  intros Hm Hf kc. destruct (Hm kc) as [[a|e] Hr].
  - destruct (Hf a kc) as [r Hfa]. exists r.
    rewrite (bind_ok _ _ _ _ _ _ Hr), Hfa. done.
  - exists (Raise e). by rewrite (bind_raise _ _ _ _ _ _ Hr).
Qed.

Lemma quiet_unless_check_mode (m : M KC unit) : quiet (unless_check_mode true m).
Proof. apply quiet_ret. Qed.

Ltac quiet_step :=
  match goal with
  | |- quiet (mret _) => apply quiet_ret
  | |- quiet (lift _) => apply quiet_lift
  | |- quiet (unless_check_mode true _) => apply quiet_unless_check_mode
  | |- quiet (_ ≫= _) => apply quiet_bind; [|intros ?]
  | |- quiet (if ?b then _ else _) => destruct b
  | |- quiet (match ?x with _ => _ end) => destruct x
  | |- quiet (let _ := _ in _) => cbv zeta
  end.

Lemma quiet_push_config config new_exec existing_exec id r :
  quiet (push_config true config new_exec existing_exec id r).
Proof. unfold push_config. repeat quiet_step. Qed.

Lemma quiet_push_changes config parent new_exec existing_exec r :
  quiet (push_changes true config parent new_exec existing_exec r).
Proof. unfold push_changes. repeat quiet_step. Qed.

Lemma quiet_push_priority config new_exec id exec_index new_exec_index r :
  quiet (push_priority true config new_exec id exec_index new_exec_index r).
Proof. unfold push_priority. repeat quiet_step. Qed.

Lemma quiet_update_existing config st parent new_exec_index new_exec exec_index :
  quiet (update_existing true config st parent new_exec_index new_exec exec_index).
Proof.
  unfold update_existing.
  repeat first
    [ apply quiet_push_config | apply quiet_push_changes
    | apply quiet_push_priority | quiet_step ].
Qed.

Lemma quiet_rename_subflow config st parent new_exec_index new_exec :
  quiet (rename_subflow true config st parent new_exec_index new_exec).
Proof. unfold rename_subflow. repeat quiet_step. Qed.

Lemma quiet_add_missing config st parent new_exec_index new_exec :
  quiet (add_missing true config st parent new_exec_index new_exec).
Proof.
  unfold add_missing. repeat first [ apply quiet_rename_subflow | quiet_step ].
Qed.

Lemma quiet_process_execution config st position new_exec :
  quiet (process_execution true config st position new_exec).
Proof.
  unfold process_execution.
  repeat first [ apply quiet_update_existing | apply quiet_add_missing | quiet_step ].
Qed.

Lemma quiet_process_executions config st position new_execs :
  quiet (process_executions true config st position new_execs).
Proof.
  revert st position. induction new_execs as [|new_exec rest IH]; intros st position.
  - apply quiet_ret.
  - simpl. apply quiet_bind; [apply quiet_process_execution | intros st'; apply IH].
Qed.

Lemma quiet_remove_extra_execution config r existing_exec :
  quiet (remove_extra_execution true config r existing_exec).
Proof. unfold remove_extra_execution. repeat quiet_step. Qed.

Lemma quiet_remove_extra_executions config r existing :
  quiet (remove_extra_executions true config r existing).
Proof.
  revert r. induction existing as [|e rest IH]; intros r.
  - apply quiet_ret.
  - simpl. apply quiet_bind; [apply quiet_remove_extra_execution | intros r'; apply IH].
Qed.

(** In check mode the pass reads the executions once, at most, and does
    nothing else to the remote side. *)
Lemma check_mode_calls config kc :
  ∃ r calls,
    reconcile true config kc = (r, kc, calls)
    ∧ (calls = [] ∨ calls = [get_executions_representation (alias config)]).
Proof.
  unfold reconcile.
  assert (∀ declared, ∃ r calls,
    (existing ← fetch (alias config);
     st ← process_executions true config (PassState no_report ∅ existing []) 0%Z
            (declared_executions declared);
     r ← remove_extra_executions true config (rep st) (existing_executions st);
     mret (r, visited st)) kc = (r, kc, calls)
    ∧ (calls = [] ∨ calls = [get_executions_representation (alias config)])) as Hbody.
  { intros declared. unfold mbind at 1, M_bind at 1, fetch.
    destruct (kc_read (alias config) kc) as [existing|]; [|eauto].
    match goal with |- context [?m kc] =>
      match m with mbind _ _ =>
        assert (quiet m) as Hq
      end
    end.
    { repeat first [ apply quiet_process_executions
                   | apply quiet_remove_extra_executions | quiet_step ]. }
    destruct (Hq kc) as [r ->]. eauto. }
  destruct (authenticationExecutions config) as [| |l];
    [|apply (Hbody ExecsNone)|apply (Hbody (ExecsList l))].
  exists (Ok (no_report, [])), []. eauto.
Qed.
End check_mode_facts.

(** ** Runs that return *)

Section returning_runs.
Context `{KeycloakAPI KC}.

Lemma invoke_returns (c : call) (kc : KC) a kc1 c1 :
  invoke c kc = (Ok a, kc1, c1) → kc_write c kc = Some kc1 ∧ c1 = [c].
Proof. unfold invoke. destruct (kc_write c kc); by intros [= <- <-]. Qed.

Lemma fetch_returns (flow : string) (kc : KC) l kc1 c1 :
  fetch flow kc = (Ok l, kc1, c1) →
  kc_read flow kc = Some l ∧ kc1 = kc ∧ c1 = [get_executions_representation flow].
Proof. unfold fetch. destruct (kc_read flow kc); by intros [= <- <- <-]. Qed.

(** [update_authentication_execution] cannot be entered with five
    arguments. *)
Lemma py_call_4_5_returns {A} (body : M KC A) (kc : KC) a kc1 c1 :
  py_call 4 5 body kc = (Ok a, kc1, c1) → False.
Proof. by rewrite py_call_mismatch. Qed.
End returning_runs.

(** Inversion of a run that has returned, down to its elementary steps. *)
Ltac inv_run :=
  repeat match goal with
  | H : (_ ≫= _) _ = (Ok _, _, _) |- _ =>
      apply bind_returns in H as (? & ? & ? & ? & ? & H & ->); cbn beta in H
  | H : lift _ _ = (Ok _, _, _) |- _ => apply lift_returns in H as (? & -> & ->)
  | H : mret _ _ = (Ok _, _, _) |- _ => apply ret_returns in H as (? & -> & ->)
  | H : unless_check_mode true _ _ = (Ok _, _, _) |- _ =>
      apply ret_returns in H as (? & -> & ->)
  | H : unless_check_mode false _ _ = (Ok _, _, _) |- _ =>
      unfold unless_check_mode in H
  | H : py_call 4 5 _ _ = (Ok _, _, _) |- _ => by apply py_call_4_5_returns in H
  | H : invoke _ _ = (Ok _, _, _) |- _ => apply invoke_returns in H as (? & ->)
  | H : (if ?b then _ else _) _ = (Ok _, _, _) |- _ => destruct b eqn:?
  | H : (match ?x with _ => _ end) _ = (Ok _, _, _) |- _ => destruct x eqn:?
  | H : (let '(_, _) := ?x in _) _ = (Ok _, _, _) |- _ => destruct x
  end.

(** ** A pass that reports no change has done nothing *)

Section unchanged_runs.
Context `{KeycloakAPI KC} `{Imports}.

Lemma push_config_changed cm config new_exec existing_exec id r kc :
  untouched_or_changed r kc (push_config cm config new_exec existing_exec id r kc).
Proof.
  intros r' kc1 c1 Hrun. unfold push_config in Hrun.
  destruct cm; inv_run; simplify_eq/=; eauto.
Qed.

Lemma push_changes_changed cm config parent new_exec existing_exec r kc r' kc1 c1 :
  push_changes cm config parent new_exec existing_exec r kc = (Ok r', kc1, c1) →
  changed r' = true.
Proof.
  intros Hrun. unfold push_changes in Hrun. destruct cm; inv_run; by simplify_eq/=.
Qed.

Lemma push_priority_changed cm config new_exec id i j r kc r' kc1 c1 :
  push_priority cm config new_exec id i j r kc = (Ok r', kc1, c1) →
  changed r' = true.
Proof.
  intros Hrun. unfold push_priority in Hrun. destruct cm; inv_run; by simplify_eq/=.
Qed.

Lemma update_existing_changed cm config st parent new_exec_index new_exec exec_index kc :
  untouched_or_changed_st st kc
    (update_existing cm config st parent new_exec_index new_exec exec_index kc).
Proof.
  intros st' kc1 c1 Hrun. unfold update_existing in Hrun. inv_run; simplify_eq/=;
  repeat match goal with
  | H : push_changes _ _ _ _ _ _ _ = _ |- _ => apply push_changes_changed in H
  | H : push_priority _ _ _ _ _ _ _ _ = _ |- _ => apply push_priority_changed in H
  | H : push_config _ _ _ _ _ _ _ = _ |- _ =>
      apply push_config_changed in H as [(-> & -> & ->)|?]
  end; eauto.
Qed.

Lemma add_missing_changed cm config st parent new_exec_index new_exec kc :
  untouched_or_changed_st st kc
    (add_missing cm config st parent new_exec_index new_exec kc).
Proof.
  intros st' kc1 c1 Hrun. unfold add_missing in Hrun.
  inv_run; simplify_eq/=; eauto.
Qed.

Lemma process_execution_changed cm config st position new_exec kc :
  untouched_or_changed_st st kc (process_execution cm config st position new_exec kc).
Proof.
  intros st' kc1 c1 Hrun. unfold process_execution in Hrun. inv_run.
  - apply update_existing_changed in Hrun as [(? & -> & ->)|?]; eauto.
  - apply add_missing_changed in Hrun as [(? & -> & ->)|?]; eauto.
Qed.

Lemma process_executions_changed cm config st position new_execs kc :
  untouched_or_changed_st st kc (process_executions cm config st position new_execs kc).
Proof.
  revert st position kc.
  induction new_execs as [|new_exec rest IH]; intros st position kc st' kc1 c1 Hrun.
  - simpl in Hrun. inv_run. subst. eauto.
  - simpl in Hrun. inv_run.
    apply IH in Hrun as [(Hrep & -> & ->)|?]; [|by right].
    match goal with
    | Hstep : process_execution _ _ _ _ _ _ = _ |- _ =>
        apply process_execution_changed in Hstep as [(Hrep' & -> & ->)|Hch]
    end.
    + left. split; [congruence|done].
    + right. congruence.
Qed.

Lemma remove_extra_execution_changed cm config r existing_exec kc :
  untouched_or_changed r kc (remove_extra_execution cm config r existing_exec kc).
Proof.
  intros r' kc1 c1 Hrun. unfold remove_extra_execution in Hrun.
  inv_run; simplify_eq/=; eauto.
Qed.

Lemma remove_extra_executions_changed cm config r existing kc :
  untouched_or_changed r kc (remove_extra_executions cm config r existing kc).
Proof.
  revert r kc. induction existing as [|e rest IH]; intros r kc r' kc1 c1 Hrun.
  - simpl in Hrun. inv_run. subst. eauto.
  - simpl in Hrun. inv_run.
    apply IH in Hrun as [(-> & -> & ->)|?]; [|by right].
    match goal with
    | Hstep : remove_extra_execution _ _ _ _ _ = _ |- _ =>
        apply remove_extra_execution_changed in Hstep as [(-> & -> & ->)|Hch]
    end; eauto.
Qed.

(** A body of the [try] that returns [changed = False] returns the
    empty report, after one read at most. *)
Lemma reconcile_unchanged cm config kc r declared kc1 c1 :
  reconcile cm config kc = (Ok (r, declared), kc1, c1) →
  changed r = false →
  r = no_report ∧ kc1 = kc ∧ Forall (λ c, mutating c = false) c1.
Proof.
  intros Hrun Hr. unfold reconcile in Hrun.
  assert (∀ l,
    (existing ← fetch (alias config);
     st ← process_executions cm config (PassState no_report ∅ existing []) 0%Z l;
     r ← remove_extra_executions cm config (rep st) (existing_executions st);
     mret (r, visited st)) kc = (Ok (r, declared), kc1, c1) →
    r = no_report ∧ kc1 = kc ∧ Forall (λ c, mutating c = false) c1) as Hbody.
  { clear Hrun. intros l Hrun. inv_run. simplify_eq/=.
    match goal with
    | Hf : fetch _ _ = _ |- _ => apply fetch_returns in Hf as (_ & -> & ->)
    end.
    match goal with
    | Hx : remove_extra_executions _ _ _ _ _ = _ |- _ =>
        apply remove_extra_executions_changed in Hx as [(-> & -> & ->)|?];
          [|congruence]
    end.
    match goal with
    | Hp : process_executions _ _ _ _ _ _ = _ |- _ =>
        apply process_executions_changed in Hp as [(Hrep & -> & ->)|?];
          [|congruence]
    end.
    simpl in *. repeat split; auto. }
  destruct (authenticationExecutions config) as [| |l]; [|by eapply Hbody..].
  inv_run. simplify_eq. repeat split; auto.
Qed.
End unchanged_runs.

(** ** What an iteration leaves in [levels] and in the declared execution *)

Section level_facts.
Context `{KeycloakAPI KC} `{Imports}.

Lemma register_level_returns levels new_exec levels' new_exec' :
  register_level levels new_exec = Ok (levels', new_exec') →
  ∃ name lvl,
    get_identifier new_exec = Ok name
    ∧ match flowAlias new_exec with
      | Some parent => ∃ l, levels !! parent = Some l ∧ lvl = (l + 1)%Z
      | None => lvl = 0%Z
      end
    ∧ levels' = <[name := lvl]> levels
    ∧ new_exec' = set_level new_exec lvl.
Proof.
  unfold register_level. destruct (get_identifier new_exec) as [name|]; [|done].
  destruct (flowAlias new_exec) as [parent|].
  - destruct (levels !! parent) as [l|]; [|done].
    rewrite lookup_insert_eq. intros [= <- <-]. exists name, (l + 1)%Z.
    repeat split; eauto.
  - rewrite lookup_insert_eq. intros [= <- <-]. exists name, 0%Z.
    repeat split; eauto.
Qed.

Lemma update_existing_frame cm config st parent new_exec_index new_exec exec_index
    kc st1 kc1 c1 :
  update_existing cm config st parent new_exec_index new_exec exec_index kc
    = (Ok st1, kc1, c1) →
  levels st1 = levels st
  ∧ ∃ new_exec', visited st1 = visited st ++ [new_exec'] ∧ same_but_id new_exec' new_exec.
Proof.
  intros Hrun. unfold update_existing in Hrun. inv_run; simplify_eq/=;
    (split; [done|]); eexists; (split; [done|]); right; eauto.
Qed.

Lemma add_missing_frame cm config st parent new_exec_index new_exec kc st1 kc1 c1 :
  add_missing cm config st parent new_exec_index new_exec kc = (Ok st1, kc1, c1) →
  levels st1 = levels st
  ∧ ∃ new_exec', visited st1 = visited st ++ [new_exec'] ∧ same_but_id new_exec' new_exec.
Proof.
  intros Hrun. unfold add_missing in Hrun. inv_run; simplify_eq/=;
    try (unfold rename_subflow in *; inv_run; simplify_eq/=);
    try (unfold create_missing in *; inv_run; simplify_eq/=);
    (split; [done|]); eexists; (split; [done|]);
    first [ by left | right; eauto ].
Qed.

Lemma process_execution_returns cm config st position new_exec kc st1 kc1 c1 :
  process_execution cm config st position new_exec kc = (Ok st1, kc1, c1) →
  ∃ name lvl new_exec',
    register_level (levels st) new_exec
      = Ok (<[name := lvl]> (levels st), set_level new_exec lvl)
    ∧ get_identifier new_exec = Ok name
    ∧ levels st1 = <[name := lvl]> (levels st)
    ∧ visited st1 = visited st ++ [new_exec']
    ∧ same_but_id new_exec' (set_level new_exec lvl).
Proof.
  intros Hrun. unfold process_execution in Hrun. inv_run.
  - match goal with
    | Hreg : register_level _ _ = _ |- _ =>
        pose proof Hreg as Hreg';
        apply register_level_returns in Hreg' as (name & lvl & Hname & _ & -> & ->)
    end.
    apply update_existing_frame in Hrun as (Hlev & new_exec' & Hvis & Hsame).
    exists name, lvl, new_exec'. eauto.
  - match goal with
    | Hreg : register_level _ _ = _ |- _ =>
        pose proof Hreg as Hreg';
        apply register_level_returns in Hreg' as (name & lvl & Hname & _ & -> & ->)
    end.
    apply add_missing_frame in Hrun as (Hlev & new_exec' & Hvis & Hsame).
    exists name, lvl, new_exec'. eauto.
Qed.

Lemma process_executions_app cm config st position pre rest kc :
  process_executions cm config st position (pre ++ rest) kc
  = (st1 ← process_executions cm config st position pre;
     process_executions cm config st1 (position + Z.of_nat (length pre))%Z rest) kc.
Proof.
  revert st position kc. induction pre as [|n pre IH]; intros st position kc.
  - simpl. rewrite bind_ret. by rewrite Z.add_0_r.
  - simpl. rewrite bind_assoc. apply bind_ext. intros st0 kc0. rewrite IH.
    apply bind_ext. intros st1 kc1.
    by replace (position + 1 + Z.of_nat (length pre))%Z
      with (position + Z.of_nat (S (length pre)))%Z by lia.
Qed.

(** An identifier no visited execution bears is not in [levels]. *)
Lemma process_executions_unregistered cm config st position new_execs kc st1 kc1 c1 name :
  process_executions cm config st position new_execs kc = (Ok st1, kc1, c1) →
  levels st !! name = None →
  (∀ m, m ∈ new_execs → get_identifier m ≠ Ok name) →
  levels st1 !! name = None.
Proof.
  revert st position kc c1. induction new_execs as [|n rest IH];
    intros st position kc c1 Hrun Hnone Hfresh.
  - simpl in Hrun. inv_run. by subst.
  - simpl in Hrun. inv_run.
    match goal with
    | Hstep : process_execution _ _ _ _ _ _ = _ |- _ =>
        apply process_execution_returns in Hstep
          as (name' & lvl & new_exec' & _ & Hname & Hlev & _)
    end.
    eapply IH; [done| |].
    + rewrite Hlev. rewrite lookup_insert_ne; [done|].
      intros ->. by apply (Hfresh n); [left|].
    + intros m Hm. apply Hfresh. by right.
Qed.

(** An iteration on an execution whose level cannot be registered
    raises [KeyError] at once. *)
Lemma process_execution_unregistered cm config st position new_exec kc :
  register_level (levels st) new_exec = Raise KeyError →
  process_execution cm config st position new_exec kc = (Raise KeyError, kc, []).
Proof. intros Hreg. unfold process_execution. by rewrite Hreg. Qed.

Lemma process_executions_raise_at cm config st position pre new_exec post
    kc st1 kc1 c1 :
  process_executions cm config st position pre kc = (Ok st1, kc1, c1) →
  register_level (levels st1) new_exec = Raise KeyError →
  process_executions cm config st position (pre ++ new_exec :: post) kc
  = (Raise KeyError, kc1, c1).
Proof.
  intros Hpre Hreg. rewrite process_executions_app.
  rewrite (bind_ok _ _ _ _ _ _ Hpre). simpl.
  rewrite (bind_raise _ _ _ KeyError kc1 []).
  - by rewrite app_nil_r.
  - by apply process_execution_unregistered.
Qed.
End level_facts.

(** ** Levels *)

Section level_assignment.
Context `{KeycloakAPI KC} `{Imports}.

Lemma get_identifier_node_identifier new_exec name :
  get_identifier new_exec = Ok name → node_identifier new_exec = Some name.
Proof.
  unfold get_identifier, node_identifier.
  destruct (providerId new_exec); [by intros [= ->]|].
  destruct (displayName new_exec); [by intros [= ->]|done].
Qed.

Lemma same_but_id_level a b : same_but_id a b → level a = level b.
Proof. by intros [->|[v ->]]. Qed.

Lemma process_execution_level cm config st position new_exec kc st1 kc1 c1 :
  process_execution cm config st position new_exec kc = (Ok st1, kc1, c1) →
  ∃ name lvl new_exec',
    node_identifier new_exec = Some name
    ∧ node_level (levels st) new_exec = Some lvl
    ∧ levels st1 = <[name := lvl]> (levels st)
    ∧ visited st1 = visited st ++ [new_exec']
    ∧ level new_exec' = Some lvl.
Proof.
  intros Hrun.
  apply process_execution_returns in Hrun
    as (name & lvl & new_exec' & Hreg & Hname & Hlev & Hvis & Hsame).
  exists name, lvl, new_exec'.
  apply register_level_returns in Hreg as (name0 & lvl0 & _ & Hlvl & _ & Hset).
  assert (lvl0 = lvl) as -> by (by injection Hset).
  repeat split; auto.
  - by apply get_identifier_node_identifier.
  - unfold node_level. destruct (flowAlias new_exec) as [parent|].
    + destruct Hlvl as (l & -> & ->). done.
    + by subst.
  - by rewrite (same_but_id_level _ _ Hsame).
Qed.

Lemma process_executions_levels cm config st position new_execs kc st1 kc1 c1 :
  process_executions cm config st position new_execs kc = (Ok st1, kc1, c1) →
  ∃ lvls new_execs',
    level_assigner (levels st) new_execs = Some lvls
    ∧ visited st1 = visited st ++ new_execs'
    ∧ level <$> new_execs' = Some <$> lvls.
Proof.
  revert st position kc c1. induction new_execs as [|n rest IH];
    intros st position kc c1 Hrun.
  - simpl in Hrun. inv_run. subst. exists [], []. by rewrite app_nil_r.
  - simpl in Hrun. inv_run.
    match goal with
    | Hstep : process_execution _ _ _ _ _ _ = _ |- _ =>
        apply process_execution_level in Hstep
          as (name & lvl & n' & Hname & Hlvl & Hlev & Hvis & Hn')
    end.
    apply IH in Hrun as (lvls & rest' & Hassign & Hvis' & Hlevels).
    exists (lvl :: lvls), (n' :: rest'). cbn [level_assigner].
    rewrite Hname, Hlvl. rewrite Hlev in Hassign. rewrite Hassign.
    repeat split; [|by rewrite !fmap_cons, Hn', Hlevels].
    by rewrite Hvis', Hvis, <-app_assoc.
Qed.

(** C7.  When the pass over the declared executions returns, the
    levels it has written into them, in declared order, are those of the
    Level Assigner run from the empty mapping: 0 for an execution with no
    [flowAlias], the level recorded under the alias plus one otherwise. *)
Theorem levels_are_level_assigner cm config new_execs kc r declared kc1 c1 :
  authenticationExecutions config = ExecsList new_execs →
  create_or_update_executions cm config kc = (Returns r declared, kc1, c1) →
  ∃ lvls,
    level_assigner ∅ new_execs = Some lvls
    ∧ level <$> declared = Some <$> lvls.
Proof.
  intros Hdeclared Hrun. unfold create_or_update_executions in Hrun.
  destruct (reconcile cm config kc) as [[[[r0 d0]|e] kc0] c0] eqn:Hrec; [|done].
  injection Hrun as <- <- <- <-.
  unfold reconcile in Hrec. rewrite Hdeclared in Hrec. inv_run. simplify_eq/=.
  match goal with
  | Hp : process_executions _ _ _ _ _ _ = _ |- _ =>
      apply process_executions_levels in Hp as (lvls & l' & Hassign & Hvis & Hlevels)
  end.
  exists lvls. simpl in *. by rewrite Hvis.
Qed.
End level_assignment.

(** ** Executions the pass cannot place *)

Section failing_nodes.
Context `{KeycloakAPI KC} `{Imports}.

Lemma register_level_unresolved levels new_exec parent :
  flowAlias new_exec = Some parent →
  levels !! parent = None →
  register_level levels new_exec = Raise KeyError.
Proof.
  intros Hparent Hnone. unfold register_level, get_identifier.
  rewrite Hparent, Hnone.
  destruct (providerId new_exec); [done|]. by destruct (displayName new_exec).
Qed.

Lemma register_level_nameless levels new_exec :
  providerId new_exec = None →
  displayName new_exec = None →
  register_level levels new_exec = Raise KeyError.
Proof. intros Hp Hd. unfold register_level, get_identifier. by rewrite Hp, Hd. Qed.

(** The pass fails where the loop fails, after the read and the calls
    of the iterations before. *)
Lemma pass_fails_at cm config pre new_exec post kc existing st1 kc1 c1 :
  authenticationExecutions config = ExecsList (pre ++ new_exec :: post) →
  kc_read (alias config) kc = Some existing →
  process_executions cm config (PassState no_report ∅ existing []) 0%Z pre kc
    = (Ok st1, kc1, c1) →
  register_level (levels st1) new_exec = Raise KeyError →
  create_or_update_executions cm config kc
    = (fail_json KeyError, kc1, get_executions_representation (alias config) :: c1).
Proof.
  intros Hdeclared Hread Hpre Hreg.
  unfold create_or_update_executions, reconcile. rewrite Hdeclared.
  assert (fetch (alias config) kc
          = (Ok existing, kc, [get_executions_representation (alias config)])) as Hfetch.
  { unfold fetch. by rewrite Hread. }
  rewrite (bind_ok _ _ _ _ _ _ Hfetch). cbn [declared_executions].
  rewrite (bind_raise _ _ _ KeyError kc1 c1); [done|].
  by eapply process_executions_raise_at.
Qed.

(** C3 (as amended).  When the declared list holds an execution whose
    [flowAlias] is the identifier (provider id, else display name) of no
    execution before it, and the iterations over the executions before it
    return, the pass ends in [fail_json] on the [KeyError] of the lookup
    in [levels]; the calls issued are the read and those of the
    iterations before, none for this execution, for any after it or for
    the removal of extra executions. *)
Theorem unresolved_parent_fails_at_its_node cm config pre new_exec post parent
    kc existing st1 kc1 c1 :
  authenticationExecutions config = ExecsList (pre ++ new_exec :: post) →
  flowAlias new_exec = Some parent →
  (∀ m, m ∈ pre → get_identifier m ≠ Ok parent) →
  kc_read (alias config) kc = Some existing →
  process_executions cm config (PassState no_report ∅ existing []) 0%Z pre kc
    = (Ok st1, kc1, c1) →
  create_or_update_executions cm config kc
    = (fail_json KeyError, kc1, get_executions_representation (alias config) :: c1).
Proof.
  intros Hdeclared Hparent Hfresh Hread Hpre.
  eapply pass_fails_at; [done..|].
  apply (register_level_unresolved _ _ parent); [done|].
  by eapply process_executions_unregistered.
Qed.

(** C10 (as amended).  When the declared list holds an execution with
    neither provider id nor display name, and the iterations over the
    executions before it return, the pass ends in [fail_json] on the
    exception [get_identifier] raises for it: it is not skipped.  The
    calls issued are the read and those of the iterations before; no
    call is made for this execution and no report is returned. *)
Theorem nameless_execution_fails_the_pass cm config pre new_exec post
    kc existing st1 kc1 c1 :
  authenticationExecutions config = ExecsList (pre ++ new_exec :: post) →
  providerId new_exec = None →
  displayName new_exec = None →
  kc_read (alias config) kc = Some existing →
  process_executions cm config (PassState no_report ∅ existing []) 0%Z pre kc
    = (Ok st1, kc1, c1) →
  create_or_update_executions cm config kc
    = (fail_json KeyError, kc1, get_executions_representation (alias config) :: c1).
Proof.
  intros Hdeclared Hp Hd Hread Hpre.
  eapply pass_fails_at; [done..|]. by apply register_level_nameless.
Qed.
End failing_nodes.

(** ** Check mode computes what a returning pass computes *)

Section check_mode_agrees.
Context `{KeycloakAPI KC} `{Imports}.

Local Abbreviation follows := (follows (KC:=KC)).

Lemma follows_ret {A} (a : A) : follows (mret a) (mret a).
Proof. intros kc kc' a' kc1 c1 Hrun. inv_run. by subst. Qed.

Lemma follows_lift {A} (r : result A) : follows (lift r) (lift r).
Proof. intros kc kc' a' kc1 c1 Hrun. inv_run. by subst. Qed.

Lemma follows_unit (m : M KC unit) : follows m (mret tt).
Proof. intros kc kc' [] kc1 c1 _. done. Qed.

Lemma follows_bind {A B} (m m' : M KC A) (f f' : A → M KC B) :
  follows m m' → (∀ a, follows (f a) (f' a)) → follows (m ≫= f) (m' ≫= f').
Proof.
  intros Hm Hf kc kc' b kc2 c Hrun.
  apply bind_returns in Hrun as (a & kc1 & c1 & c2 & Hfirst & Hrest & ->).
  apply (Hm _ kc') in Hfirst. apply (Hf _ _ kc') in Hrest.
  by rewrite (bind_ok _ _ _ _ _ _ Hfirst), Hrest.
Qed.

Lemma follows_never {A} (m m' : M KC A) :
  (∀ kc a kc1 c1, m kc ≠ (Ok a, kc1, c1)) → follows m m'.
Proof. intros Hnever kc kc' a kc1 c1 Hrun. by apply Hnever in Hrun. Qed.

Ltac follows_step :=
  match goal with
  | |- follows (mret _) (mret _) => apply follows_ret
  | |- follows (lift _) (lift _) => apply follows_lift
  | |- follows (unless_check_mode false _) (unless_check_mode true _) =>
      apply follows_unit
  | |- follows (_ ≫= _) (_ ≫= _) => apply follows_bind; [|intros ?]
  | |- follows (if ?b then _ else _) (if ?b then _ else _) => destruct b
  | |- follows (match ?x with _ => _ end) (match ?x with _ => _ end) => destruct x
  end.

Lemma follows_push_config config new_exec existing_exec id r :
  follows (push_config false config new_exec existing_exec id r)
          (push_config true config new_exec existing_exec id r).
Proof. unfold push_config. repeat follows_step. Qed.

Lemma follows_push_changes config parent new_exec existing_exec r :
  follows (push_changes false config parent new_exec existing_exec r)
          (push_changes true config parent new_exec existing_exec r).
Proof. unfold push_changes. repeat follows_step. Qed.

Lemma follows_push_priority config new_exec id i j r :
  follows (push_priority false config new_exec id i j r)
          (push_priority true config new_exec id i j r).
Proof. unfold push_priority. repeat follows_step. Qed.

Lemma follows_update_existing config st parent new_exec_index new_exec exec_index :
  follows (update_existing false config st parent new_exec_index new_exec exec_index)
          (update_existing true config st parent new_exec_index new_exec exec_index).
Proof.
  unfold update_existing.
  repeat first
    [ apply follows_push_config | apply follows_push_changes
    | apply follows_push_priority | follows_step ].
Qed.

Lemma follows_rename_subflow config st parent new_exec_index new_exec :
  follows (rename_subflow false config st parent new_exec_index new_exec)
          (rename_subflow true config st parent new_exec_index new_exec).
Proof. unfold rename_subflow. repeat follows_step. Qed.

(** Outside check mode the creation of a missing execution never
    returns: it ends in the call of [update_authentication_execution]
    on five arguments. *)
Lemma create_missing_never_returns config parent new_exec isFlow kc a kc1 c1 :
  create_missing config parent new_exec isFlow kc ≠ (Ok a, kc1, c1).
Proof. intros Hrun. unfold create_missing in Hrun. inv_run. Qed.

Lemma follows_add_missing config st parent new_exec_index new_exec :
  follows (add_missing false config st parent new_exec_index new_exec)
          (add_missing true config st parent new_exec_index new_exec).
Proof.
  unfold add_missing.
  repeat first [ apply follows_rename_subflow | follows_step ].
  apply follows_never. intros kc a kc1 c1 Hrun. inv_run.
  by eapply create_missing_never_returns.
Qed.

Lemma follows_process_execution config st position new_exec :
  follows (process_execution false config st position new_exec)
          (process_execution true config st position new_exec).
Proof.
  unfold process_execution.
  repeat first
    [ apply follows_update_existing | apply follows_add_missing | follows_step ].
Qed.

Lemma follows_process_executions config st position new_execs :
  follows (process_executions false config st position new_execs)
          (process_executions true config st position new_execs).
Proof.
  revert st position. induction new_execs as [|n rest IH]; intros st position.
  - apply follows_ret.
  - simpl. apply follows_bind; [apply follows_process_execution|intros st'; apply IH].
Qed.

Lemma follows_remove_extra_execution config r existing_exec :
  follows (remove_extra_execution false config r existing_exec)
          (remove_extra_execution true config r existing_exec).
Proof.
  unfold remove_extra_execution.
  repeat first [ apply follows_unit | follows_step ].
Qed.

Lemma follows_remove_extra_executions config r existing :
  follows (remove_extra_executions false config r existing)
          (remove_extra_executions true config r existing).
Proof.
  revert r. induction existing as [|e rest IH]; intros r.
  - apply follows_ret.
  - simpl. apply follows_bind; [apply follows_remove_extra_execution|intros r'; apply IH].
Qed.

Lemma reconcile_follows config kc a kc1 c1 :
  reconcile false config kc = (Ok a, kc1, c1) →
  ∃ calls, reconcile true config kc = (Ok a, kc, calls).
Proof.
  unfold reconcile. intros Hrun.
  assert (∀ l,
    (existing ← fetch (alias config);
     st ← process_executions false config (PassState no_report ∅ existing []) 0%Z l;
     r ← remove_extra_executions false config (rep st) (existing_executions st);
     mret (r, visited st)) kc = (Ok a, kc1, c1) →
    ∃ calls,
    (existing ← fetch (alias config);
     st ← process_executions true config (PassState no_report ∅ existing []) 0%Z l;
     r ← remove_extra_executions true config (rep st) (existing_executions st);
     mret (r, visited st)) kc = (Ok a, kc, calls)) as Hbody.
  { clear Hrun. intros l Hrun.
    apply bind_returns in Hrun as (existing & kc0 & c0 & c2 & Hfetch & Hrest & ->).
    pose proof Hfetch as Hfetch'. apply fetch_returns in Hfetch' as (_ & -> & _).
    eapply (follows_bind _ _ _ _) in Hrest.
    - rewrite (bind_ok _ _ _ _ _ _ Hfetch), Hrest. eauto.
    - apply follows_process_executions.
    - intros st. cbn beta.
      apply follows_bind; [apply follows_remove_extra_executions|].
      intros r. apply follows_ret. }
  destruct (authenticationExecutions config) as [| |l]; [|by eapply Hbody..].
  inv_run. subst. by exists [].
Qed.

End check_mode_agrees.

(** ** Check mode reports what the classification finds *)

Section classification.
Context `{KeycloakAPI KC} `{Imports}.

Lemma apply_findings_app config r fs fs' :
  apply_findings config r (fs ++ fs')
  = apply_findings config (apply_findings config r fs) fs'.
Proof. apply fold_left_app. Qed.

Lemma register_level_classified levels node :
  register_level levels node
  = match node_identifier node, node_level levels node with
    | Some name, Some lvl => Ok (<[name := lvl]> levels, set_level node lvl)
    | _, _ => Raise KeyError
    end.
Proof.
  unfold register_level, node_identifier, node_level, get_identifier.
  destruct (providerId node) as [p|]; [|destruct (displayName node) as [d|]; [|done]];
    (destruct (flowAlias node) as [parent|];
     [destruct (levels !! parent) as [l|]; [|done]|]); simpl;
    by rewrite lookup_insert_eq.
Qed.

Lemma get_identifier_classified node name :
  node_identifier node = Some name → get_identifier node = Ok name.
Proof.
  unfold node_identifier, get_identifier.
  destruct (providerId node); [by intros [= ->]|].
  destruct (displayName node); [by intros [= ->]|done].
Qed.

Lemma remove_extra_executions_classified config r existing_executions (kc : KC) :
  match classify_extras existing_executions with
  | Some fs =>
      remove_extra_executions true config r existing_executions kc
      = (Ok (apply_findings config r fs), kc, [])
  | None =>
      ∃ e, remove_extra_executions true config r existing_executions kc = (Raise e, kc, [])
  end.
Proof.
  revert r. induction existing_executions as [|e rest IH]; intros r; [done|].
  simpl. unfold remove_extra_execution. case_bool_decide as He.
  - unfold py_getitem.
    destruct (e !! "displayName") as [name|]; simpl;
      [rewrite bind_assoc, bind_lift_ok|eexists; by rewrite bind_assoc, bind_lift_raise].
    destruct (e !! "level") as [lvl|]; simpl;
      [rewrite bind_assoc, bind_lift_ok|eexists; by rewrite bind_assoc, bind_lift_raise].
    rewrite bind_assoc, bind_ret, bind_ret.
    specialize (IH (Report true (before r +:+ py_str (VDict e) +:+ newline) (after r)
                      (err_msg r ++ [extra_line (alias config) name lvl]))).
    destruct (classify_extras rest) as [fs|]; simpl; [exact IH|exact IH].
  - rewrite bind_ret. apply IH.
Qed.


Ltac reduce_step :=
  cbn -[error_line missing_line extra_line py_str to_dict exclude_keys clear_at
        String.append is_struct_included config_differs set_id set_level
        subflow_at_index py_list_getitem find_exec_in_executions get_identifier].

Ltac close_case := reduce_step; first [reflexivity | eexists; reflexivity].

Lemma update_existing_classified config st parent new_exec_index new_exec exec_index
    (kc : KC) name existing_exec :
  get_identifier new_exec = Ok name →
  py_list_getitem (existing_executions st) exec_index = Ok existing_exec →
  match classify_matched name new_exec existing_exec exec_index new_exec_index with
  | Some (matched, fs) =>
      update_existing true config st parent new_exec_index new_exec exec_index kc
      = (Ok (PassState (apply_findings config (rep st) fs) (levels st)
               (clear_at (existing_executions st) exec_index)
               (visited st ++ [matched])), kc, [])
  | None =>
      ∃ e, update_existing true config st parent new_exec_index new_exec exec_index kc
           = (Raise e, kc, [])
  end.
Proof.
  intros Hname Hentry.
  unfold update_existing, classify_matched. rewrite Hentry, bind_lift_ok.
  unfold push_config, config_findings, position_findings, attribute_findings,
    push_changes, push_priority, unless_check_mode, py_getitem.
  destruct (existing_exec !! "id") as [id|]; reduce_step; [|close_case].
  rewrite bind_lift_ok. cbv zeta.
  assert (get_identifier (set_id new_exec id) = Ok name) as Hname' by exact Hname.
  assert (authenticationConfig (set_id new_exec id) = authenticationConfig new_exec)
    as Hcfg' by reflexivity.
  rewrite !Hname', !Hcfg'.
  destruct (authenticationConfig new_exec) as [new_config|] eqn:Hcfg; reduce_step;
    [destruct (config_differs new_config existing_exec) as [[|]|x]; reduce_step;
     [| |close_case]|];
    try (destruct (existing_exec !! "authenticationConfig") as [actual|]; reduce_step;
         [|close_case]);
    (destruct (is_struct_included _ _ _); reduce_step);
    (destruct (bool_decide (exec_index ≠ new_exec_index)); reduce_step);
    try (destruct (existing_exec !! "requirement") as [req|]; reduce_step; [|close_case]);
    unfold apply_finding, finding_line; cbn [authenticationConfig set_id];
    rewrite ?Hcfg; reflexivity.
Qed.

Lemma add_missing_classified config st parent new_exec_index new_exec (kc : KC) name :
  get_identifier new_exec = Ok name →
  match classify_unmatched name new_exec new_exec_index (existing_executions st) with
  | Some (new_exec', existing_executions', fs) =>
      add_missing true config st parent new_exec_index new_exec kc
      = (Ok (PassState (apply_findings config (rep st) fs) (levels st)
               existing_executions' (visited st ++ [new_exec'])), kc, [])
  | None =>
      ∃ e, add_missing true config st parent new_exec_index new_exec kc
           = (Raise e, kc, [])
  end.
Proof.
  intros Hname. unfold add_missing, classify_unmatched.
  rewrite (bool_decide_eq_true_2
             (is_Some (providerId new_exec) ∨ is_Some (displayName new_exec))).
  2:{ unfold get_identifier in Hname.
      destruct (providerId new_exec); [left; by eexists|].
      destruct (displayName new_exec); [right; by eexists|done]. }
  cbv zeta.
  destruct (subflow_at_index _ new_exec_index (existing_executions st)) as [[|]|x];
    rewrite ?bind_lift_ok; [| |close_case].
  - unfold rename_subflow, unless_check_mode, py_getitem.
    destruct (py_list_getitem (existing_executions st) new_exec_index)
      as [occupant|x]; [|close_case].
    rewrite bind_assoc, bind_lift_ok.
    destruct (occupant !! "id") as [id|]; reduce_step; [|close_case].
    rewrite bind_assoc, bind_lift_ok. cbv zeta.
    assert (get_identifier (set_id new_exec id) = Ok name) as Hname' by exact Hname.
    rewrite !Hname'.
    destruct (occupant !! "displayName") as [actual|]; reduce_step; [|close_case].
    rewrite bind_assoc, bind_ret, bind_assoc, bind_lift_ok, bind_assoc, bind_lift_ok,
      bind_ret.
    cbn beta iota. rewrite Hname', bind_lift_ok. reflexivity.
  - rewrite bind_ret, Hname. reflexivity.
Qed.

Lemma process_execution_classified config st position node (kc : KC) :
  match classify_node (levels st) (existing_executions st) position node with
  | Some (levels', existing_executions', new_exec, fs) =>
      process_execution true config st position node kc
      = (Ok (PassState (apply_findings config (rep st) fs) levels'
               existing_executions' (visited st ++ [new_exec])), kc, [])
  | None => ∃ e, process_execution true config st position node kc = (Raise e, kc, [])
  end.
Proof.
  unfold process_execution, classify_node. rewrite register_level_classified.
  destruct (node_identifier node) as [name|] eqn:Hname; reduce_step; [|close_case].
  destruct (node_level (levels st) node) as [lvl|]; reduce_step; [|close_case].
  rewrite bind_lift_ok. cbn [existing_executions rep levels visited].
  assert (get_identifier (set_level node lvl) = Ok name) as Hname'
    by (by apply get_identifier_classified).
  destruct (find_exec_in_executions (to_dict (set_level node lvl))
              (existing_executions st)) as [exec_index|x]; reduce_step; [|close_case].
  rewrite bind_lift_ok. destruct (bool_decide (exec_index ≠ (-1)%Z)).
  - destruct (py_list_getitem (existing_executions st) exec_index)
      as [existing_exec|x] eqn:Hentry.
    + pose proof (update_existing_classified config
                    (PassState (rep st) (<[name := lvl]> (levels st))
                       (existing_executions st) (visited st))
                    (default (alias config) (flowAlias (set_level node lvl)))
                    (default position (index node)) (set_level node lvl) exec_index kc
                    name existing_exec Hname' Hentry) as Hstep.
      destruct (classify_matched name (set_level node lvl) existing_exec exec_index
                  (default position (index node))) as [[matched fs]|]; reduce_step; exact Hstep.
    + unfold update_existing. cbn [existing_executions]. rewrite Hentry. close_case.
  - pose proof (add_missing_classified config
                  (PassState (rep st) (<[name := lvl]> (levels st))
                     (existing_executions st) (visited st))
                  (default (alias config) (flowAlias (set_level node lvl)))
                  (default position (index node)) (set_level node lvl) kc
                  name Hname') as Hstep.
    cbn [existing_executions] in Hstep.
    destruct (classify_unmatched name (set_level node lvl)
                (default position (index node)) (existing_executions st))
      as [[[new_exec' existing'] fs]|]; reduce_step; exact Hstep.
Qed.

Lemma process_executions_classified config nodes : ∀ st position (kc : KC),
  match classify_nodes (levels st) (existing_executions st) position nodes with
  | Some (levels', existing_executions', new_execs, fs) =>
      process_executions true config st position nodes kc
      = (Ok (PassState (apply_findings config (rep st) fs) levels'
               existing_executions' (visited st ++ new_execs)), kc, [])
  | None => ∃ e, process_executions true config st position nodes kc = (Raise e, kc, [])
  end.
Proof.
  induction nodes as [|node rest IH]; intros st position kc.
  - simpl. rewrite app_nil_r. by destruct st.
  - cbn [classify_nodes process_executions].
    pose proof (process_execution_classified config st position node kc) as Hstep.
    destruct (classify_node (levels st) (existing_executions st) position node)
      as [[[[levels1 existing1] new_exec] fs]|]; reduce_step.
    2:{ destruct Hstep as [e Hstep]. exists e. by rewrite (bind_raise _ _ _ _ _ _ Hstep). }
    rewrite (bind_ok _ _ _ _ _ _ Hstep).
    specialize (IH (PassState (apply_findings config (rep st) fs) levels1 existing1
                      (visited st ++ [new_exec])) (position + 1)%Z kc).
    cbn [levels existing_executions rep visited] in IH.
    destruct (classify_nodes levels1 existing1 (position + 1)%Z rest)
      as [[[[levels2 existing2] new_execs] fs']|]; reduce_step.
    + rewrite IH. rewrite apply_findings_app, <- app_assoc. reflexivity.
    + destruct IH as [e IH]. exists e. by rewrite IH.
Qed.

Lemma reconcile_classified config (kc : KC) existing :
  authenticationExecutions config ≠ ExecsMissing →
  kc_read (alias config) kc = Some existing →
  match classify_flow config existing with
  | Some (fs, declared) =>
      reconcile true config kc
      = (Ok (report_of config fs, declared), kc,
         [get_executions_representation (alias config)])
  | None =>
      ∃ e, reconcile true config kc
           = (Raise e, kc, [get_executions_representation (alias config)])
  end.
Proof.
  intros Hdecl Hread. unfold reconcile, classify_flow.
  assert (∀ l,
    match
      '(_, existing_executions, new_execs, fs) ← classify_nodes ∅ existing 0%Z l;
      extras ← classify_extras existing_executions;
      Some (fs ++ extras, new_execs)
    with
    | Some (fs, declared) =>
        (existing ← fetch (alias config);
         st ← process_executions true config (PassState no_report ∅ existing []) 0%Z l;
         r ← remove_extra_executions true config (rep st) (existing_executions st);
         mret (r, visited st)) kc
        = (Ok (report_of config fs, declared), kc,
           [get_executions_representation (alias config)])
    | None =>
        ∃ e,
          (existing ← fetch (alias config);
           st ← process_executions true config (PassState no_report ∅ existing []) 0%Z l;
           r ← remove_extra_executions true config (rep st) (existing_executions st);
           mret (r, visited st)) kc
          = (Raise e, kc, [get_executions_representation (alias config)])
    end) as Hbody.
  { intros l.
    assert (fetch (alias config) kc
            = (Ok existing, kc, [get_executions_representation (alias config)]))
      as Hfetch by (unfold fetch; by rewrite Hread).
    pose proof (process_executions_classified config l
                  (PassState no_report ∅ existing []) 0%Z kc) as Hloop.
    cbn [levels existing_executions rep visited] in Hloop.
    destruct (classify_nodes ∅ existing 0%Z l)
      as [[[[levels1 existing1] new_execs] fs]|]; reduce_step.
    2:{ destruct Hloop as [e Hloop]. exists e.
        rewrite (bind_ok _ _ _ _ _ _ Hfetch).
        by rewrite (bind_raise _ _ _ _ _ _ Hloop). }
    pose proof (remove_extra_executions_classified config
                  (apply_findings config no_report fs) existing1 kc) as Hextras.
    destruct (classify_extras existing1) as [extras|]; reduce_step.
    - rewrite (bind_ok _ _ _ _ _ _ Hfetch), (bind_ok _ _ _ _ _ _ Hloop).
      cbn [existing_executions rep visited].
      rewrite (bind_ok _ _ _ _ _ _ Hextras). unfold report_of.
      by rewrite apply_findings_app.
    - destruct Hextras as [e Hextras]. exists e.
      rewrite (bind_ok _ _ _ _ _ _ Hfetch), (bind_ok _ _ _ _ _ _ Hloop).
      cbn [existing_executions rep visited].
      by rewrite (bind_raise _ _ _ _ _ _ Hextras). }
  destruct (authenticationExecutions config) as [| |l]; [done| |]; apply Hbody.
Qed.

End classification.

(** ** Removal of the extra executions *)

Section extra_executions.
Context `{KeycloakAPI KC} `{Imports}.

Lemma orphans_cons_cleared existing : orphans (∅ :: existing) = orphans existing.
Proof. unfold orphans. by rewrite filter_cons_False by (by intros ?). Qed.

Lemma orphans_cons_left e existing :
  e ≠ ∅ → orphans (e :: existing) = e :: orphans existing.
Proof. intros He. unfold orphans. by rewrite filter_cons_True. Qed.

Lemma remove_extra_execution_cleared cm config r kc :
  remove_extra_execution cm config r ∅ kc = (Ok r, kc, []).
Proof. unfold remove_extra_execution. by rewrite bool_decide_eq_false_2 by (by intros ?). Qed.

Lemma remove_extra_execution_left cm config r e kc :
  e ≠ ∅ → removable e → removals_succeed →
  ∃ kc',
    remove_extra_execution cm config r e kc
    = (Ok (Report true (before r +:+ py_str (VDict e) +:+ newline) (after r)
             (err_msg r ++ [orphan_line config e])),
       kc', if cm then [] else [orphan_call e]).
Proof.
  intros He ([name Hname] & [lvl Hlvl] & [id Hid]) Hdel.
  assert (py_getitem e "displayName" = Ok name) as Hn
    by (unfold py_getitem; by rewrite Hname).
  assert (py_getitem e "level" = Ok lvl) as Hl
    by (unfold py_getitem; by rewrite Hlvl).
  assert (py_getitem e "id" = Ok id) as Hi
    by (unfold py_getitem; by rewrite Hid).
  unfold remove_extra_execution, orphan_line, orphan_call.
  rewrite bool_decide_eq_true_2 by done. rewrite Hn, Hl, Hi, Hname, Hlvl, Hid.
  rewrite !bind_lift_ok. simpl. destruct cm.
  - exists kc. by rewrite !bind_ret.
  - destruct (Hdel id kc) as [kc' Hkc']. exists kc'.
    unfold mbind, M_bind, invoke, lift. by rewrite Hkc'.
Qed.

Lemma remove_extra_executions_removes cm config r existing kc :
  Forall (λ e, e ≠ ∅ → removable e) existing →
  removals_succeed →
  ∃ r' kc',
    remove_extra_executions cm config r existing kc
    = (Ok r', kc', if cm then [] else orphan_call <$> orphans existing)
    ∧ changed r' = changed r || bool_decide (orphans existing ≠ [])
    ∧ err_msg r' = err_msg r ++ (orphan_line config <$> orphans existing)
    ∧ after r' = after r.
Proof.
  intros Hall Hdel. revert r kc.
  induction Hall as [|e rest He Hrest IH]; intros r kc.
  - exists r, kc. simpl. rewrite app_nil_r, orb_false_r. by destruct cm.
  - simpl. destruct (decide (e = ∅)) as [->|Hne].
    + rewrite (bind_ok _ _ _ _ _ _ (remove_extra_execution_cleared cm config r kc)).
      rewrite orphans_cons_cleared.
      destruct (IH r kc) as (r' & kc' & -> & ? & ? & ?). by exists r', kc'.
    + destruct (remove_extra_execution_left cm config r e kc Hne (He Hne) Hdel)
        as (kc0 & Hstep).
      rewrite (bind_ok _ _ _ _ _ _ Hstep). rewrite orphans_cons_left by done.
      destruct (IH (Report true (before r +:+ py_str (VDict e) +:+ newline) (after r)
                      (err_msg r ++ [orphan_line config e])) kc0)
        as (r' & kc' & -> & Hch & Hmsg & Haft).
      exists r', kc'. simpl in *. repeat split.
      * by destruct cm.
      * rewrite Hch. by rewrite orb_true_r.
      * by rewrite Hmsg, <-app_assoc.
      * done.
Qed.

(** C8.  Once the loop over the declared executions has returned, every
    entry of the working copy it has not cleared (none was matched or
    renamed onto it) is an extra execution: provided each carries its
    display name, level and id and the remote side carries out the
    removals, the pass returns; outside check mode it has called
    [delete_authentication_execution] on the id of each, in order, after
    the calls of the loop; [changed] is set as soon as there is one; and
    a line naming the execution and its depth level is appended to the
    report for each. *)
Theorem extra_executions_are_removed cm config kc existing st kc1 c1 :
  authenticationExecutions config ≠ ExecsMissing →
  kc_read (alias config) kc = Some existing →
  process_executions cm config (PassState no_report ∅ existing []) 0%Z
    (declared_executions (authenticationExecutions config)) kc = (Ok st, kc1, c1) →
  Forall (λ e, e ≠ ∅ → removable e) (existing_executions st) →
  removals_succeed →
  ∃ r kc2,
    create_or_update_executions cm config kc
    = (Returns r (visited st), kc2,
       get_executions_representation (alias config)
         :: c1 ++ (if cm then [] else orphan_call <$> orphans (existing_executions st)))
    ∧ changed r = changed (rep st) || bool_decide (orphans (existing_executions st) ≠ [])
    ∧ err_msg r = err_msg (rep st)
                  ++ (orphan_line config <$> orphans (existing_executions st)).
Proof.
  intros Hdeclared Hread Hloop Hall Hdel.
  destruct (remove_extra_executions_removes cm config (rep st)
              (existing_executions st) kc1 Hall Hdel)
    as (r & kc2 & Hextra & Hch & Hmsg & _).
  exists r, kc2. split; [|done].
  unfold create_or_update_executions, reconcile.
  assert (fetch (alias config) kc
          = (Ok existing, kc, [get_executions_representation (alias config)])) as Hfetch.
  { unfold fetch. by rewrite Hread. }
  destruct (authenticationExecutions config) as [| |l] eqn:Hp; [done|..];
    rewrite (bind_ok _ _ _ _ _ _ Hfetch), (bind_ok _ _ _ _ _ _ Hloop),
      (bind_ok _ _ _ _ _ _ Hextra); simpl; by rewrite app_nil_r.
Qed.
End extra_executions.

(** ** Detection of a changed configuration *)

Lemma mappings_differ_neq (mapping mapping' : gmap string string) :
  mappings_differ mapping mapping' ↔ mapping ≠ mapping'.
Proof.
  split.
  - intros [(key & v & Hk & Hk')|(key & Hk & [v Hk'])] ->; congruence.
  - intros Hne.
    destruct (decide (map_Forall (λ key v, mapping' !! key = Some v) mapping)) as [Hsub|Hsub].
    + destruct (decide (map_Forall (λ key v, mapping !! key = Some v) mapping')) as [Hsup|Hsup].
      * destruct Hne. apply map_eq. intros key.
        destruct (mapping !! key) as [v|] eqn:Hk.
        -- symmetry. by apply Hsub.
        -- destruct (mapping' !! key) as [v|] eqn:Hk'; [|done].
           apply Hsup in Hk'. congruence.
      * apply map_not_Forall in Hsup as (key & v & Hk' & Hk); [|apply _].
        destruct (mapping !! key) as [w|] eqn:Hw.
        -- left. exists key, w. split; [done|]. congruence.
        -- right. exists key. split; [done|]. by exists v.
    + apply map_not_Forall in Hsub as (key & v & Hk & Hk'); [|apply _].
      left. by exists key, v.
Qed.

Lemma py_eqb_str a b : py_eqb (VStr a) (VStr b) = bool_decide (a = b).
Proof. unfold py_eqb. simpl. apply bool_decide_ext. split; congruence. Qed.

Lemma py_eqb_mapping (m m' : gmap string string) :
  py_eqb (VDict (VStr <$> m)) (VDict (VStr <$> m')) = bool_decide (m = m').
Proof.
  unfold py_eqb. simpl. apply bool_decide_ext.
  rewrite <- !map_fmap_compose. split.
  - intros [= Heq]. apply map_eq. intros key.
    apply (f_equal (.!! key)) in Heq. rewrite !lookup_fmap in Heq.
    destruct (m !! key), (m' !! key); simpl in Heq; congruence.
  - by intros ->.
Qed.

Section config_detection.
Context `{KeycloakAPI KC} `{Imports}.

Lemma is_none_false v : is_none v = false ↔ v ≠ VNone.
Proof. by destruct v. Qed.

Lemma config_differs_from_spec new_config existing_exec items acc :
  comparable new_config existing_exec →
  (∀ key v, (key, v) ∈ items → new_config !! key = Some v) →
  ∃ b, config_differs_from existing_exec items acc = Ok b
    ∧ (b = true ↔ acc = true ∨
         ∃ existing_config key v w,
           existing_exec !! "authenticationConfig" = Some (VDict existing_config)
           ∧ (key, v) ∈ items ∧ v ≠ VNone
           ∧ existing_config !! key = Some w ∧ py_eqb v w = false).
Proof.
  intros Hcmp. revert acc. induction items as [|[key v] rest IH]; intros acc Hitems.
  - exists acc. split; [done|]. split; [by left|].
    intros [?|(? & ? & ? & ? & _ & Hin & _)]; [done|]. by apply elem_of_nil in Hin.
  - simpl.
    assert (∃ b0, config_key_differs existing_exec key v = Ok b0
              ∧ (b0 = true ↔ ∃ existing_config w,
                   existing_exec !! "authenticationConfig" = Some (VDict existing_config)
                   ∧ v ≠ VNone ∧ existing_config !! key = Some w
                   ∧ py_eqb v w = false)) as (b0 & -> & Hb0).
    { unfold config_key_differs. destruct (is_none v) eqn:Hv.
      - exists false. split; [done|]. split; [done|].
        intros (? & ? & _ & Hne & _). by destruct v.
      - apply is_none_false in Hv.
        destruct (existing_exec !! "authenticationConfig") as [x|] eqn:Hx.
        + destruct (Hcmp x Hx) as (existing_config & -> & Hkeys).
          destruct (Hkeys key v) as [w Hw]; [apply Hitems; by left|done|].
          rewrite Hw. exists (negb (py_eqb v w)). split; [done|]. split.
          * intros Hneg. exists existing_config, w.
            repeat split; auto. by apply negb_true_iff.
          * intros (ec & w' & [= <-] & _ & Hw' & Heq).
            rewrite Hw in Hw'. injection Hw' as <-. by rewrite Heq.
        + exists false. split; [done|]. split; [done|]. by intros (? & ? & ? & _). }
    destruct (IH (acc || b0)) as (b & -> & Hb).
    { intros k' v' Hin. apply Hitems. by right. }
    exists b. split; [done|]. rewrite Hb. split.
    + intros [Hacc|(ec & k' & v' & w & ? & Hin & ?)].
      * apply orb_true_iff in Hacc as [?|Hb0t]; [by left|].
        apply Hb0 in Hb0t as (ec & w & ? & ? & ? & ?).
        right. exists ec, key, v, w. repeat split; auto. by left.
      * right. exists ec, k', v', w. repeat split; try tauto. by right.
    + intros [Hacc|(ec & k' & v' & w & Hec & Hin & Hne & Hw & Heq)].
      * left. by rewrite Hacc.
      * apply elem_of_cons in Hin as [[= -> ->]|Hin].
        -- left. apply orb_true_iff. right. apply Hb0. by exists ec, w.
        -- right. exists ec, k', v', w. by repeat split.
Qed.

Lemma differing_key_named a mapping existing_exec existing_config a' mapping' :
  existing_exec !! "authenticationConfig" = Some (VDict existing_config) →
  existing_config !! "alias" = Some (VStr a') →
  existing_config !! "config" = Some (VDict (VStr <$> mapping')) →
  differing_key (named_config a mapping) existing_exec
  ↔ a ≠ a' ∨ mappings_differ mapping mapping'.
Proof.
  intros Hec Ha Hm. rewrite mappings_differ_neq. unfold differing_key, named_config. split.
  - intros (ec & key & v & w & Hec' & Hk & _ & Hw & Hne).
    rewrite Hec in Hec'. injection Hec' as <-.
    apply lookup_insert_Some in Hk as [[<- <-]|[_ Hk]].
    + rewrite Ha in Hw. injection Hw as <-. rewrite py_eqb_str in Hne.
      left. by apply bool_decide_eq_false in Hne.
    + apply lookup_singleton_Some in Hk as [<- <-].
      rewrite Hm in Hw. injection Hw as <-. rewrite py_eqb_mapping in Hne.
      right. by apply bool_decide_eq_false in Hne.
  - intros [Hne|Hne].
    + exists existing_config, "alias", (VStr a), (VStr a').
      repeat split; auto. rewrite py_eqb_str. by apply bool_decide_eq_false.
    + exists existing_config, "config", (VDict (VStr <$> mapping)), (VDict (VStr <$> mapping')).
      repeat split; auto. rewrite py_eqb_mapping. by apply bool_decide_eq_false.
Qed.

(** C5 (as amended).  When the comparison can be carried out,
    [config_changed] is true exactly when the existing execution has a
    configuration and some key of the declared configuration has a value
    other than [None] that differs from the value under the same key
    there.  For configurations in the shape of an alias and a mapping,
    this is: the aliases differ, or a key's declared value differs from
    or is absent in the existing mapping, or the existing mapping holds
    a key that is not declared.  An existing execution without
    configuration gives false; and when [config_changed] is false,
    nothing is pushed and nothing reported. *)
Theorem config_change_detection new_config existing_exec :
  comparable new_config existing_exec →
  ∃ config_changed,
    config_differs new_config existing_exec = Ok config_changed
    ∧ (config_changed = true ↔ differing_key new_config existing_exec)
    ∧ (∀ a mapping existing_config a' mapping',
         new_config = named_config a mapping →
         existing_exec !! "authenticationConfig" = Some (VDict existing_config) →
         existing_config !! "alias" = Some (VStr a') →
         existing_config !! "config" = Some (VDict (VStr <$> mapping')) →
         (config_changed = true ↔ a ≠ a' ∨ mappings_differ mapping mapping'))
    ∧ (existing_exec !! "authenticationConfig" = None → config_changed = false)
    ∧ (config_changed = false →
         ∀ cm config new_exec id r kc,
           authenticationConfig new_exec = Some new_config →
           push_config cm config new_exec existing_exec id r kc = (Ok r, kc, [])).
Proof.
  intros Hcmp. unfold config_differs.
  destruct (config_differs_from_spec new_config existing_exec
              (map_to_list new_config) false Hcmp) as (b & Hrun & Hb).
  { intros key v. apply elem_of_map_to_list. }
  assert (b = true ↔ differing_key new_config existing_exec) as Hiff.
  { rewrite Hb. unfold differing_key. split.
    + intros [?|(ec & key & v & w & ? & Hin & ?)]; [done|].
      exists ec, key, v, w. apply elem_of_map_to_list in Hin. tauto.
    + intros (ec & key & v & w & ? & Hin & ?). right.
      exists ec, key, v, w. apply elem_of_map_to_list in Hin. tauto. }
  exists b. split; [done|]. split; [done|]. split; [|split].
  - intros a mapping ec a' mapping' -> Hec Ha Hm.
    rewrite Hiff. by eapply differing_key_named.
  - intros Hnone. destruct b; [|done].
    destruct Hiff as [Hiff _]. destruct (Hiff eq_refl) as (? & ? & ? & ? & ? & _).
    congruence.
  - intros -> cm config new_exec id r kc Hcfg.
    unfold push_config, config_differs. rewrite Hcfg, Hrun.
    by rewrite bind_lift_ok.
Qed.
End config_detection.

(** ** Calls the pass never issues *)

Section calls_never_issued.
Context `{KeycloakAPI KC} `{Imports}.

Local Abbreviation quiet := (quiet (KC:=KC)).
Local Abbreviation never := (never (KC:=KC)).

Lemma never_ret {A} P (a : A) : never P (mret a).
Proof. intros kc. constructor. Qed.

Lemma never_lift {A} P (r : result A) : never P (lift r).
Proof. intros kc. constructor. Qed.

Lemma never_quiet {A} P (m : M KC A) : quiet m → never P m.
Proof. intros Hq kc. destruct (Hq kc) as [r ->]. constructor. Qed.

Lemma never_invoke P c : P c = false → never P (invoke c).
Proof.
  intros Hc kc. unfold invoke. destruct (kc_write c kc); by repeat constructor.
Qed.

Lemma never_fetch P flow :
  P (get_executions_representation flow) = false → never P (fetch flow).
Proof.
  intros Hc kc. unfold fetch. destruct (kc_read flow kc); by repeat constructor.
Qed.

Lemma never_py_call_4_5 {A} P (body : M KC A) : never P (py_call 4 5 body).
Proof. intros kc. rewrite py_call_mismatch by done. constructor. Qed.

Lemma never_bind_returns {A B} P (m : M KC A) (f : A → M KC B) :
  never P m →
  (∀ kc a kc1 c1, m kc = (Ok a, kc1, c1) → never P (f a)) →
  never P (m ≫= f).
Proof.
  intros Hm Hf kc. specialize (Hm kc). unfold mbind, M_bind.
  destruct (m kc) as [[[a|e] kc1] c1] eqn:Hrun; [|done].
  specialize (Hf kc a kc1 c1 Hrun kc1).
  destruct (f a kc1) as [[r kc2] c2]. simpl in *. by apply Forall_app.
Qed.

Lemma never_bind {A B} P (m : M KC A) (f : A → M KC B) :
  never P m → (∀ a, never P (f a)) → never P (m ≫= f).
Proof. intros Hm Hf. apply never_bind_returns; [done|]. intros; apply Hf. Qed.

Ltac never_step :=
  match goal with
  | |- never _ (mret _) => apply never_ret
  | |- never _ (lift _) => apply never_lift
  | |- never _ (py_call 4 5 _) => apply never_py_call_4_5
  | |- never _ (invoke _) => apply never_invoke; reflexivity
  | |- never _ (fetch _) => apply never_fetch; reflexivity
  | |- never _ (unless_check_mode false _) => unfold unless_check_mode
  | |- never _ (_ ≫= _) => apply never_bind; [|intros ?]
  | |- never _ (if ?b then _ else _) => destruct b
  | |- never _ (match ?x with _ => _ end) => destruct x
  end.

Lemma never_push_config P config new_exec existing_exec id r :
  (∀ i c, P (add_authenticationConfig_to_execution i c) = false) →
  never P (push_config false config new_exec existing_exec id r).
Proof.
  intros HP. unfold push_config.
  repeat first [ apply never_invoke; apply HP | never_step ].
Qed.

Lemma never_push_changes P config parent new_exec existing_exec r :
  never P (push_changes false config parent new_exec existing_exec r).
Proof. unfold push_changes. repeat never_step. Qed.

(** Outside check mode the step that follows a difference never
    returns. *)
Lemma push_changes_never_returns config parent new_exec existing_exec r kc a kc1 c1 :
  push_changes false config parent new_exec existing_exec r kc ≠ (Ok a, kc1, c1).
Proof. intros Hrun. unfold push_changes in Hrun. inv_run. Qed.

Lemma never_update_existing P config st parent new_exec_index new_exec exec_index :
  (∀ i c, P (add_authenticationConfig_to_execution i c) = false) →
  never P (update_existing false config st parent new_exec_index new_exec exec_index).
Proof.
  intros HP. unfold update_existing.
  apply never_bind; [apply never_lift|intros existing_exec].
  apply never_bind; [apply never_lift|intros id].
  apply never_bind; [by apply never_push_config|intros r1].
  destruct (bool_decide (exec_index ≠ new_exec_index)).
  - rewrite orb_true_r. apply never_bind_returns; [apply never_push_changes|].
    intros kc a kc1 c1 Hrun. by apply push_changes_never_returns in Hrun.
  - rewrite orb_false_r.
    apply never_bind; [destruct (negb _); [apply never_push_changes|apply never_ret]|].
    intros r2. apply never_bind; [apply never_ret|intros r3; apply never_ret].
Qed.

Lemma never_add_missing P config st parent new_exec_index new_exec :
  (∀ i c, P (add_authenticationConfig_to_execution i c) = false) →
  (∀ n p, P (create_subflow n p) = false) →
  (∀ d p, P (create_execution d p) = false) →
  (∀ flow, P (get_executions_representation flow) = false) →
  never P (add_missing false config st parent new_exec_index new_exec).
Proof.
  intros Hcfg Hsub Hexec Hget.
  unfold add_missing, rename_subflow, create_missing, create_authentication_execution.
  repeat first
    [ apply never_invoke; first [apply Hcfg | apply Hsub | apply Hexec]
    | apply never_fetch; apply Hget
    | never_step ].
Qed.

Lemma never_process_executions P config st position new_execs :
  (∀ i c, P (add_authenticationConfig_to_execution i c) = false) →
  (∀ n p, P (create_subflow n p) = false) →
  (∀ d p, P (create_execution d p) = false) →
  (∀ flow, P (get_executions_representation flow) = false) →
  never P (process_executions false config st position new_execs).
Proof.
  intros Hcfg Hsub Hexec Hget. revert st position.
  induction new_execs as [|n rest IH]; intros st position; [apply never_ret|].
  simpl. apply never_bind; [|intros st'; apply IH].
  unfold process_execution.
  repeat first
    [ by apply never_update_existing | by apply never_add_missing | never_step ].
Qed.

Lemma never_remove_extra_executions P config r existing :
  (∀ i, P (delete_authentication_execution i) = false) →
  never P (remove_extra_executions false config r existing).
Proof.
  intros Hdel. revert r.
  induction existing as [|e rest IH]; intros r; [apply never_ret|].
  simpl. apply never_bind; [|intros r'; apply IH].
  unfold remove_extra_execution.
  repeat first [ apply never_invoke; apply Hdel | never_step ].
Qed.

(** A call that is neither a read, nor the push of a configuration, nor a
    creation, nor a removal is issued by no pass. *)
Lemma never_create_or_update_executions P cm config kc :
  (∀ i c, P (add_authenticationConfig_to_execution i c) = false) →
  (∀ n p, P (create_subflow n p) = false) →
  (∀ d p, P (create_execution d p) = false) →
  (∀ flow, P (get_executions_representation flow) = false) →
  (∀ i, P (delete_authentication_execution i) = false) →
  Forall (λ c, P c = false) (create_or_update_executions cm config kc).2.
Proof.
  intros Hcfg Hsub Hexec Hget Hdel. destruct cm.
  - destruct (check_mode_calls config kc) as (res & calls & Hrun & Hcalls).
    unfold create_or_update_executions. rewrite Hrun.
    assert (Forall (λ c, P c = false) calls) as Hall.
    { destruct Hcalls as [->| ->]; repeat constructor. apply Hget. }
    by destruct res as [[r d]|e].
  - assert (never P (reconcile false config)) as Hnever.
    { unfold reconcile. destruct (authenticationExecutions config);
        [apply never_ret|..];
        (apply never_bind; [by apply never_fetch|intros existing]);
        (apply never_bind; [by apply never_process_executions|intros st]);
        (apply never_bind; [by apply never_remove_extra_executions|intros r]);
        apply never_ret. }
    specialize (Hnever kc). unfold create_or_update_executions.
    by destruct (reconcile false config kc) as [[[[r d]|e] kc1] c1].
Qed.
End calls_never_issued.

(** ** The defect of the update call *)

(** C4.  [update_authentication_executions] is called by no pass, in
    either mode, on any input.  On an execution declared [REQUIRED] that
    the remote side has [DISABLED], the pass outside check mode ends in
    [fail_json] on a [TypeError] after the read alone, whereas in check
    mode it reports the wrong requirement. *)
Theorem update_is_never_pushed :
  (∀ KC (api : KeycloakAPI KC) (imports : Imports) cm config (kc : KC),
     Forall (λ c, is_update_call c = false)
       (create_or_update_executions cm config kc).2)
  ∧ run_in_memory false flow_a_required remote_a_disabled
    = (fail_json TypeError, remote_a_disabled, [get_executions_representation "flow"])
  ∧ outcome_changed (run_in_memory true flow_a_required remote_a_disabled).1.1
    = Some true
  ∧ outcome_lines (run_in_memory true flow_a_required remote_a_disabled).1.1
    = Some ["Flow flow, Execution: A: Wrong requirement  (Expected : REQUIRED, Actual : DISABLED."].
Proof.
  split; [|repeat split; reflexivity].
  intros KC api imports cm config kc.
  by apply never_create_or_update_executions.
Qed.

(** C6.  [change_execution_priority] is called by no pass, in either
    mode, on any input: a difference of index is a difference, and the
    step for a difference comes first and does not return outside check
    mode.  On [X] declared first and found third, the pass outside check
    mode ends in [fail_json] on a [TypeError] after the read alone, whereas
    in check mode it reports the wrong index, expected 0 and actual 2. *)
Theorem priority_is_never_changed :
  (∀ KC (api : KeycloakAPI KC) (imports : Imports) cm config (kc : KC),
     Forall (λ c, is_priority_call c = false)
       (create_or_update_executions cm config kc).2)
  ∧ run_in_memory false flow_x remote_p_y_x
    = (fail_json TypeError, remote_p_y_x, [get_executions_representation "flow"])
  ∧ outcome_lines (run_in_memory true flow_x remote_p_y_x).1.1
    = Some ["Flow flow, Execution: X: Wrong requirement , Actual : REQUIRED.";
            "Flow flow, Execution: X: Wrong index  (Expected : 0, Actual : 2.";
            "Flow flow has extra execution P at depth level 0";
            "Flow flow has extra execution Y at depth level 0"].
Proof.
  split; [|repeat split; reflexivity].
  intros KC api imports cm config kc.
  by apply never_create_or_update_executions.
Qed.

(** ** The matcher: the index it returns, its errors, the keys it reads *)

Lemma same_exec_true_inv existing_exec searched_exec :
  same_exec existing_exec searched_exec = Ok true →
  same_name existing_exec searched_exec = true ∧ existing_exec ≠ ∅.
Proof.
  unfold same_exec. destruct (same_name existing_exec searched_exec) eqn:Hn; [|done].
  intros _. split; [done|]. intros ->. unfold same_name in Hn.
  by rewrite !lookup_empty in Hn.
Qed.

Lemma find_exec_from_index i searched_exec executions j :
  find_exec_from i searched_exec executions = Ok j →
  j = (-1)%Z
  ∨ ∃ existing_exec,
      (i ≤ j < i + Z.of_nat (length executions))%Z
      ∧ executions !! Z.to_nat (j - i) = Some existing_exec
      ∧ existing_exec ≠ ∅
      ∧ same_name existing_exec searched_exec = true.
Proof.
  revert i. induction executions as [|e rest IH]; intros i; simpl.
  - intros [= <-]. by left.
  - destruct (same_exec e searched_exec) as [[|]|] eqn:He; [| |done].
    + intros [= <-]. right. exists e. apply same_exec_true_inv in He as [? ?].
      rewrite Z.sub_diag. repeat split; auto; lia.
    + intros Hrest. apply IH in Hrest as [->|(x & Hj & Hx & ? & ?)]; [by left|].
      right. exists x. repeat split; auto; try lia.
      replace (Z.to_nat (j - i)) with (S (Z.to_nat (j - (i + 1)))) by lia. done.
Qed.

(** X1.  When [find_exec_in_executions] returns, it returns [-1] or the
    index of an entry of the list: the index is within the bounds, so that
    the lookup of line 320 cannot fail, and the entry there bears the name
    searched and has not been cleared, so that an execution of the remote
    side is matched by one declared execution at most. *)
Theorem find_exec_in_executions_index searched_exec executions i :
  find_exec_in_executions searched_exec executions = Ok i →
  i = (-1)%Z
  ∨ ∃ existing_exec,
      (0 ≤ i < Z.of_nat (length executions))%Z
      ∧ py_list_getitem executions i = Ok existing_exec
      ∧ existing_exec ≠ ∅
      ∧ same_name existing_exec searched_exec = true.
Proof.
  intros Hrun. apply find_exec_from_index in Hrun as [->|(x & Hi & Hx & ? & ?)]; [by left|].
  right. exists x. repeat split; auto; try lia.
  unfold py_list_getitem, py_position.
  rewrite (bool_decide_eq_false_2 (i < 0)%Z) by lia. rewrite bool_decide_eq_true_2 by lia.
  rewrite Z.sub_0_r in Hx. by rewrite Hx.
Qed.

(** The entries before the first one that bears the searched name. *)
Lemma find_exec_from_skip i searched_exec pre rest :
  Forall (λ e, same_name e searched_exec = false) pre →
  find_exec_from i searched_exec (pre ++ rest)
  = find_exec_from (i + Z.of_nat (length pre))%Z searched_exec rest.
Proof.
  intros Hpre. revert i. induction Hpre as [|e pre He Hpre IH]; intros i.
  - simpl. by rewrite Z.add_0_r.
  - simpl. unfold same_exec at 1. rewrite He. simpl. rewrite IH. f_equal. lia.
Qed.

(** X2.  The levels are read only for an entry that bears the searched
    name.  At the first such entry, a ["level"] missing from it or from the
    searched execution makes [find_exec_in_executions] raise [KeyError];
    the entries before it, which bear other names, may lack theirs. *)
Theorem find_exec_in_executions_missing_level searched_exec pre existing_exec post :
  Forall (λ e, same_name e searched_exec = false) pre →
  same_name existing_exec searched_exec = true →
  existing_exec !! "level" = None ∨ searched_exec !! "level" = None →
  find_exec_in_executions searched_exec (pre ++ existing_exec :: post) = Raise KeyError.
Proof.
  intros Hpre Hname Hlevel. unfold find_exec_in_executions.
  rewrite find_exec_from_skip by done. simpl. unfold same_exec. rewrite Hname.
  unfold py_getitem. destruct Hlevel as [-> | Hs]; [done|].
  rewrite Hs. by destruct (existing_exec !! "level").
Qed.

Lemma same_exec_agree existing_exec searched_exec searched_exec' :
  (∀ key, key ∈ ["providerId"; "displayName"; "level"] →
     searched_exec !! key = searched_exec' !! key) →
  same_exec existing_exec searched_exec = same_exec existing_exec searched_exec'.
Proof.
  intros Hagree. unfold same_exec, same_name, py_getitem.
  rewrite <-!Hagree by set_solver. done.
Qed.

(** X3.  Of the searched execution [find_exec_in_executions] reads the
    keys ["providerId"], ["displayName"] and ["level"] and no other: two
    searched executions that agree on the three give the same result,
    index or exception, on every list. *)
Theorem find_exec_in_executions_reads_three_keys searched_exec searched_exec' executions :
  (∀ key, key ∈ ["providerId"; "displayName"; "level"] →
     searched_exec !! key = searched_exec' !! key) →
  find_exec_in_executions searched_exec executions
  = find_exec_in_executions searched_exec' executions.
Proof.
  intros Hagree. unfold find_exec_in_executions. generalize 0%Z.
  induction executions as [|e rest IH]; intros i; [done|].
  simpl. rewrite (same_exec_agree e _ _ Hagree).
  destruct (same_exec e searched_exec') as [[|]|]; auto.
Qed.

(** ** The comparison of the configurations and the order of the keys *)

Lemma config_key_differs_same_exn existing_exec key v key' v' e e' :
  config_key_differs existing_exec key v = Raise e →
  config_key_differs existing_exec key' v' = Raise e' →
  e = e'.
Proof.
  unfold config_key_differs. destruct (is_none v), (is_none v'); try done.
  destruct (existing_exec !! "authenticationConfig") as [[| | | | |d]|]; try congruence.
  destruct (d !! key), (d !! key'); congruence.
Qed.

Lemma config_differs_from_raise existing_exec items acc acc' e :
  config_differs_from existing_exec items acc = Raise e →
  config_differs_from existing_exec items acc' = Raise e.
Proof.
  revert acc acc'. induction items as [|[key v] rest IH]; intros acc acc'; [done|].
  simpl. destruct (config_key_differs existing_exec key v); [|done]. apply IH.
Qed.

Lemma config_differs_from_swap existing_exec x y items acc :
  config_differs_from existing_exec (x :: y :: items) acc
  = config_differs_from existing_exec (y :: x :: items) acc.
Proof.
  destruct x as [kx vx], y as [ky vy]. simpl.
  destruct (config_key_differs existing_exec kx vx) as [bx|ex] eqn:Hx,
           (config_key_differs existing_exec ky vy) as [b_y|ey] eqn:Hy; try done.
  - f_equal. by destruct acc, bx, b_y.
  - f_equal. eapply config_key_differs_same_exn; eauto.
Qed.


(** ** The report and the flag [changed] *)

Section report_invariant.
Context `{KeycloakAPI KC} `{Imports}.

Lemma reports_its_changes_line b a l x : reports_its_changes (Report true b a (l ++ [x])).
Proof. split; [|done]. intros _. simpl. by destruct l. Qed.

Lemma push_config_reports cm config new_exec existing_exec id r kc r' kc1 c1 :
  push_config cm config new_exec existing_exec id r kc = (Ok r', kc1, c1) →
  reports_its_changes r → reports_its_changes r'.
Proof.
  intros Hrun Hr. unfold push_config in Hrun.
  destruct cm; inv_run; simplify_eq/=; auto using reports_its_changes_line.
Qed.

Lemma update_existing_reports cm config st parent new_exec_index new_exec exec_index
    kc st1 kc1 c1 :
  update_existing cm config st parent new_exec_index new_exec exec_index kc
    = (Ok st1, kc1, c1) →
  reports_its_changes (rep st) → reports_its_changes (rep st1).
Proof.
  intros Hrun Hr. unfold update_existing in Hrun. inv_run; simplify_eq/=;
  repeat match goal with
  | H : push_changes _ _ _ _ _ _ _ = _ |- _ =>
      unfold push_changes in H; inv_run; simplify_eq/=
  | H : push_priority _ _ _ _ _ _ _ _ = _ |- _ =>
      unfold push_priority in H; inv_run; simplify_eq/=
  end; auto using reports_its_changes_line;
  match goal with
  | H : push_config _ _ _ _ _ _ _ = _ |- _ =>
      apply push_config_reports in H; [done|]
  end; destruct Hr as [Hr1 Hr2]; (split; [apply Hr1|apply Hr2]).
Qed.

Lemma add_missing_reports cm config st parent new_exec_index new_exec kc st1 kc1 c1 :
  add_missing cm config st parent new_exec_index new_exec kc = (Ok st1, kc1, c1) →
  reports_its_changes (rep st) → reports_its_changes (rep st1).
Proof.
  intros Hrun Hr. unfold add_missing in Hrun.
  inv_run; simplify_eq/=; auto using reports_its_changes_line.
Qed.

Lemma process_executions_reports cm config st position new_execs kc st1 kc1 c1 :
  process_executions cm config st position new_execs kc = (Ok st1, kc1, c1) →
  reports_its_changes (rep st) → reports_its_changes (rep st1).
Proof.
  revert st position kc c1. induction new_execs as [|n rest IH];
    intros st position kc c1 Hrun Hr.
  - simpl in Hrun. inv_run. by subst.
  - simpl in Hrun. inv_run. eapply IH; [done|].
    match goal with
    | Hstep : process_execution _ _ _ _ _ _ = _ |- _ =>
        unfold process_execution in Hstep; inv_run
    end.
    + by eapply update_existing_reports.
    + by eapply add_missing_reports.
Qed.

Lemma remove_extra_executions_reports cm config r existing kc r' kc1 c1 :
  remove_extra_executions cm config r existing kc = (Ok r', kc1, c1) →
  reports_its_changes r → reports_its_changes r'.
Proof.
  revert r kc c1. induction existing as [|e rest IH]; intros r kc c1 Hrun Hr.
  - simpl in Hrun. inv_run. by subst.
  - simpl in Hrun. inv_run. eapply IH; [done|].
    match goal with
    | Hstep : remove_extra_execution _ _ _ _ _ = _ |- _ =>
        unfold remove_extra_execution in Hstep; inv_run; simplify_eq/=
    end; auto using reports_its_changes_line.
Qed.

(** X5.  A pass that returns has set [changed] exactly when it returns a
    line in [err_msg]: every change is reported, and nothing is reported
    without [changed]. *)
Theorem changed_iff_a_line_is_reported cm config (kc : KC) r declared kc1 c1 :
  create_or_update_executions cm config kc = (Returns r declared, kc1, c1) →
  changed r = true ↔ err_msg r ≠ [].
Proof.
  unfold create_or_update_executions.
  destruct (reconcile cm config kc) as [[[[r0 d0]|e] kc0] c0] eqn:Hrun; [|done].
  intros [= -> -> -> ->]. unfold reconcile in Hrun.
  assert (reports_its_changes no_report) as Hinit by done.
  destruct (authenticationExecutions config) as [| |l]; simpl in Hrun;
    inv_run; simplify_eq/=; try done;
    (eapply remove_extra_executions_reports; [done|]); try done;
    by eapply process_executions_reports.
Qed.
End report_invariant.

(** ** The working copy and the removals *)

Section working_copy.
Context `{KeycloakAPI KC} `{Imports}.

Lemma working_copy_refl l : working_copy_of l l.
Proof. apply Forall2_same_length_lookup_2; [done|]. intros ??? ? ?. right. congruence. Qed.

Lemma working_copy_trans l1 l2 l3 :
  working_copy_of l1 l2 → working_copy_of l2 l3 → working_copy_of l1 l3.
Proof.
  unfold working_copy_of. intros H12 H23. revert l1 H12.
  induction H23 as [|e3 e2 l3 l2 He Hl IH]; intros l1 H12.
  - by inversion H12.
  - inversion H12 as [|? e1 ? l1' He' Hl']; subst. constructor; [|by apply IH].
    destruct He as [->| ->]; auto.
Qed.

Lemma working_copy_clear_at l i : working_copy_of l (clear_at l i).
Proof.
  unfold clear_at. generalize (Z.to_nat (py_position l i)). intros n. revert n.
  induction l as [|e l IH]; intros [|n]; simpl; try constructor; auto;
    try apply working_copy_refl. apply IH.
Qed.

Lemma process_execution_working_copy cm config st position new_exec kc st1 kc1 c1 :
  process_execution cm config st position new_exec kc = (Ok st1, kc1, c1) →
  working_copy_of (existing_executions st) (existing_executions st1).
Proof.
  intros Hrun. unfold process_execution in Hrun. inv_run.
  - unfold update_existing in Hrun. inv_run; simplify_eq/=; apply working_copy_clear_at.
  - unfold add_missing in Hrun. inv_run; simplify_eq/=;
      try (unfold rename_subflow in *; inv_run; simplify_eq/=);
      try (unfold create_missing in *; inv_run; simplify_eq/=);
      first [apply working_copy_clear_at | apply working_copy_refl].
Qed.

Lemma process_executions_working_copy cm config st position new_execs kc st1 kc1 c1 :
  process_executions cm config st position new_execs kc = (Ok st1, kc1, c1) →
  working_copy_of (existing_executions st) (existing_executions st1).
Proof.
  revert st position kc c1. induction new_execs as [|n rest IH];
    intros st position kc c1 Hrun.
  - simpl in Hrun. inv_run. subst. apply working_copy_refl.
  - simpl in Hrun. inv_run. eapply working_copy_trans; [|by eapply IH].
    by eapply process_execution_working_copy.
Qed.


Lemma calls_bind {A B} (P : call → Prop) (m : M KC A) (f : A → M KC B) kc :
  Forall P (m kc).2 →
  (∀ a kc1 c1, m kc = (Ok a, kc1, c1) → Forall P (f a kc1).2) →
  Forall P ((m ≫= f) kc).2.
Proof.
  intros Hm Hf. unfold mbind, M_bind.
  destruct (m kc) as [[[a|e] kc1] c1] eqn:Hrun; [|done].
  specialize (Hf a kc1 c1 eq_refl).
  destruct (f a kc1) as [[r kc2] c2]. simpl in *. by apply Forall_app.
Qed.

Lemma remove_extra_execution_calls config r existing e kc :
  e = ∅ ∨ e ∈ existing →
  Forall (removes_one_of existing) (remove_extra_execution false config r e kc).2.
Proof.
  intros He. unfold remove_extra_execution. case_bool_decide as Hne; [|constructor].
  destruct He as [->|He]; [done|].
  unfold py_getitem.
  destruct (e !! "displayName"); [|constructor].
  destruct (e !! "level"); [|constructor].
  destruct (e !! "id") as [id|] eqn:Hid; [|constructor].
  rewrite !bind_lift_ok. unfold mbind, M_bind, invoke, lift.
  destruct (kc_write _ kc); simpl; (constructor; [|constructor]);
    intros id' [= <-]; eauto.
Qed.

Lemma remove_extra_executions_calls config r existing working kc :
  Forall (λ e, e = ∅ ∨ e ∈ existing) working →
  Forall (removes_one_of existing) (remove_extra_executions false config r working kc).2.
Proof.
  intros Hall. revert r kc. induction Hall as [|e rest He Hrest IH]; intros r kc.
  - constructor.
  - simpl. apply calls_bind; [by apply remove_extra_execution_calls|].
    intros r' kc1 c1 _. apply IH.
Qed.

Lemma working_copy_elem_of existing working :
  working_copy_of existing working → Forall (λ e, e = ∅ ∨ e ∈ existing) working.
Proof.
  induction 1 as [|e' e working existing He _ IH]; constructor.
  - destruct He as [->| ->]; [by left|right; by left].
  - eapply Forall_impl; [done|]. intros x [->|?]; [by left|right; by right].
Qed.

(** X6.  Whatever the pass ends in, every
    [delete_authentication_execution] it has issued bears the ["id"] of an
    entry of the list that the read of the flow returned. *)
Theorem only_read_executions_are_removed cm config (kc : KC) :
  Forall (λ c, ∀ id, c = delete_authentication_execution id →
            ∃ existing e, kc_read (alias config) kc = Some existing
                          ∧ e ∈ existing ∧ e !! "id" = Some id)
    (create_or_update_executions cm config kc).2.
Proof.
  destruct cm.
  - destruct (check_mode_calls config kc) as (res & calls & Hrun & Hcalls).
    unfold create_or_update_executions. rewrite Hrun.
    assert (Forall (λ c, ∀ id, c = delete_authentication_execution id →
              ∃ existing e, kc_read (alias config) kc = Some existing
                            ∧ e ∈ existing ∧ e !! "id" = Some id) calls) as Hall.
    { destruct Hcalls as [->| ->]; repeat constructor. done. }
    by destruct res as [[r d]|e].
  - assert (Forall (λ c, ∀ id, c = delete_authentication_execution id →
              ∃ existing e, kc_read (alias config) kc = Some existing
                            ∧ e ∈ existing ∧ e !! "id" = Some id)
              (reconcile false config kc).2) as Hall.
    { unfold reconcile.
      assert (∀ l,
        Forall (λ c, ∀ id, c = delete_authentication_execution id →
              ∃ existing e, kc_read (alias config) kc = Some existing
                            ∧ e ∈ existing ∧ e !! "id" = Some id)
          ((existing ← fetch (alias config);
            st ← process_executions false config (PassState no_report ∅ existing []) 0%Z l;
            r ← remove_extra_executions false config (rep st) (existing_executions st);
            mret (r, visited st)) kc).2) as Hbody.
      { intros l. apply calls_bind.
        { unfold fetch. destruct (kc_read (alias config) kc); by repeat constructor. }
        intros existing kc1 c1 Hfetch.
        apply fetch_returns in Hfetch as (Hread & -> & ->).
        apply calls_bind.
        { eapply Forall_impl;
            [apply (never_process_executions is_removal_call); done|].
          intros c Hc id ->. done. }
        intros st kc1 c1 Hloop.
        apply process_executions_working_copy in Hloop. simpl in Hloop.
        apply calls_bind; [|intros; constructor].
        eapply Forall_impl;
          [apply remove_extra_executions_calls, working_copy_elem_of, Hloop|].
        intros c Hc id Hid. destruct (Hc id Hid) as (e & ? & ?). eauto. }
      destruct (authenticationExecutions config) as [| |l]; [constructor|apply Hbody..]. }
    unfold create_or_update_executions.
    by destruct (reconcile false config kc) as [[[[r d]|e] kc1] c1].
Qed.
End working_copy.

(** ** The calls of a pass that returns, and what it writes *)

Section returning_calls.
Context `{KeycloakAPI KC} `{Imports}.

Lemma push_config_returns_calls cm config new_exec existing_exec id r kc r' kc1 c1 :
  push_config cm config new_exec existing_exec id r kc = (Ok r', kc1, c1) →
  Forall (λ c, is_config_call c = true) c1.
Proof.
  intros Hrun. unfold push_config in Hrun.
  destruct cm; inv_run; simplify_eq/=; repeat constructor.
Qed.

Lemma process_execution_returns_calls cm config st position new_exec kc st1 kc1 c1 :
  process_execution cm config st position new_exec kc = (Ok st1, kc1, c1) →
  Forall (λ c, is_config_call c = true) c1.
Proof.
  intros Hrun. destruct cm.
  { destruct (quiet_process_execution config st position new_exec kc) as [r Hq].
    rewrite Hq in Hrun. injection Hrun as _ _ <-. constructor. }
  unfold process_execution in Hrun. inv_run.
  - unfold update_existing in Hrun. inv_run; simplify_eq/=;
    repeat match goal with
    | H : push_changes false _ _ _ _ _ _ = _ |- _ => by apply push_changes_never_returns in H
    | H : _ || true = false |- _ => by rewrite orb_true_r in H
    | H : push_config _ _ _ _ _ _ _ = _ |- _ => apply push_config_returns_calls in H
    end; rewrite ?app_nil_r; done.
  - unfold add_missing in Hrun. inv_run; simplify_eq/=;
      try (unfold rename_subflow in *; inv_run; simplify_eq/=);
      try (unfold create_missing in *; inv_run; simplify_eq/=); constructor.
Qed.

Lemma process_executions_returns_calls cm config st position new_execs kc st1 kc1 c1 :
  process_executions cm config st position new_execs kc = (Ok st1, kc1, c1) →
  Forall (λ c, is_config_call c = true) c1.
Proof.
  revert st position kc c1. induction new_execs as [|n rest IH];
    intros st position kc c1 Hrun.
  - simpl in Hrun. inv_run. subst. constructor.
  - simpl in Hrun. inv_run. apply Forall_app. split; [|by eapply IH].
    by eapply process_execution_returns_calls.
Qed.

Lemma remove_extra_executions_returns_calls cm config r existing kc r' kc1 c1 :
  remove_extra_executions cm config r existing kc = (Ok r', kc1, c1) →
  Forall (λ c, is_removal_call c = true) c1.
Proof.
  revert r kc c1. induction existing as [|e rest IH]; intros r kc c1 Hrun.
  - simpl in Hrun. inv_run. subst. constructor.
  - simpl in Hrun. inv_run. apply Forall_app. split; [|by eapply IH].
    match goal with
    | Hstep : remove_extra_execution _ _ _ _ _ = _ |- _ =>
        unfold remove_extra_execution in Hstep; inv_run; simplify_eq/=
    end; repeat constructor.
Qed.

(** X7.  The calls of a pass that returns.  Without the key
    ["authenticationExecutions"] the pass issues none and returns the empty
    report.  Otherwise it has read the flow once, first; then it has only
    pushed configurations, and after them only removed executions: nothing
    has been created, updated or moved.  In check mode the read is the
    only call. *)
Theorem returning_pass_reads_pushes_removes cm config (kc : KC) r declared kc1 c1 :
  create_or_update_executions cm config kc = (Returns r declared, kc1, c1) →
  match authenticationExecutions config with
  | ExecsMissing => c1 = [] ∧ kc1 = kc ∧ r = no_report
  | _ =>
      ∃ pushes removals,
        c1 = get_executions_representation (alias config) :: pushes ++ removals
        ∧ Forall (λ c, is_config_call c = true) pushes
        ∧ Forall (λ c, is_removal_call c = true) removals
        ∧ (cm = true → pushes = [] ∧ removals = [])
  end.
Proof.
  unfold create_or_update_executions.
  destruct (reconcile cm config kc) as [[[[r0 d0]|e] kc0] c0] eqn:Hrun; [|done].
  intros [= -> -> -> ->]. unfold reconcile in Hrun.
  assert (∀ l,
    (existing ← fetch (alias config);
     st ← process_executions cm config (PassState no_report ∅ existing []) 0%Z l;
     r ← remove_extra_executions cm config (rep st) (existing_executions st);
     mret (r, visited st)) kc = (Ok (r, declared), kc1, c1) →
    ∃ pushes removals,
        c1 = get_executions_representation (alias config) :: pushes ++ removals
        ∧ Forall (λ c, is_config_call c = true) pushes
        ∧ Forall (λ c, is_removal_call c = true) removals
        ∧ (cm = true → pushes = [] ∧ removals = [])) as Hbody.
  { clear Hrun. intros l Hrun. inv_run. simplify_eq/=.
    match goal with
    | Hf : fetch _ _ = _ |- _ => apply fetch_returns in Hf as (_ & -> & ->)
    end.
    match goal with
    | Hp : process_executions _ _ _ _ _ _ = (_, _, ?cp),
      Hx : remove_extra_executions _ _ _ _ _ = (_, _, ?cx) |- _ =>
        exists cp, cx; rewrite app_nil_r; split; [done|];
        split; [by eapply process_executions_returns_calls|];
        split; [by eapply remove_extra_executions_returns_calls|]
    end.
    intros ->.
    repeat match goal with
    | Hp : process_executions true ?c ?s ?p ?l ?k = _ |- _ =>
        let Hq := fresh in
        destruct (quiet_process_executions c s p l k) as [? Hq];
        rewrite Hq in Hp; injection Hp as _ <- <-; clear Hq
    | Hx : remove_extra_executions true ?c ?r ?l ?k = _ |- _ =>
        let Hq := fresh in
        destruct (quiet_remove_extra_executions c r l k) as [? Hq];
        rewrite Hq in Hx; injection Hx as _ <- <-; clear Hq
    end. done. }
  destruct (authenticationExecutions config) as [| |l]; [|by eapply Hbody..].
  inv_run. by simplify_eq.
Qed.

Lemma same_declaration_refl a : same_declaration a a.
Proof. done. Qed.

Lemma same_but_id_declaration a b lvl :
  same_but_id a (set_level b lvl) → same_declaration a b.
Proof. by intros [->|[v ->]]. Qed.

Lemma process_executions_declaration cm config st position new_execs kc st1 kc1 c1 :
  process_executions cm config st position new_execs kc = (Ok st1, kc1, c1) →
  ∃ new_execs',
    visited st1 = visited st ++ new_execs'
    ∧ Forall2 (λ d n, same_declaration d n ∧ is_Some (level d)) new_execs' new_execs.
Proof.
  revert st position kc c1. induction new_execs as [|n rest IH];
    intros st position kc c1 Hrun.
  - simpl in Hrun. inv_run. subst. exists []. by rewrite app_nil_r.
  - simpl in Hrun. inv_run.
    match goal with
    | Hstep : process_execution _ _ _ _ _ _ = _ |- _ =>
        apply process_execution_returns in Hstep
          as (name & lvl & n' & _ & _ & _ & Hvis & Hsame)
    end.
    apply IH in Hrun as (rest' & Hvis' & Hall).
    exists (n' :: rest'). split; [by rewrite Hvis', Hvis, <-app_assoc|].
    constructor; [|done]. split; [by eapply same_but_id_declaration|].
    destruct Hsame as [->|[v ->]]; by eexists.
Qed.

(** X8.  A pass that returns leaves the caller's executions with the six
    keys of the argument spec as they were declared, one for one and in
    order; what it writes into them is ["level"], into each, and ["id"]. *)
Theorem pass_writes_level_and_id_only cm config (kc : KC) r declared kc1 c1 :
  create_or_update_executions cm config kc = (Returns r declared, kc1, c1) →
  Forall2 (λ d n, same_declaration d n ∧ is_Some (level d))
    declared (declared_executions (authenticationExecutions config)).
Proof.
  unfold create_or_update_executions.
  destruct (reconcile cm config kc) as [[[[r0 d0]|e] kc0] c0] eqn:Hrun; [|done].
  intros [= -> -> -> ->]. unfold reconcile in Hrun.
  destruct (authenticationExecutions config) as [| |l]; simpl in *;
    inv_run; simplify_eq/=; try constructor.
  match goal with
  | Hp : process_executions _ _ _ _ _ _ = _ |- _ =>
      apply process_executions_declaration in Hp as (l' & Hvis & Hall)
  end.
  simpl in Hvis. by rewrite Hvis.
Qed.
End returning_calls.

(** ** The creation of a missing execution *)

Section creation.
Context `{KeycloakAPI KC} `{Imports}.

Lemma filter_head {A} (P : A → Prop) `{∀ x, Decision (P x)} (l : list A) x t :
  filter P l = x :: t →
  ∃ pre post, l = pre ++ x :: post ∧ Forall (λ y, ¬ P y) pre ∧ P x.
Proof.
  induction l as [|y l IH]; [done|].
  rewrite filter_cons. destruct (decide (P y)) as [Hy|Hy].
  - intros [= -> <-]. exists [], l. repeat split; auto.
  - intros Hl. destruct (IH Hl) as (pre & post & -> & Hpre & Hx).
    exists (y :: pre), post. repeat split; auto.
Qed.

Lemma filter_none {A} (f : A → bool) (l : list A) :
  Forall (λ o, f o = false) l → filter (λ o, f o = true) l = [].
Proof.
  induction 1 as [|o l Ho Hl IH]; [done|].
  rewrite filter_cons_False; [done|]. by rewrite Ho.
Qed.

Lemma py_list_getitem_head {A} (l : list A) x :
  py_list_getitem l 0%Z = Ok x → ∃ t, l = x :: t.
Proof. destruct l as [|y t]; [done|]. intros [= ->]. by exists t. Qed.

Lemma hasSameName_same_name new_exec other_exec :
  hasSameName new_exec other_exec = true → same_name other_exec new_exec = true.
Proof.
  unfold hasSameName, same_name. intros Hsame.
  destruct (other_exec !! "providerId"), (new_exec !! "providerId");
    rewrite ?Hsame; try done;
    destruct (other_exec !! "displayName"), (new_exec !! "displayName");
    by rewrite ?Hsame.
Qed.

Lemma create_authentication_execution_creation config new_exec parent isFlow kc :
  create_authentication_execution config new_exec parent isFlow kc
  = (invoke (creation_call new_exec parent isFlow) ≫= λ _,
     l ← fetch (alias config);
     lift (py_list_getitem (filter (λ o, hasSameName (to_dict new_exec) o = true) l) 0%Z)) kc.
Proof. unfold create_authentication_execution, creation_call. by destruct isFlow. Qed.

(** X9.  When [create_authentication_execution] returns, it has issued
    the creation and then read the flow again, and what it returns is the
    first entry of that list that [hasSameName] accepts: an entry that
    bears the provider id or the display name of the new execution, at
    whatever level, be it the one just created or one that was there. *)
Theorem create_authentication_execution_returns_first_namesake
    config new_exec parent isFlow (kc : KC) created kc1 c1 :
  create_authentication_execution config new_exec parent isFlow kc = (Ok created, kc1, c1) →
  ∃ pre post,
    kc_write (creation_call new_exec parent isFlow) kc = Some kc1
    ∧ kc_read (alias config) kc1 = Some (pre ++ created :: post)
    ∧ c1 = [creation_call new_exec parent isFlow;
            get_executions_representation (alias config)]
    ∧ Forall (λ o, hasSameName (to_dict new_exec) o = false) pre
    ∧ hasSameName (to_dict new_exec) created = true
    ∧ same_name created (to_dict new_exec) = true.
Proof.
  rewrite create_authentication_execution_creation. intros Hrun. inv_run.
  match goal with
  | Hf : fetch _ _ = _ |- _ => apply fetch_returns in Hf as (Hread & -> & ->)
  end.
  match goal with
  | Hg : py_list_getitem _ _ = _ |- _ => apply py_list_getitem_head in Hg as [t Hfilter]
  end.
  apply filter_head in Hfilter as (pre & post & -> & Hpre & Hx).
  exists pre, post. repeat split; auto using hasSameName_same_name.
  eapply Forall_impl; [exact Hpre|]. intros o Ho. by apply not_true_is_false.
Qed.

(** X10.  When the list read after the creation shows no entry that
    [hasSameName] accepts, [create_authentication_execution] raises
    [IndexError] on the empty list of line 253: the creation has been
    carried out on the remote side. *)
Theorem create_authentication_execution_not_found
    config new_exec parent isFlow (kc : KC) kc1 l :
  kc_write (creation_call new_exec parent isFlow) kc = Some kc1 →
  kc_read (alias config) kc1 = Some l →
  Forall (λ o, hasSameName (to_dict new_exec) o = false) l →
  create_authentication_execution config new_exec parent isFlow kc
  = (Raise IndexError, kc1,
     [creation_call new_exec parent isFlow; get_executions_representation (alias config)]).
Proof.
  intros Hwrite Hread Hnone. rewrite create_authentication_execution_creation.
  unfold mbind, M_bind, invoke, fetch, lift. rewrite Hwrite, Hread.
  by rewrite (filter_none _ _ Hnone).
Qed.

Lemma create_authentication_execution_calls config new_exec parent isFlow (kc : KC) :
  (create_authentication_execution config new_exec parent isFlow kc).2
    = [creation_call new_exec parent isFlow]
  ∨ (create_authentication_execution config new_exec parent isFlow kc).2
    = [creation_call new_exec parent isFlow; get_executions_representation (alias config)].
Proof.
  rewrite create_authentication_execution_creation.
  unfold mbind, M_bind, invoke, fetch, lift.
  destruct (kc_write _ kc) as [kc1|]; [|by left].
  destruct (kc_read _ kc1) as [l|]; [|by right].
  destruct (py_list_getitem _ _); by right.
Qed.

(** X11.  Lines 366-369 never run to their end: whatever the remote side
    answers, the creation of a missing execution ends in an exception,
    after the creation call alone or the creation and the read; the
    configuration of line 369 is never attached.  When the created
    execution is found with its id, the exception is the [TypeError] of
    the call of [update_authentication_execution], and the remote side is
    left as the creation has made it. *)
Theorem create_missing_fails config parent new_exec isFlow (kc : KC) :
  ∃ e kc1 c1,
    create_missing config parent new_exec isFlow kc = (Raise e, kc1, c1)
    ∧ (c1 = [creation_call new_exec parent isFlow]
       ∨ c1 = [creation_call new_exec parent isFlow;
               get_executions_representation (alias config)])
    ∧ (∀ created kc2 c2 id,
         create_authentication_execution config new_exec parent isFlow kc
           = (Ok created, kc2, c2) →
         created !! "id" = Some id →
         e = TypeError ∧ kc1 = kc2).
Proof.
  pose proof (create_authentication_execution_calls config new_exec parent isFlow kc) as Hc.
  unfold create_missing, mbind, M_bind, lift, py_getitem.
  destruct (create_authentication_execution config new_exec parent isFlow kc)
    as [[[created|e] kc1] c1] eqn:Hcreate; simpl in Hc.
  - destruct (created !! "id") as [id|] eqn:Hid; simpl;
      eexists _, _, _; (split; [reflexivity|]); rewrite app_nil_r; (split; [exact Hc|]).
    + by intros ? ? ? ? [= <- <- <-] _.
    + intros ? ? ? ? [= <- <- <-] ?. congruence.
  - eexists _, _, _. split; [reflexivity|]. split; [exact Hc|]. done.
Qed.
End creation.

Section missing.
Context `{KeycloakAPI KC} `{Imports}.

Lemma create_missing_type_error config parent new_exec isFlow (kc : KC) created kc2 c2 id :
  create_authentication_execution config new_exec parent isFlow kc = (Ok created, kc2, c2) →
  created !! "id" = Some id →
  create_missing config parent new_exec isFlow kc = (Raise TypeError, kc2, c2).
Proof.
  intros Hcreate Hid. unfold create_missing.
  rewrite (bind_ok _ _ _ _ _ _ Hcreate). unfold py_getitem. rewrite Hid.
  rewrite bind_lift_ok.
  rewrite (bind_raise _ _ _ TypeError kc2 []); [by rewrite app_nil_r|].
  by apply py_call_mismatch.
Qed.

(** X12.  Outside check mode, at the first declared execution that the
    working copy does not hold (and that is not a sub-flow to rename), once
    the iterations before it have returned: if the remote side creates it
    and shows it with an id, the pass ends in [fail_json] on a [TypeError],
    and the remote side keeps the new execution. *)
Theorem missing_execution_is_created_then_the_pass_fails
    config pre new_exec post (kc : KC) existing st1 kc1 c1 levels' new_exec'
    created kc2 c2 id :
  authenticationExecutions config = ExecsList (pre ++ new_exec :: post) →
  kc_read (alias config) kc = Some existing →
  process_executions false config (PassState no_report ∅ existing []) 0%Z pre kc
    = (Ok st1, kc1, c1) →
  register_level (levels st1) new_exec = Ok (levels', new_exec') →
  find_exec_in_executions (to_dict new_exec') (existing_executions st1) = Ok (-1)%Z →
  subflow_at_index
    (bool_decide (is_Some (displayName new_exec)) && bool_decide (providerId new_exec = None))
    (default (Z.of_nat (length pre)) (index new_exec)) (existing_executions st1) = Ok false →
  create_authentication_execution config new_exec'
    (default (alias config) (flowAlias new_exec))
    (bool_decide (is_Some (displayName new_exec)) && bool_decide (providerId new_exec = None))
    kc1 = (Ok created, kc2, c2) →
  created !! "id" = Some id →
  create_or_update_executions false config kc
  = (fail_json TypeError, kc2, get_executions_representation (alias config) :: c1 ++ c2).
Proof.
  intros Hdeclared Hread Hpre Hreg Hfind Hsub Hcreate Hid.
  pose proof Hreg as Hreg'.
  apply register_level_returns in Hreg' as (name & lvl & Hname & _ & -> & ->).
  unfold create_or_update_executions, reconcile. rewrite Hdeclared.
  assert (fetch (alias config) kc
          = (Ok existing, kc, [get_executions_representation (alias config)])) as Hfetch.
  { unfold fetch. by rewrite Hread. }
  rewrite (bind_ok _ _ _ _ _ _ Hfetch). cbn [declared_executions].
  rewrite (bind_raise _ _ _ TypeError kc2 (c1 ++ c2)); [done|].
  rewrite process_executions_app. rewrite (bind_ok _ _ _ _ _ _ Hpre).
  cbn [process_executions].
  rewrite (bind_raise _ _ _ TypeError kc2 c2); [done|].
  unfold process_execution. rewrite Hreg, bind_lift_ok. cbn [existing_executions].
  rewrite Hfind, bind_lift_ok. rewrite bool_decide_eq_false_2 by (by intros ?).
  unfold add_missing. cbn [providerId displayName flowAlias index set_level
    existing_executions rep levels visited].
  rewrite bool_decide_eq_true_2.
  2:{ unfold get_identifier in Hname.
      destruct (providerId new_exec); [left; by eexists|].
      destruct (displayName new_exec); [right; by eexists|done]. }
  rewrite Z.add_0_l. rewrite Hsub, bind_lift_ok.
  rewrite (bind_raise _ _ _ TypeError kc2 c2); [done|].
  rewrite (bind_raise _ _ _ TypeError kc2 c2); [done|].
  by eapply create_missing_type_error.
Qed.
End missing.

(** ** A flow declared without executions *)

Section nothing_declared.
Context `{KeycloakAPI KC} `{Imports}.

(** X13.  With ["authenticationExecutions"] set to [None] or to the
    empty list, every execution the read returns is an extra one: provided
    each carries its display name, level and id and the removals succeed,
    the pass returns, reports one line for each, sets [changed] when there
    is one, and outside check mode removes them all, in order. *)
Theorem nothing_declared_removes_every_execution cm config (kc : KC) existing :
  authenticationExecutions config = ExecsNone
  ∨ authenticationExecutions config = ExecsList [] →
  kc_read (alias config) kc = Some existing →
  Forall (λ e, e ≠ ∅ → removable e) existing →
  removals_succeed →
  ∃ r kc',
    create_or_update_executions cm config kc
    = (Returns r [], kc',
       get_executions_representation (alias config)
         :: (if cm then [] else orphan_call <$> orphans existing))
    ∧ changed r = bool_decide (orphans existing ≠ [])
    ∧ err_msg r = orphan_line config <$> orphans existing
    ∧ after r = "".
Proof.
  intros Hdeclared Hread Hall Hdel.
  destruct (remove_extra_executions_removes cm config no_report existing kc Hall Hdel)
    as (r & kc' & Hextra & Hch & Hmsg & Haft).
  exists r, kc'. split; [|done].
  unfold create_or_update_executions, reconcile.
  assert (fetch (alias config) kc
          = (Ok existing, kc, [get_executions_representation (alias config)])) as Hfetch.
  { unfold fetch. by rewrite Hread. }
  destruct Hdeclared as [-> | ->]; rewrite (bind_ok _ _ _ _ _ _ Hfetch);
    cbn [declared_executions process_executions]; rewrite bind_ret;
    cbn [rep existing_executions visited];
    rewrite (bind_ok _ _ _ _ _ _ Hextra); simpl; by rewrite app_nil_r.
Qed.
End nothing_declared.

(** ** A flow without executions yet, and an index out of its bounds *)

Section empty_flow.
Context `{KeycloakAPI KC} `{Imports}.

Lemma register_level_assigned levels new_exec name lvl :
  node_identifier new_exec = Some name →
  node_level levels new_exec = Some lvl →
  register_level levels new_exec = Ok (<[name := lvl]> levels, set_level new_exec lvl)
  ∧ get_identifier new_exec = Ok name.
Proof.
  unfold node_identifier, node_level, register_level, get_identifier.
  intros Hname Hlvl.
  assert (match providerId new_exec with
          | Some p => Ok p
          | None => match displayName new_exec with
                    | Some d => Ok d
                    | None => Raise KeyError
                    end
          end = Ok name) as ->.
  { destruct (providerId new_exec); [by injection Hname as ->|].
    destruct (displayName new_exec); [by injection Hname as ->|done]. }
  split; [|done].
  destruct (flowAlias new_exec) as [parent|].
  - destruct (levels !! parent) as [l|]; [|done]. injection Hlvl as <-.
    by rewrite lookup_insert_eq.
  - injection Hlvl as <-. by rewrite lookup_insert_eq.
Qed.

Lemma process_execution_on_empty config st position new_exec (kc : KC) name lvl :
  existing_executions st = [] →
  node_identifier new_exec = Some name →
  node_level (levels st) new_exec = Some lvl →
  (providerId new_exec = None → 0 ≤ default position (index new_exec))%Z →
  process_execution true config st position new_exec kc
  = (Ok (PassState
           (Report true (before (rep st))
              (after (rep st) +:+ py_str (VDict (to_dict (set_level new_exec lvl))) +:+ newline)
              (err_msg (rep st) ++ [missing_line_of config new_exec]))
           (<[name := lvl]> (levels st)) [] (visited st ++ [set_level new_exec lvl])),
     kc, []).
Proof.
  intros Hempty Hname Hlvl Hindex.
  destruct (register_level_assigned _ _ _ _ Hname Hlvl) as [Hreg Hid].
  unfold process_execution. rewrite Hreg, bind_lift_ok.
  cbn [existing_executions]. rewrite Hempty.
  cbn [find_exec_in_executions find_exec_from]. rewrite bind_lift_ok.
  rewrite bool_decide_eq_false_2 by (by intros ?).
  unfold add_missing. cbn [providerId displayName flowAlias index set_level
    existing_executions rep levels visited].
  rewrite bool_decide_eq_true_2.
  2:{ unfold node_identifier in Hname.
      destruct (providerId new_exec); [left; by eexists|]. right. by eexists. }
  assert (subflow_at_index
            (bool_decide (is_Some (displayName new_exec))
             && bool_decide (providerId new_exec = None))
            (default position (index new_exec)) [] = Ok false) as ->.
  { unfold subflow_at_index.
    destruct (decide (providerId new_exec = None)) as [Hp|Hp].
    - rewrite (bool_decide_eq_true_2 _ Hp). simpl.
      rewrite (bool_decide_eq_false_2 (_ < 0)%Z) by (specialize (Hindex Hp); lia).
      by rewrite !andb_false_r.
    - by rewrite (bool_decide_eq_false_2 _ Hp), andb_false_r. }
  rewrite bind_lift_ok, bind_ret.
  assert (get_identifier (set_level new_exec lvl) = Ok name) as -> by done.
  rewrite bind_lift_ok. unfold missing_line_of. rewrite Hname. done.
Qed.

Lemma process_executions_on_empty config st position new_execs (kc : KC) lvls :
  existing_executions st = [] →
  level_assigner (levels st) new_execs = Some lvls →
  Forall (λ n, providerId n = None → ∀ i, index n = Some i → (0 ≤ i)%Z) new_execs →
  (0 ≤ position)%Z →
  ∃ st',
    process_executions true config st position new_execs kc = (Ok st', kc, [])
    ∧ existing_executions st' = []
    ∧ changed (rep st') = changed (rep st) || bool_decide (new_execs ≠ [])
    ∧ err_msg (rep st') = err_msg (rep st) ++ (missing_line_of config <$> new_execs)
    ∧ ∃ declared, visited st' = visited st ++ declared
                  ∧ level <$> declared = Some <$> lvls.
Proof.
  intros Hempty Hassign Hindex. revert st position lvls Hempty Hassign.
  induction Hindex as [|n rest Hn Hrest IH]; intros st position lvls Hempty Hassign Hpos.
  - injection Hassign as <-. exists st. simpl.
    rewrite orb_false_r, !app_nil_r. repeat split; auto. exists []. by rewrite app_nil_r.
  - cbn [level_assigner] in Hassign.
    destruct (node_identifier n) as [name|] eqn:Hname; [|done].
    destruct (node_level (levels st) n) as [lvl|] eqn:Hlvl; [|done].
    destruct (level_assigner (<[name:=lvl]> (levels st)) rest) as [lvls'|] eqn:Hrec;
      [|done].
    injection Hassign as <-.
    assert (providerId n = None → 0 ≤ default position (index n))%Z as Hidx.
    { intros Hp. destruct (index n) as [i|] eqn:Hi; simpl; [by apply Hn|done]. }
    pose proof (process_execution_on_empty config st position n kc name lvl
                  Hempty Hname Hlvl Hidx) as Hstep.
    cbn [process_executions]. rewrite (bind_ok _ _ _ _ _ _ Hstep).
    match type of Hstep with
    | _ = (Ok ?s, _, _) =>
        destruct (IH s (position + 1)%Z lvls' eq_refl Hrec ltac:(lia))
          as (st' & -> & He & Hch & Hmsg & d & Hvis & Hlev)
    end.
    exists st'. cbn [rep err_msg changed visited] in *.
    split; [done|]. split; [done|]. split; [by rewrite Hch, orb_true_r|].
    split; [by rewrite Hmsg, fmap_cons, <-app_assoc|].
    exists (set_level n lvl :: d). split; [by rewrite Hvis, <-app_assoc|].
    by rewrite !fmap_cons, Hlev.
Qed.

(** X21.  In check mode against a flow that has no execution yet, when
    every declared execution has a name and a parent declared before it
    and no declared sub-flow has a negative index, the pass returns after
    the read alone, with one line [is missing execution] for each declared
    execution, in order, and [changed] set as soon as there is one. *)
Theorem dry_run_on_an_empty_flow_lists_every_execution config new_execs (kc : KC) lvls :
  authenticationExecutions config = ExecsList new_execs →
  kc_read (alias config) kc = Some [] →
  level_assigner ∅ new_execs = Some lvls →
  Forall (λ n, providerId n = None → ∀ i, index n = Some i → (0 ≤ i)%Z) new_execs →
  ∃ r declared,
    create_or_update_executions true config kc
    = (Returns r declared, kc, [get_executions_representation (alias config)])
    ∧ changed r = bool_decide (new_execs ≠ [])
    ∧ err_msg r = missing_line_of config <$> new_execs
    ∧ level <$> declared = Some <$> lvls.
Proof.
  intros Hdeclared Hread Hassign Hindex.
  destruct (process_executions_on_empty config (PassState no_report ∅ [] []) 0%Z
              new_execs kc lvls eq_refl Hassign Hindex ltac:(lia))
    as (st' & Hloop & Hempty & Hch & Hmsg & declared & Hvis & Hlev).
  exists (rep st'), declared. split; [|done].
  unfold create_or_update_executions, reconcile. rewrite Hdeclared.
  assert (fetch (alias config) kc
          = (Ok [], kc, [get_executions_representation (alias config)])) as Hfetch.
  { unfold fetch. by rewrite Hread. }
  rewrite (bind_ok _ _ _ _ _ _ Hfetch). cbn [declared_executions].
  rewrite (bind_ok _ _ _ _ _ _ Hloop). rewrite Hempty.
  cbn [remove_extra_executions]. rewrite bind_ret. simpl in Hvis. by rewrite Hvis.
Qed.
End empty_flow.

Section negative_index.
Context `{KeycloakAPI KC} `{Imports}.

Lemma subflow_at_index_below existing_executions i :
  (i < - Z.of_nat (length existing_executions))%Z →
  subflow_at_index true i existing_executions = Raise IndexError.
Proof.
  intros Hi. unfold subflow_at_index. simpl.
  rewrite bool_decide_eq_true_2 by lia.
  unfold py_list_getitem, py_position.
  rewrite (bool_decide_eq_true_2 (i < 0)%Z) by lia.
  by rewrite bool_decide_eq_false_2 by lia.
Qed.

(** X22.  A declared sub-flow that is not found and whose explicit index
    is below minus the length of the working copy makes the pass fail, in
    either mode, on the [IndexError] of line 354: the index is compared
    with the length from above only. *)
Theorem subflow_index_below_the_flow_fails cm config pre new_exec post (kc : KC)
    existing st1 kc1 c1 levels' new_exec' name i :
  authenticationExecutions config = ExecsList (pre ++ new_exec :: post) →
  kc_read (alias config) kc = Some existing →
  process_executions cm config (PassState no_report ∅ existing []) 0%Z pre kc
    = (Ok st1, kc1, c1) →
  register_level (levels st1) new_exec = Ok (levels', new_exec') →
  find_exec_in_executions (to_dict new_exec') (existing_executions st1) = Ok (-1)%Z →
  providerId new_exec = None →
  displayName new_exec = Some name →
  index new_exec = Some i →
  (i < - Z.of_nat (length (existing_executions st1)))%Z →
  create_or_update_executions cm config kc
  = (fail_json IndexError, kc1, get_executions_representation (alias config) :: c1).
Proof.
  intros Hdeclared Hread Hpre Hreg Hfind Hp Hd Hi Hbelow.
  pose proof Hreg as Hreg'.
  apply register_level_returns in Hreg' as (name' & lvl & _ & _ & -> & ->).
  unfold create_or_update_executions, reconcile. rewrite Hdeclared.
  assert (fetch (alias config) kc
          = (Ok existing, kc, [get_executions_representation (alias config)])) as Hfetch.
  { unfold fetch. by rewrite Hread. }
  rewrite (bind_ok _ _ _ _ _ _ Hfetch). cbn [declared_executions].
  rewrite (bind_raise _ _ _ IndexError kc1 c1); [done|].
  rewrite process_executions_app. rewrite (bind_ok _ _ _ _ _ _ Hpre).
  cbn [process_executions].
  rewrite (bind_raise _ _ _ IndexError kc1 []); [by rewrite app_nil_r|].
  unfold process_execution. rewrite Hreg, bind_lift_ok. cbn [existing_executions].
  rewrite Hfind, bind_lift_ok. rewrite bool_decide_eq_false_2 by (by intros ?).
  unfold add_missing. cbn [providerId displayName flowAlias index set_level
    existing_executions rep levels visited].
  rewrite Hp, Hd, Hi. simpl default.
  rewrite bool_decide_eq_true_2 by (right; by eexists).
  rewrite !bool_decide_eq_true_2 by (done || by eexists). simpl andb.
  by rewrite subflow_at_index_below.
Qed.
End negative_index.

(** ** Idempotence: the pass after a pass that returned *)

Lemma find_exec_from_found i searched_exec executions j :
  (0 ≤ i)%Z →
  find_exec_from i searched_exec executions = Ok j →
  j ≠ (-1)%Z →
  ∃ existing_exec,
    (i ≤ j)%Z
    ∧ executions !! Z.to_nat (j - i) = Some existing_exec
    ∧ same_exec existing_exec searched_exec = Ok true.
Proof.
  revert i. induction executions as [|e rest IH]; intros i Hi; simpl.
  - by intros [= <-].
  - destruct (same_exec e searched_exec) as [[|]|] eqn:He; [| |done].
    + intros [= <-] _. exists e. rewrite Z.sub_diag. repeat split; auto; lia.
    + intros Hrest Hj. apply IH in Hrest as (x & Hij & Hx & ?); [|lia|done].
      exists x. repeat split; auto; try lia.
      replace (Z.to_nat (j - i)) with (S (Z.to_nat (j - (i + 1)))) by lia. done.
Qed.

Lemma find_exec_from_cleared i searched_exec executions n existing_exec :
  (∀ j, j < n → executions !! j = Some ∅) →
  executions !! n = Some existing_exec →
  same_exec existing_exec searched_exec = Ok true →
  find_exec_from i searched_exec executions = Ok (i + Z.of_nat n)%Z.
Proof.
  revert i executions. induction n as [|n IH]; intros i executions Hcl Hn He.
  - destruct executions as [|e rest]; [done|]. injection Hn as ->.
    simpl. rewrite He. f_equal. lia.
  - destruct executions as [|e rest]; [done|].
    assert (e = ∅) as ->. { specialize (Hcl 0 ltac:(lia)). by injection Hcl. }
    simpl. unfold same_exec at 1, same_name. rewrite !lookup_empty. simpl.
    rewrite (IH (i + 1)%Z rest).
    + f_equal. lia.
    + intros j Hj. apply (Hcl (S j)). lia.
    + done.
    + done.
Qed.

Lemma same_exec_agree_existing existing_exec existing_exec' searched_exec :
  (∀ key, key ≠ "authenticationConfig" → existing_exec' !! key = existing_exec !! key) →
  same_exec existing_exec' searched_exec = same_exec existing_exec searched_exec.
Proof.
  intros Hagree. unfold same_exec, same_name, py_getitem.
  by rewrite !Hagree by done.
Qed.

Section convergence.
Context `{KeycloakAPI KC} `{Imports}.

Lemma register_level_set_level levels new_exec levels' new_exec' :
  register_level levels new_exec = Ok (levels', new_exec') →
  ∃ lvl, new_exec' = set_level new_exec lvl.
Proof.
  intros Hreg. apply register_level_returns in Hreg as (name & lvl & _ & _ & _ & ->).
  by exists lvl.
Qed.

(** A step of a returning pass outside check mode: the execution is
    found at its index and is included in the entry there. *)
Lemma process_execution_returns_matched config st position new_exec (kc : KC) st1 kc1 c1 :
  process_execution false config st position new_exec kc = (Ok st1, kc1, c1) →
  ∃ levels' lvl existing_exec id,
    register_level (levels st) new_exec = Ok (levels', set_level new_exec lvl)
    ∧ find_exec_in_executions (to_dict (set_level new_exec lvl)) (existing_executions st)
      = Ok (default position (index new_exec))
    ∧ default position (index new_exec) ≠ (-1)%Z
    ∧ py_list_getitem (existing_executions st) (default position (index new_exec))
      = Ok existing_exec
    ∧ is_struct_included (to_dict (set_level new_exec lvl)) existing_exec
        (exclude_keys (set_level new_exec lvl)) = true
    ∧ existing_exec !! "id" = Some id
    ∧ levels st1 = levels'
    ∧ existing_executions st1
      = clear_at (existing_executions st) (default position (index new_exec))
    ∧ visited st1 = visited st ++ [set_id (set_level new_exec lvl) id].
Proof.
  intros Hrun. unfold process_execution in Hrun. inv_run.
  - match goal with
    | Hreg : register_level _ _ = _ |- _ =>
        pose proof Hreg as Hreg'; apply register_level_set_level in Hreg' as [lvl ->]
    end.
    unfold update_existing in Hrun. cbn [existing_executions levels rep visited] in Hrun.
    inv_run; simplify_eq/=;
    repeat match goal with
    | H : push_changes false _ _ _ _ _ _ = _ |- _ => by apply push_changes_never_returns in H
    | H : _ || true = false |- _ => by rewrite orb_true_r in H
    end.
    match goal with
    | H : _ || _ = false |- _ => apply orb_false_iff in H as [Hincl Hidx]
    end.
    apply negb_false_iff in Hincl.
    match goal with
    | H : bool_decide (_ ≠ _) = false |- _ => apply bool_decide_eq_false in H; apply dec_stable in H
    end.
    subst.
    match goal with
    | H : py_getitem _ "id" = Ok _ |- _ =>
        unfold py_getitem in H; destruct (_ !! "id") as [id|] eqn:Hid; [|done];
        injection H as <-
    end.
    eexists _, lvl, _, id. repeat split; eauto.
    by apply bool_decide_eq_true in Heqb.
  - exfalso.
    match goal with
    | Hreg : register_level _ _ = _ |- _ =>
        apply register_level_returns in Hreg as (name & lvl & Hname & _ & -> & ->)
    end.
    unfold add_missing in Hrun. cbn [providerId displayName set_level] in Hrun.
    inv_run; simplify_eq/=;
      try (unfold rename_subflow in *; inv_run; simplify_eq/=);
      try (unfold create_missing in *; inv_run; simplify_eq/=).
    unfold get_identifier in Hname.
    match goal with
    | H : bool_decide _ = false |- _ => apply bool_decide_eq_false in H
    end.
    destruct (providerId new_exec); [naive_solver|].
    destruct (displayName new_exec); [naive_solver|]. done.
Qed.

(** A step on an entry that is settled. *)
Lemma process_execution_settled cm config st position new_exec (kc : KC)
    levels' lvl existing_exec id :
  register_level (levels st) new_exec = Ok (levels', set_level new_exec lvl) →
  find_exec_in_executions (to_dict (set_level new_exec lvl)) (existing_executions st)
    = Ok (default position (index new_exec)) →
  default position (index new_exec) ≠ (-1)%Z →
  py_list_getitem (existing_executions st) (default position (index new_exec))
    = Ok existing_exec →
  is_struct_included (to_dict (set_level new_exec lvl)) existing_exec
    (exclude_keys (set_level new_exec lvl)) = true →
  existing_exec !! "id" = Some id →
  (∀ new_config, authenticationConfig new_exec = Some new_config →
     config_differs new_config existing_exec = Ok false) →
  process_execution cm config st position new_exec kc
  = (Ok (PassState (rep st) levels'
           (clear_at (existing_executions st) (default position (index new_exec)))
           (visited st ++ [set_id (set_level new_exec lvl) id])), kc, []).
Proof.
  intros Hreg Hfind Hfound Hentry Hincl Hid Hcfg.
  unfold process_execution. rewrite Hreg, bind_lift_ok. cbn [existing_executions].
  rewrite Hfind, bind_lift_ok. rewrite bool_decide_eq_true_2 by done.
  unfold update_existing. cbn [existing_executions rep levels visited].
  rewrite Hentry, bind_lift_ok. rewrite Hincl.
  rewrite (bool_decide_eq_false_2 (default position (index new_exec)
                                   ≠ default position (index new_exec))) by auto.
  cbn [negb orb]. unfold py_getitem. rewrite Hid, bind_lift_ok.
  unfold push_config. cbn [authenticationConfig set_id set_level].
  destruct (authenticationConfig new_exec) as [new_config|] eqn:Hnew.
  - rewrite (Hcfg new_config eq_refl). rewrite bind_assoc, bind_lift_ok.
    by rewrite !bind_ret.
  - by rewrite !bind_ret.
Qed.

Lemma clear_at_position (l : list dict) (i : nat) :
  clear_at l (Z.of_nat i) = <[i := ∅]> l.
Proof.
  unfold clear_at, py_position. rewrite bool_decide_eq_false_2 by lia.
  by rewrite Nat2Z.id.
Qed.

Lemma py_list_getitem_position {A} (l : list A) (i : nat) x :
  py_list_getitem l (Z.of_nat i) = Ok x ↔ l !! i = Some x.
Proof.
  unfold py_list_getitem, py_position.
  rewrite (bool_decide_eq_false_2 (Z.of_nat i < 0)%Z) by lia. cbv zeta.
  rewrite (bool_decide_eq_true_2 (0 ≤ Z.of_nat i)%Z) by lia. rewrite Nat2Z.id.
  destruct (l !! i); split; congruence.
Qed.

Lemma default_in_place pre new_exec rest :
  indexed_in_place (pre ++ new_exec :: rest) →
  default (Z.of_nat (length pre)) (index new_exec) = Z.of_nat (length pre).
Proof.
  intros Hidx. destruct (index new_exec) as [j|] eqn:Hj; [|done]. simpl.
  apply (Hidx (length pre) new_exec j); [|done].
  by rewrite list_lookup_middle.
Qed.

(** The loop of a pass that returned outside check mode, run again on
    what the remote side then shows. *)
Lemma process_executions_converge cm config existing existing' rest :
  ignores_excluded_keys →
  ∀ pre st st' (kc kc' : KC) st1 kc1 c1,
    indexed_in_place (pre ++ rest) →
    settled (pre ++ rest) existing existing' →
    levels st' = levels st →
    visited st' = visited st →
    (∀ j, length pre ≤ j → existing_executions st !! j = existing !! j) →
    length (existing_executions st') = length existing' →
    (∀ j, j < length pre → j < length existing' →
       existing_executions st' !! j = Some ∅) →
    (∀ j, length pre ≤ j → existing_executions st' !! j = existing' !! j) →
    process_executions false config st (Z.of_nat (length pre)) rest kc = (Ok st1, kc1, c1) →
    ∃ st1',
      process_executions cm config st' (Z.of_nat (length pre)) rest kc' = (Ok st1', kc', [])
      ∧ rep st1' = rep st'
      ∧ visited st1' = visited st1
      ∧ Forall (λ e, e = ∅) (existing_executions st1').
Proof.
  intros Hignore. induction rest as [|new_exec rest IH];
    intros pre st st' kc kc' st1 kc1 c1 Hidx Hsettled Hlev Hvis Hw Hlen Hcleared Hw' Hrun.
  - simpl in Hrun. inv_run. subst. exists st'. repeat split; auto.
    rewrite app_nil_r in Hsettled. destruct Hsettled as [Hlen' _].
    apply Forall_lookup. intros j e Hj. 
    assert (j < length existing') as Hlt.
    { rewrite <- Hlen. by eapply lookup_lt_Some. }
    rewrite Hcleared in Hj by lia. congruence.
  - simpl in Hrun.
    apply bind_returns in Hrun as (st0 & kc0 & c0 & c2 & Hstep0 & Hrest & ->).
    apply process_execution_returns_matched in Hstep0
      as (levels' & lvl & existing_exec & id & Hreg & Hfind & Hfound & Hentry
          & Hincl & Hid & Hlev1 & Hw1 & Hvis1).
    rewrite (default_in_place _ _ _ Hidx) in *.
    apply py_list_getitem_position in Hentry.
    rewrite Hw in Hentry by lia.
    destruct Hsettled as [Hlen' Hsettled].
    assert (length pre < length existing') as Hlt.
    { rewrite Hlen', length_app. simpl. lia. }
    destruct (lookup_lt_is_Some_2 existing' (length pre) Hlt) as [settled_exec Hs].
    destruct (Hsettled (length pre) new_exec existing_exec settled_exec)
      as [Hagree Hcfg]; [by rewrite list_lookup_middle|done|done|].
    assert (find_exec_in_executions (to_dict (set_level new_exec lvl))
              (existing_executions st') = Ok (Z.of_nat (length pre))) as Hfind'.
    { unfold find_exec_in_executions in *.
      apply find_exec_from_found in Hfind as (e0 & _ & He0 & Hsame); [|lia|done].
      rewrite Z.sub_0_r, Nat2Z.id, Hw, Hentry in He0 by lia. injection He0 as <-.
      rewrite (find_exec_from_cleared 0 _ _ (length pre) settled_exec); [done| | |].
      - intros j Hj. apply Hcleared; lia.
      - by rewrite Hw' by lia.
      - by rewrite (same_exec_agree_existing existing_exec). }
    pose proof (process_execution_settled cm config st' (Z.of_nat (length pre)) new_exec kc'
                  levels' lvl settled_exec id) as Hstep.
    rewrite (default_in_place _ _ _ Hidx) in Hstep.
    rewrite Hlev in Hstep. specialize (Hstep Hreg Hfind' Hfound).
    rewrite py_list_getitem_position, Hw' in Hstep by lia.
    specialize (Hstep Hs).
    rewrite <- (Hignore _ existing_exec settled_exec) in Hstep.
    2:{ intros key Hkey. symmetry. apply Hagree. intros ->. apply Hkey.
        unfold exclude_keys. set_solver. }
    specialize (Hstep Hincl). rewrite Hagree in Hstep by done.
    specialize (Hstep Hid Hcfg).
    replace (Z.of_nat (length pre) + 1)%Z
      with (Z.of_nat (length (pre ++ [new_exec]))) in Hrest
      by (rewrite length_app; simpl; lia).
    destruct (IH (pre ++ [new_exec]) st0
                (PassState (rep st') levels'
                   (clear_at (existing_executions st') (Z.of_nat (length pre)))
                   (visited st' ++ [set_id (set_level new_exec lvl) id]))
                kc0 kc' st1 kc1 c2) as (st1' & Hrun' & Hrep' & Hvis' & Hall).
    + by rewrite <- app_assoc.
    + rewrite <- app_assoc. by split.
    + simpl. symmetry. exact Hlev1.
    + simpl. rewrite Hvis1, Hvis. reflexivity.
    + intros j Hj. rewrite length_app in Hj. simpl in Hj.
      rewrite Hw1, clear_at_position, list_lookup_insert_ne by lia.
      apply Hw. lia.
    + simpl. rewrite clear_at_position, length_insert. exact Hlen.
    + intros j Hj Hj'. rewrite length_app in Hj. simpl in Hj. simpl.
      rewrite clear_at_position.
      destruct (decide (j = length pre)) as [->|Hne].
      * rewrite list_lookup_insert_eq; [done|]. lia.
      * rewrite list_lookup_insert_ne by lia. apply Hcleared; lia.
    + intros j Hj. rewrite length_app in Hj. simpl in Hj. simpl.
      rewrite clear_at_position, list_lookup_insert_ne by lia. apply Hw'. lia.
    + exact Hrest.
    + exists st1'. split; [|by split].
      simpl. unfold mbind, M_bind. rewrite Hstep.
      replace (Z.of_nat (length pre) + 1)%Z
        with (Z.of_nat (length (pre ++ [new_exec])))
        by (rewrite length_app; simpl; lia).
      by rewrite Hrun'.
Qed.

Lemma remove_extra_executions_cleared cm config r existing (kc : KC) :
  Forall (λ e, e = ∅) existing →
  remove_extra_executions cm config r existing kc = (Ok r, kc, []).
Proof.
  induction 1 as [|e rest -> _ IH]; [done|].
  simpl. unfold remove_extra_execution.
  rewrite (bool_decide_eq_false_2 ((∅ : dict) ≠ ∅)) by auto.
  by rewrite bind_ret.
Qed.

End convergence.

(** ** [main] *)

Section main_facts.
Context `{KeycloakAPI KC} `{KeycloakFlows KC} `{Imports}.

Lemma main_bind_inr {A B} (m : Main KC A) (f : A → Main KC B) kc a kc1 c1 :
  m kc = (inr a, kc1, c1) →
  (m ≫= f) kc = (let '(r, kc2, c2) := f a kc1 in (r, kc2, c1 ++ c2)).
Proof. intros Hm. unfold mbind, Main_bind. by rewrite Hm. Qed.

Lemma main_bind_inl {A B} (m : Main KC A) (f : A → Main KC B) kc e kc1 c1 :
  m kc = (inl e, kc1, c1) → (m ≫= f) kc = (inl e, kc1, c1).
Proof. intros Hm. unfold mbind, Main_bind. by rewrite Hm. Qed.

Lemma main_bind_ret {A B} (a : A) (f : A → Main KC B) kc :
  (mret a ≫= f) kc = f a kc.
Proof.
  unfold mbind, Main_bind, mret, Main_ret. by destruct (f a kc) as [[r kc'] c].
Qed.

Lemma harmless_ret {A} (a : A) : harmless (mret a : Main KC A).
Proof. intros kc. split; [done|constructor]. Qed.

Lemma harmless_ended {A} e : harmless (ended e : Main KC A).
Proof. intros kc. split; [done|constructor]. Qed.

Lemma harmless_escapes {A} (r : result A) : harmless (escapes r : Main KC A).
Proof. destruct r; [apply harmless_ret|apply harmless_ended]. Qed.

Lemma harmless_bind {A B} (m : Main KC A) (f : A → Main KC B) :
  harmless m → (∀ a, harmless (f a)) → harmless (m ≫= f).
Proof.
  intros Hm Hf kc. destruct (Hm kc) as [Hkc Hc]. unfold mbind, Main_bind.
  destruct (m kc) as [[[e|a] kc1] c1]; simpl in *; [done|]. subst kc1.
  destruct (Hf a kc) as [Hkc' Hc'].
  destruct (f a kc) as [[r kc2] c2]. simpl in *. split; [done|]. by apply Forall_app.
Qed.

Lemma harmless_bind_ended {A B} e (f : A → Main KC B) : harmless (ended e ≫= f).
Proof. intros kc. split; [done|constructor]. Qed.

Lemma harmless_connect p : harmless (connect p).
Proof. intros kc. unfold connect. destruct (get_token p kc); split; by try constructor. Qed.

Lemma harmless_lookup flow :
  harmless (flow_op (get_authentication_flow_by_alias flow)
              (λ kc, (., kc) <$> kc_flow_by_alias flow kc)).
Proof.
  intros kc. unfold flow_op. destruct (kc_flow_by_alias flow kc); simpl;
    (split; [done|by repeat constructor]).
Qed.

Lemma harmless_run_pass config : harmless (run_pass true config).
Proof.
  intros kc. unfold run_pass, create_or_update_executions.
  destruct (check_mode_calls config kc) as (r & calls & -> & Hcalls).
  assert (Forall (λ c, main_mutating c = false) (on_executions <$> calls)) as Hall.
  { destruct Hcalls as [->| ->]; by repeat constructor. }
  by destruct r as [[r declared]|e].
Qed.

Lemma harmless_with_executions p auth_repr : harmless (with_executions p auth_repr).
Proof.
  intros kc. unfold with_executions. destruct (kc_read (param_alias p) kc); simpl;
    (split; [done|by repeat constructor]).
Qed.

(** X14.  In check mode [main] leaves the remote side as it found it:
    whatever the parameters and the state of the flow, the only calls are
    the lookup of the flow and reads of its executions. *)
Theorem main_in_check_mode_changes_nothing module (kc : KC) :
  check_mode module = true →
  (main module kc).1.2 = kc
  ∧ Forall (λ c, main_mutating c = false) (main module kc).2.
Proof.
  intros Hcm.
  assert (∀ result, harmless (missing module result)) as Hmissing.
  { intros result. unfold missing. rewrite Hcm.
    destruct (state (params module));
      [apply harmless_ended|apply harmless_bind_ended|apply harmless_ret]. }
  assert (∀ result auth_repr, harmless (found module result auth_repr)) as Hfound.
  { intros result auth_repr. unfold found. rewrite Hcm.
    destruct (state (params module)); try apply harmless_bind_ended.
    apply harmless_bind.
    - destruct (force (params module)); [apply harmless_bind_ended|apply harmless_ret].
    - intros [result' auth_repr']. apply harmless_bind; [apply harmless_run_pass|].
      intros [r declared]. apply harmless_bind; [apply harmless_with_executions|].
      intros end_state. apply harmless_ret. }
  assert (harmless (main_body module)) as Hbody.
  { unfold main_body. apply harmless_bind; [apply harmless_connect|]. intros _.
    apply harmless_bind; [apply harmless_lookup|]. intros [auth_repr|]; [|apply Hmissing].
    case_bool_decide; [apply Hmissing|apply Hfound]. }
  specialize (Hbody kc). unfold main.
  by destruct (main_body module kc) as [[[e|result] kc'] calls].
Qed.

Lemma connect_ok p (kc : KC) u : get_token p kc = inl u → connect p kc = (inr tt, kc, []).
Proof. intros Htoken. unfold connect. by rewrite Htoken. Qed.

Lemma lookup_ok flow (kc : KC) auth_repr :
  kc_flow_by_alias flow kc = Some auth_repr →
  flow_op (get_authentication_flow_by_alias flow)
    (λ kc, (., kc) <$> kc_flow_by_alias flow kc) kc
  = (inr auth_repr, kc, [on_flow (get_authentication_flow_by_alias flow)]).
Proof. intros Hflow. unfold flow_op. by rewrite Hflow. Qed.

(** [main] up to the branch on [auth_repr]. *)
Lemma main_prologue {A} p (k : option dict → Main KC A) (kc : KC) u auth_repr :
  get_token p kc = inl u →
  kc_flow_by_alias (param_alias p) kc = Some auth_repr →
  (connect p ≫= λ _,
     flow_op (get_authentication_flow_by_alias (param_alias p))
       (λ kc, (., kc) <$> kc_flow_by_alias (param_alias p) kc) ≫= k) kc
  = (let '(r, kc2, c2) := k auth_repr kc in
     (r, kc2, on_flow (get_authentication_flow_by_alias (param_alias p)) :: c2)).
Proof.
  intros Htoken Hflow.
  rewrite (main_bind_inr _ _ _ _ _ _ (connect_ok _ _ _ Htoken)).
  rewrite (main_bind_inr _ _ _ _ _ _ (lookup_ok _ _ _ Hflow)).
  by destruct (k auth_repr kc) as [[r kc2] c2].
Qed.

(** X15.  An existing flow is deleted for every [state] other than
    [present], [exact] as well as [absent]: outside check mode [main]
    looks the flow up, deletes it by its id and exits with [changed] set
    and the message of the deletion; the executions are not looked at. *)
Theorem any_state_but_present_deletes_the_flow module (kc : KC) u auth_repr id kc' :
  state (params module) ≠ present →
  check_mode module = false →
  get_token (params module) kc = inl u →
  kc_flow_by_alias (param_alias (params module)) kc = Some (Some auth_repr) →
  auth_repr !! "id" = Some id →
  kc_delete_flow id kc = Some kc' →
  main module kc
  = (exit_json
       (ModuleResult true
          (VStr ("Authentication flow: " +:+ param_alias (params module) +:+ " id: "
                 +:+ py_str id +:+ " is deleted"))
          ∅
          (if diff_mode module then Some (VDict auth_repr, VStr "") else None)
          None),
     kc',
     [on_flow (get_authentication_flow_by_alias (param_alias (params module)));
      on_flow (delete_authentication_flow_by_id id)]).
Proof.
  intros Hstate Hcm Htoken Hflow Hid Hdelete. unfold main, main_body.
  rewrite (main_prologue _ _ _ _ _ Htoken Hflow).
  rewrite bool_decide_eq_false_2 by (intros ->; by rewrite lookup_empty in Hid).
  assert (found module (ModuleResult false (VStr "") ∅ None None) auth_repr kc
          = (inr (ModuleResult true
                    (VStr ("Authentication flow: " +:+ param_alias (params module)
                           +:+ " id: " +:+ py_str id +:+ " is deleted"))
                    ∅
                    (if diff_mode module then Some (VDict auth_repr, VStr "") else None)
                    None),
             kc', [on_flow (delete_authentication_flow_by_id id)])) as ->; [|done].
  unfold found. rewrite Hcm.
  destruct (state (params module)); [|done|];
    rewrite main_bind_ret; unfold py_getitem; rewrite Hid; simpl;
    rewrite main_bind_ret;
    unfold mbind, Main_bind, flow_op; rewrite Hdelete; simpl;
    unfold with_diff; by destruct (diff_mode module).
Qed.

(** X16.  With [state = exact] and no such flow, [main] does nothing:
    after the lookup it exits with the initial result, [changed] unset and
    an empty message; nothing is created. *)
Theorem state_exact_creates_nothing module (kc : KC) u auth_repr :
  state (params module) = exact →
  get_token (params module) kc = inl u →
  kc_flow_by_alias (param_alias (params module)) kc = Some auth_repr →
  auth_repr = None ∨ auth_repr = Some ∅ →
  main module kc
  = (exit_json (ModuleResult false (VStr "") ∅ None None), kc,
     [on_flow (get_authentication_flow_by_alias (param_alias (params module)))]).
Proof.
  intros Hstate Htoken Hflow Hnone. unfold main, main_body.
  rewrite (main_prologue _ _ _ _ _ Htoken Hflow).
  assert (missing module (ModuleResult false (VStr "") ∅ None None) kc
          = (inr (ModuleResult false (VStr "") ∅ None None), kc, [])) as Hmissing.
  { unfold missing. by rewrite Hstate. }
  destruct Hnone as [-> | ->]; rewrite ?bool_decide_eq_true_2 by done;
    by rewrite Hmissing.
Qed.

(** X17.  When the flow exists, [state] is [present] and [force] is not
    set, an [exit_json] of [main] reports what the pass has returned:
    [changed] is its flag, [msg] its lines, the diff its two sides; the
    calls are the lookup, those of the pass and one more read, whose list
    is laid into the end state. *)
Theorem main_update_reports_the_pass module (kc : KC) u auth_repr r kc' calls :
  state (params module) = present →
  force (params module) = false →
  get_token (params module) kc = inl u →
  kc_flow_by_alias (param_alias (params module)) kc = Some (Some auth_repr) →
  auth_repr ≠ ∅ →
  main module kc = (exit_json r, kc', calls) →
  ∃ rep declared c1 exec_repr,
    create_or_update_executions (check_mode module) (config_of (params module)) kc
      = (Returns rep declared, kc', c1)
    ∧ kc_read (param_alias (params module)) kc' = Some exec_repr
    ∧ calls = on_flow (get_authentication_flow_by_alias (param_alias (params module)))
              :: (on_executions <$> c1)
              ++ [on_executions (get_executions_representation (param_alias (params module)))]
    ∧ r = ModuleResult (changed rep) (VList (VStr <$> err_msg rep)) ∅
            (if diff_mode module then Some (VStr (before rep), VStr (after rep)) else None)
            (Some (VDict (<["authenticationExecutions" := VList (VDict <$> exec_repr)]>
                            auth_repr))).
Proof.
  intros Hstate Hforce Htoken Hflow Hne. unfold main, main_body.
  rewrite (main_prologue _ _ _ _ _ Htoken Hflow).
  rewrite bool_decide_eq_false_2 by done.
  unfold found. rewrite Hstate, Hforce, main_bind_ret.
  unfold mbind, Main_bind, run_pass.
  destruct (create_or_update_executions _ _ kc) as [[[rep declared|e] kc1] c1]; [|done].
  unfold with_executions.
  destruct (kc_read (param_alias (params module)) kc1) as [exec_repr|] eqn:Hread; [|done].
  simpl. intros [= <- <- <-]. exists rep, declared, c1, exec_repr.
  repeat split; auto. unfold with_diff. by destruct (diff_mode module).
Qed.

Lemma create_flow_never_exits p result (kc : KC) r kc1 c1 :
  create_flow p result kc ≠ (inl (exit_json r), kc1, c1).
Proof.
  unfold create_flow, mbind, Main_bind, flow_op.
  by destruct (kc_create_flow p kc) as [[[auth_repr|] kc2]|].
Qed.

(** X18.  When there is no such flow and [state] is [present], every
    [exit_json] of [main] has [changed] set and an empty message: the
    triple the pass returns is not used. *)
Theorem main_creation_drops_the_report module (kc : KC) u auth_repr r kc' calls :
  state (params module) = present →
  get_token (params module) kc = inl u →
  kc_flow_by_alias (param_alias (params module)) kc = Some auth_repr →
  auth_repr = None ∨ auth_repr = Some ∅ →
  main module kc = (exit_json r, kc', calls) →
  result_changed r = true ∧ result_msg r = VStr "".
Proof.
  intros Hstate Htoken Hflow Hnone. unfold main, main_body.
  rewrite (main_prologue _ _ _ _ _ Htoken Hflow).
  assert (∀ result,
    result_msg result = VStr "" →
    match missing module result kc with
    | (inl (exit_json r), _, _) | (inr r, _, _) =>
        result_changed r = true ∧ result_msg r = VStr ""
    | _ => True
    end) as Hmissing.
  { intros result Hmsg. unfold missing. rewrite Hstate.
    destruct (check_mode module).
    { simpl. unfold with_diff. by destruct (diff_mode module). }
    rewrite main_bind_ret. unfold mbind, Main_bind.
    pose proof (create_flow_never_exits (params module)
      (with_diff module (set_changed result true) (VStr "")
         (VDict (new_auth_repr (params module)
                   (param_authenticationExecutions (params module))))) kc) as Hnever.
    destruct (create_flow _ _ kc) as [[[e|new_flow] kc1] c1].
    { destruct e; try done. by destruct (Hnever result0 kc1 c1). }
    unfold run_pass.
    destruct (create_or_update_executions _ _ kc1) as [[[rep declared|e] kc2] c2]; [|done].
    unfold with_executions. destruct (kc_read _ kc2); [|done].
    simpl. unfold with_diff. by destruct (diff_mode module). }
  specialize (Hmissing (ModuleResult false (VStr "") ∅ None None) eq_refl).
  destruct Hnone as [-> | ->]; rewrite ?bool_decide_eq_true_2 by done;
    destruct (missing _ _ kc) as [[[e|r0] kc1] c1]; intros [= -> <- <-]; done.
Qed.

(** X19.  Outside check mode, when the flow was missing and has been
    created, a pass that fails ends the module in its [fail_json]: the
    remote side is left with the new flow and with what the pass has done
    up to its failure. *)
Theorem failed_pass_leaves_the_flow_created module (kc : KC) u auth_repr new_flow kc1
    e kc2 c :
  state (params module) = present →
  check_mode module = false →
  get_token (params module) kc = inl u →
  kc_flow_by_alias (param_alias (params module)) kc = Some auth_repr →
  auth_repr = None ∨ auth_repr = Some ∅ →
  kc_create_flow (params module) kc = Some (Some new_flow, kc1) →
  create_or_update_executions false (config_of (params module)) kc1 = (fail_json e, kc2, c) →
  main module kc
  = (pass_failed e, kc2,
     on_flow (get_authentication_flow_by_alias (param_alias (params module)))
       :: on_flow (flow_creation_call (params module)) :: (on_executions <$> c)).
Proof.
  intros Hstate Hcm Htoken Hflow Hnone Hcreate Hpass. unfold main, main_body.
  rewrite (main_prologue _ _ _ _ _ Htoken Hflow).
  assert (∀ result, missing module result kc
          = (inl (pass_failed e), kc2,
             on_flow (flow_creation_call (params module)) :: (on_executions <$> c)))
    as Hmissing.
  { intros result. unfold missing. rewrite Hstate, Hcm, main_bind_ret.
    unfold create_flow, mbind, Main_bind, flow_op, run_pass.
    rewrite Hcreate. unfold mret, Main_ret. cbn beta iota. by rewrite Hpass. }
  destruct Hnone as [-> | ->]; rewrite ?bool_decide_eq_true_2 by done;
    by rewrite Hmissing.
Qed.

(** X20.  Run with [state = present] and without [force] on an existing
    flow, outside check mode and with no ["authenticationExecutions"]
    given, [main] removes every execution of the flow (each carrying its
    display name, level and id, the remote side carrying out the reads
    and removals) and reports one line for each. *)
Theorem main_without_executions_empties_the_flow module (kc : KC) u auth_repr existing :
  state (params module) = present →
  force (params module) = false →
  check_mode module = false →
  param_authenticationExecutions (params module) = None →
  get_token (params module) kc = inl u →
  kc_flow_by_alias (param_alias (params module)) kc = Some (Some auth_repr) →
  auth_repr ≠ ∅ →
  kc_read (param_alias (params module)) kc = Some existing →
  Forall (λ e, e ≠ ∅ → removable e) existing →
  removals_succeed →
  (∀ kc1 : KC, is_Some (kc_read (param_alias (params module)) kc1)) →
  ∃ r kc',
    main module kc
    = (exit_json r, kc',
       on_flow (get_authentication_flow_by_alias (param_alias (params module)))
         :: (on_executions <$>
               get_executions_representation (param_alias (params module))
                 :: (orphan_call <$> orphans existing))
         ++ [on_executions (get_executions_representation (param_alias (params module)))])
    ∧ result_changed r = bool_decide (orphans existing ≠ [])
    ∧ result_msg r
      = VList (VStr <$> (orphan_line (config_of (params module)) <$> orphans existing)).
Proof.
  intros Hstate Hforce Hcm Hnone Htoken Hflow Hne Hread Hall Hdel Hreads.
  destruct (remove_extra_executions_removes false (config_of (params module)) no_report
              existing kc Hall Hdel) as (rp & kc' & Hextra & Hch & Hmsg & _).
  assert (create_or_update_executions false (config_of (params module)) kc
          = (Returns rp [], kc',
             get_executions_representation (param_alias (params module))
               :: (orphan_call <$> orphans existing))) as Hpass.
  { unfold create_or_update_executions, reconcile, config_of. rewrite Hnone.
    cbn [from_option authenticationExecutions alias].
    assert (fetch (param_alias (params module)) kc
            = (Ok existing, kc,
               [get_executions_representation (param_alias (params module))])) as Hfetch.
    { unfold fetch. by rewrite Hread. }
    rewrite (bind_ok _ _ _ _ _ _ Hfetch).
    cbn [declared_executions process_executions]. rewrite bind_ret.
    cbn [rep existing_executions visited].
    unfold config_of in Hextra. rewrite Hnone in Hextra.
    rewrite (bind_ok _ _ _ _ _ _ Hextra). simpl. by rewrite app_nil_r. }
  destruct (Hreads kc') as [exec_repr Hagain].
  eexists _, kc'. split.
  - unfold main, main_body.
    rewrite (main_prologue _ _ _ _ _ Htoken Hflow).
    rewrite bool_decide_eq_false_2 by done.
    unfold found. rewrite Hstate, Hforce, Hcm, main_bind_ret.
    unfold mbind, Main_bind, run_pass, with_executions. rewrite Hpass, Hagain.
    simpl. reflexivity.
  - simpl. rewrite Hmsg. simpl. split; [|done].
    unfold with_diff. destruct (diff_mode module); simpl; by rewrite Hch.
Qed.
End main_facts.

(** ** [main] with [force], and in check mode *)

Section main_force.
Context `{KeycloakAPI KC} `{KeycloakFlows KC} `{Imports}.

(** X23.  With [force], outside check mode, an existing flow is deleted
    by its id and created anew before the pass runs; when the pass
    returns, [main] exits with [changed] set whatever the pass has found,
    with its lines and its diff, and with the new flow and the executions
    read last as end state. *)
Theorem main_force_recreates_the_flow module (kc : KC) u auth_repr id kc1 new_flow kc2
    rep declared kc3 c exec_repr :
  state (params module) = present →
  force (params module) = true →
  check_mode module = false →
  get_token (params module) kc = inl u →
  kc_flow_by_alias (param_alias (params module)) kc = Some (Some auth_repr) →
  auth_repr !! "id" = Some id →
  kc_delete_flow id kc = Some kc1 →
  kc_create_flow (params module) kc1 = Some (Some new_flow, kc2) →
  create_or_update_executions false (config_of (params module)) kc2
    = (Returns rep declared, kc3, c) →
  kc_read (param_alias (params module)) kc3 = Some exec_repr →
  main module kc
  = (exit_json
       (ModuleResult true (VList (VStr <$> err_msg rep)) ∅
          (if diff_mode module then Some (VStr (before rep), VStr (after rep)) else None)
          (Some (VDict (<["authenticationExecutions" := VList (VDict <$> exec_repr)]>
                          new_flow)))),
     kc3,
     on_flow (get_authentication_flow_by_alias (param_alias (params module)))
       :: on_flow (delete_authentication_flow_by_id id)
       :: on_flow (flow_creation_call (params module))
       :: (on_executions <$> c)
       ++ [on_executions (get_executions_representation (param_alias (params module)))]).
Proof.
  intros Hstate Hforce Hcm Htoken Hflow Hid Hdelete Hcreate Hpass Hread.
  unfold main, main_body.
  rewrite (main_prologue _ _ _ _ _ Htoken Hflow).
  rewrite bool_decide_eq_false_2 by (intros ->; by rewrite lookup_empty in Hid).
  unfold found. rewrite Hstate, Hforce, Hcm.
  unfold py_getitem. rewrite Hid.
  unfold create_flow, run_pass, with_executions, escapes, flow_op, mbind, Main_bind,
    mret, Main_ret.
  rewrite Hdelete. change (pair () <$> Some kc1) with (Some (tt, kc1)).
  cbn beta iota. rewrite Hcreate. cbn beta iota.
  rewrite Hpass. cbn beta iota. rewrite Hread. cbn beta iota.
  unfold with_diff. destruct (diff_mode module); simpl; by rewrite ?app_nil_r.
Qed.

(** X24.  In check mode, wherever [main] would create, re-create or
    delete the flow, it exits right after the lookup with [changed] set
    and an empty message: the executions are neither read nor compared. *)
Theorem main_check_mode_stops_at_the_flow module (kc : KC) u auth_repr :
  check_mode module = true →
  get_token (params module) kc = inl u →
  kc_flow_by_alias (param_alias (params module)) kc = Some auth_repr →
  ((auth_repr = None ∨ auth_repr = Some ∅) ∧ state (params module) = present)
  ∨ (∃ d, auth_repr = Some d ∧ d ≠ ∅
          ∧ (state (params module) ≠ present ∨ force (params module) = true)) →
  ∃ diff,
    main module kc
    = (exit_json (ModuleResult true (VStr "") ∅ diff None), kc,
       [on_flow (get_authentication_flow_by_alias (param_alias (params module)))])
    ∧ (diff_mode module = false → diff = None).
Proof.
  intros Hcm Htoken Hflow Hcase. unfold main, main_body.
  rewrite (main_prologue _ _ _ _ _ Htoken Hflow).
  destruct Hcase as [[Hnone Hstate]|(d & -> & Hne & Hcase)].
  - assert (∃ diff,
      missing module (ModuleResult false (VStr "") ∅ None None) kc
      = (inl (exit_json (ModuleResult true (VStr "") ∅ diff None)), kc, [])
      ∧ (diff_mode module = false → diff = None)) as (diff & Hmissing & Hdiff).
    { unfold missing, with_diff. rewrite Hstate, Hcm.
      destruct (diff_mode module); eexists; (split; [reflexivity|done]). }
    exists diff. split; [|done].
    destruct Hnone as [-> | ->]; rewrite ?bool_decide_eq_true_2 by done;
      by rewrite Hmissing.
  - rewrite bool_decide_eq_false_2 by done.
    assert (∃ diff,
      found module (ModuleResult false (VStr "") ∅ None None) d kc
      = (inl (exit_json (ModuleResult true (VStr "") ∅ diff None)), kc, [])
      ∧ (diff_mode module = false → diff = None)) as (diff & Hfound & Hdiff).
    { unfold found, with_diff. rewrite Hcm.
      destruct (state (params module)) eqn:Hstate;
        [| destruct Hcase as [?| ->]; [done|] |];
        destruct (diff_mode module); eexists; (split; [reflexivity|done]). }
    exists diff. split; [|done]. by rewrite Hfound.
Qed.
End main_force.

(** * The properties on concrete flows *)

(** [evaluate t H] computes the closed term [t] and records its value as
    the equation [H]. *)
Ltac evaluate t H :=
  let v := eval vm_compute in t in
  assert (t = v) as H by (vm_cast_no_check (@eq_refl _ v)).

(** The identity example of the specification: the entry with provider
    ["idp-x"] at level 0 is found for the same provider at level 0, and
    not for the same provider at level 1. *)
Lemma find_exec_in_executions_identity_example :
  find_exec_in_executions (searched_idp_x 0) remote_idp_x = Ok 0%Z
  ∧ find_exec_in_executions (searched_idp_x 1) remote_idp_x = Ok (-1)%Z.
Proof. split; reflexivity. Qed.

(** C7 on the level example: [A], [B] under [A] and [C] under [B] get
    the levels 0, 1 and 2. *)
Lemma levels_are_level_assigner_witness :
  outcome_levels (run_in_memory true flow_nested []).1.1
  = Some [Some 0%Z; Some 1%Z; Some 2%Z].
Proof.
  evaluate (run_in_memory true flow_nested []) Hrun.
  destruct (@levels_are_level_assigner (list dict) memory_keycloak simple_imports
              true flow_nested _ _ _ _ _ _ eq_refl Hrun) as (lvls & Hassign & Hlevels).
  vm_compute in Hassign. injection Hassign as <-.
  reflexivity.
Defined.

Lemma struct_included_ignores : @ignores_excluded_keys simple_imports.
Proof.
  intros s1 s2 s2' exclude Hagree. simpl. unfold struct_included.
  apply bool_decide_ext. unfold map_Forall.
  split; intros Hall key v Hkey; (destruct (Hall key v Hkey) as [Hin|Heq]; [by left|]);
    (destruct (decide (key ∈ exclude)) as [Hin|Hout]; [by left|right]).
  - by rewrite <- (Hagree key Hout).
  - by rewrite (Hagree key Hout).
Qed.



(** C3 as stated fails.  [B] names a parent [Z] that neither the provider
    id nor the display name of [A] before it is; the pass fails on it, but
    only after it has pushed the new configuration of [A]: of its two
    calls the second changes the remote side. *)
Lemma unresolved_parent_after_a_push :
  has_unresolved_parent [] (declared_executions (authenticationExecutions flow_unresolved))
  = true
  ∧ (run_in_memory false flow_unresolved remote_a_configured).1.1 = fail_json KeyError
  ∧ mutating <$> (run_in_memory false flow_unresolved remote_a_configured).2
    = [false; true]
  ∧ (run_in_memory false flow_unresolved remote_a_configured).2 !! 1%nat
    = Some (add_authenticationConfig_to_execution (VStr "1") (VDict (declared_config "2"))).
Proof. repeat split; vm_compute; reflexivity. Qed.

(** C3 as amended, on the same flow. *)
Lemma unresolved_parent_fails_at_its_node_witness :
  (run_in_memory false flow_unresolved remote_a_configured).1.1 = fail_json KeyError.
Proof.
  evaluate (@process_executions (list dict) memory_keycloak simple_imports false
              flow_unresolved (PassState no_report ∅ remote_a_configured []) 0%Z
              [exec_a_configured] remote_a_configured) Hpre.
  assert (∀ m, m ∈ [exec_a_configured] → get_identifier m ≠ Ok "Z") as Hfresh.
  { intros m Hm. apply list_elem_of_singleton in Hm as ->. discriminate. }
  pose proof (@unresolved_parent_fails_at_its_node (list dict) memory_keycloak
                simple_imports false flow_unresolved [exec_a_configured] exec_b_under_z
                [] "Z" remote_a_configured remote_a_configured _ _ _
                eq_refl eq_refl Hfresh eq_refl Hpre) as Hfail.
  unfold run_in_memory. by rewrite Hfail.
Defined.

(** C5 as stated fails.  A declared configuration is not seen as a change
    when the existing execution has none, although every key it declares
    is absent there; and a declared mapping is seen as a change when the
    existing mapping holds one more key, although every key it declares
    has the same value there. *)
Lemma config_without_remote_config_is_unchanged :
  config_differs (named_config "c" {[ "a" := "2"; "b" := "3" ]})
    (remote_exec "1" "A" 0 "REQUIRED") = Ok false
  ∧ config_differs (named_config "c" {[ "a" := "1" ]})
      (exec_a_with {[ "a" := "1"; "z" := "9" ]}) = Ok true.
Proof. split; vm_compute; reflexivity. Qed.

Lemma comparable_named a mapping mapping' :
  comparable (named_config a mapping) (exec_a_with mapping').
Proof.
  intros x Hx. unfold exec_a_with in Hx. rewrite lookup_insert_eq in Hx.
  injection Hx as <-. eexists. split; [reflexivity|]. intros key v Hkey _.
  unfold named_config in Hkey.
  apply lookup_insert_Some in Hkey as [[<- _]|[_ Hkey]]; [by eexists|].
  apply lookup_singleton_Some in Hkey as [<- _]. by eexists.
Qed.

(** C5 as amended, on the example of the specification: against the
    existing mapping [{a: "1"}], the declared [{a: "2", b: "3"}] is a
    change and the declared [{a: "1"}] is none. *)
Lemma config_change_detection_witness :
  config_differs (named_config "c" {[ "a" := "2"; "b" := "3" ]})
    (exec_a_with {[ "a" := "1" ]}) = Ok true
  ∧ config_differs (named_config "c" {[ "a" := "1" ]}) (exec_a_with {[ "a" := "1" ]})
    = Ok false.
Proof.
  assert (exec_a_with {[ "a" := "1" ]} !! "authenticationConfig"
          = Some (VDict (<["id" := VStr "cfg-1"]> (named_config "c" {[ "a" := "1" ]}))))
    as Hec by (vm_compute; reflexivity).
  assert (<["id" := VStr "cfg-1"]> (named_config "c" {[ "a" := "1" ]}) !! "alias"
          = Some (VStr "c")) as Ha by (vm_compute; reflexivity).
  assert (<["id" := VStr "cfg-1"]> (named_config "c" {[ "a" := "1" ]}) !! "config"
          = Some (VDict (VStr <$> ({[ "a" := "1" ]} : gmap string string)))) as Hm
    by (vm_compute; reflexivity).
  split.
  - destruct (@config_change_detection (list dict) memory_keycloak simple_imports
                _ _ (comparable_named "c" {[ "a" := "2"; "b" := "3" ]} {[ "a" := "1" ]}))
      as (b & Hrun & _ & Hshape & _).
    rewrite Hrun. f_equal.
    apply (Hshape "c" {[ "a" := "2"; "b" := "3" ]} _ "c" {[ "a" := "1" ]}
             eq_refl Hec Ha Hm).
    right. left. exists "b", "3". split; [vm_compute; reflexivity|].
    vm_compute. discriminate.
  - destruct (@config_change_detection (list dict) memory_keycloak simple_imports
                _ _ (comparable_named "c" {[ "a" := "1" ]} {[ "a" := "1" ]}))
      as (b & Hrun & _ & Hshape & _).
    rewrite Hrun. f_equal. destruct b; [|reflexivity].
    destruct (proj1 (Hshape "c" {[ "a" := "1" ]} _ "c" {[ "a" := "1" ]}
                       eq_refl Hec Ha Hm) eq_refl) as [Hne|Hne].
    + by destruct Hne.
    + apply mappings_differ_neq in Hne. by destruct Hne.
Defined.

(** C8 on the orphan example: with [X] and [Y] on the remote side and [X]
    alone declared, [Y] is removed by its id, [changed] is set and the line
    for [Y] and its level is reported. *)
Lemma extra_executions_are_removed_witness :
  (run_in_memory false flow_x remote_x_y).2
  = [get_executions_representation "flow"; delete_authentication_execution (VStr "2")]
  ∧ outcome_changed (run_in_memory false flow_x remote_x_y).1.1 = Some true
  ∧ outcome_lines (run_in_memory false flow_x remote_x_y).1.1
    = Some ["Flow flow has extra execution Y at depth level 0"].
Proof.
  evaluate (@process_executions (list dict) memory_keycloak simple_imports false
              flow_x (PassState no_report ∅ remote_x_y []) 0%Z
              (declared_executions (authenticationExecutions flow_x)) remote_x_y) Hloop.
  edestruct (@extra_executions_are_removed (list dict) memory_keycloak simple_imports
               false flow_x remote_x_y remote_x_y _ _ _ ltac:(done) eq_refl Hloop)
    as (r & kc2 & Hrun & Hch & Hmsg).
  - cbn [existing_executions]. constructor; [intros []; reflexivity|].
    constructor; [|constructor]. intros _. repeat split; eexists; reflexivity.
  - intros id kc. eexists. reflexivity.
  - unfold run_in_memory. rewrite Hrun. cbn [fst snd outcome_changed outcome_lines].
    rewrite Hch, Hmsg. repeat split; reflexivity.
Defined.


(** C10 as stated fails.  An execution with neither provider id nor
    display name is not skipped: the pass ends in [fail_json], in either
    mode, whether it comes after [X] or alone. *)
Lemma nameless_execution_is_an_error :
  (run_in_memory true flow_nameless [remote_exec "1" "X" 0 "REQUIRED"]).1.1
  = fail_json KeyError
  ∧ (run_in_memory false flow_nameless [remote_exec "1" "X" 0 "REQUIRED"]).1.1
    = fail_json KeyError
  ∧ (run_in_memory true (flow_of [exec_nameless]) []).1.1 = fail_json KeyError.
Proof. repeat split; vm_compute; reflexivity. Qed.

(** C10 as amended, on [X] followed by such an execution: the pass fails
    after the read alone. *)
Lemma nameless_execution_fails_the_pass_witness :
  run_in_memory false flow_nameless [remote_exec "1" "X" 0 "REQUIRED"]
  = (fail_json KeyError, [remote_exec "1" "X" 0 "REQUIRED"],
     [get_executions_representation "flow"]).
Proof.
  evaluate (@process_executions (list dict) memory_keycloak simple_imports false
              flow_nameless (PassState no_report ∅ [remote_exec "1" "X" 0 "REQUIRED"] [])
              0%Z [step_exec "X"] [remote_exec "1" "X" 0 "REQUIRED"]) Hpre.
  pose proof (@nameless_execution_fails_the_pass (list dict) memory_keycloak
                simple_imports false flow_nameless [step_exec "X"] exec_nameless
                [] [remote_exec "1" "X" 0 "REQUIRED"] [remote_exec "1" "X" 0 "REQUIRED"]
                _ _ _ eq_refl eq_refl eq_refl eq_refl Hpre) as Hfail.
  unfold run_in_memory. rewrite Hfail. reflexivity.
Defined.

(** ** Further properties on concrete flows *)

(** The execution [idp-x] is found at index 0, within the list. *)
Lemma find_exec_in_executions_index_witness :
  find_exec_in_executions (searched_idp_x 0) remote_idp_x = Ok 0%Z
  ∧ (0%Z = (-1)%Z
     ∨ ∃ existing_exec,
         (0 ≤ 0 < Z.of_nat (length remote_idp_x))%Z
         ∧ py_list_getitem remote_idp_x 0 = Ok existing_exec
         ∧ existing_exec ≠ ∅
         ∧ same_name existing_exec (searched_idp_x 0) = true).
Proof.
  split; [reflexivity|].
  apply (find_exec_in_executions_index (searched_idp_x 0) remote_idp_x 0). reflexivity.
Defined.

(** After [A], an entry that bears the provider id searched and no level. *)
Lemma find_exec_in_executions_missing_level_witness :
  find_exec_in_executions (searched_idp_x 0)
    ([remote_exec "1" "A" 0 "REQUIRED"] ++ {[ "providerId" := VStr "idp-x" ]} :: [])
  = Raise KeyError.
Proof.
  apply find_exec_in_executions_missing_level.
  - repeat constructor.
  - reflexivity.
  - left. reflexivity.
Defined.

(** The requirement of the searched execution is not read. *)
Lemma find_exec_in_executions_reads_three_keys_witness :
  find_exec_in_executions (searched_idp_x 0) remote_idp_x
  = find_exec_in_executions (<["requirement" := VStr "DISABLED"]> (searched_idp_x 0))
      remote_idp_x.
Proof.
  apply find_exec_in_executions_reads_three_keys.
  intros key Hkey.
  repeat (apply elem_of_cons in Hkey as [->|Hkey]; [reflexivity|]).
  by apply elem_of_nil in Hkey.
Defined.


(** [X] against [X], [Y] in check mode: one line, and [changed]. *)
Lemma changed_iff_a_line_is_reported_witness :
  outcome_changed (run_in_memory true flow_x remote_x_y).1.1 = Some true.
Proof.
  evaluate (run_in_memory true flow_x remote_x_y) Hrun.
  pose proof (@changed_iff_a_line_is_reported (list dict) memory_keycloak simple_imports
                true flow_x _ _ _ _ _ Hrun) as Hiff.
  rewrite Hrun. cbn [fst snd outcome_changed]. apply (f_equal Some).
  apply (proj2 Hiff). discriminate.
Defined.

(** [X] against [X], [Y]: the read, no push, the removal of [Y]. *)
Lemma returning_pass_reads_pushes_removes_witness :
  ∃ pushes removals,
    (run_in_memory false flow_x remote_x_y).2
    = get_executions_representation "flow" :: pushes ++ removals
    ∧ Forall (λ c, is_config_call c = true) pushes
    ∧ Forall (λ c, is_removal_call c = true) removals
    ∧ (false = true → pushes = [] ∧ removals = []).
Proof.
  evaluate (run_in_memory false flow_x remote_x_y) Hrun.
  pose proof (@returning_pass_reads_pushes_removes (list dict) memory_keycloak
                simple_imports false flow_x _ _ _ _ _ Hrun) as Hcalls.
  rewrite Hrun. exact Hcalls.
Defined.

(** The nested flow in check mode: the three executions keep their keys. *)
Lemma pass_writes_level_and_id_only_witness :
  ∃ r declared,
    (run_in_memory true flow_nested []).1.1 = Returns r declared
    ∧ Forall2 (λ d n, same_declaration d n ∧ is_Some (level d))
        declared (declared_executions (authenticationExecutions flow_nested)).
Proof.
  evaluate (run_in_memory true flow_nested []) Hrun.
  pose proof (@pass_writes_level_and_id_only (list dict) memory_keycloak
                simple_imports true flow_nested _ _ _ _ _ Hrun) as Hframe.
  rewrite Hrun. eexists _, _. split; [reflexivity|exact Hframe].
Defined.

(** [X] created in the empty flow is the entry returned. *)
Lemma create_authentication_execution_returns_first_namesake_witness :
  ∃ pre post,
    @kc_read (list dict) memory_keycloak (alias flow_x) [created_x]
      = Some (pre ++ created_x :: post)
    ∧ Forall (λ o, hasSameName (to_dict exec_x_levelled) o = false) pre
    ∧ hasSameName (to_dict exec_x_levelled) created_x = true.
Proof.
  assert (@create_authentication_execution (list dict) memory_keycloak
            flow_x exec_x_levelled "flow" false []
          = (Ok created_x, [created_x],
             [creation_call exec_x_levelled "flow" false;
              get_executions_representation (alias flow_x)])) as Hrun
    by (vm_cast_no_check (@eq_refl _ (@Ok dict created_x, [created_x],
             [creation_call exec_x_levelled "flow" false;
              get_executions_representation (alias flow_x)]))).
  destruct (@create_authentication_execution_returns_first_namesake
              (list dict) memory_keycloak flow_x exec_x_levelled "flow" false
              [] _ _ _ Hrun)
    as (pre & post & _ & Hread & _ & Hpre & Hsame & _).
  exists pre, post. split; [exact Hread|]. split; [exact Hpre|exact Hsame].
Defined.

(** A remote side that shows nothing after the creation. *)
Lemma create_authentication_execution_not_found_witness :
  @create_authentication_execution unit silent_keycloak flow_x exec_x_levelled "flow" false tt
  = (Raise IndexError, tt,
     [creation_call exec_x_levelled "flow" false; get_executions_representation "flow"]).
Proof.
  apply (@create_authentication_execution_not_found unit silent_keycloak
           flow_x exec_x_levelled "flow" false tt tt []).
  - reflexivity.
  - reflexivity.
  - constructor.
Defined.

(** [X] declared against the empty flow, outside check mode: [X] is created
    and the pass fails. *)
Lemma missing_execution_is_created_then_the_pass_fails_witness :
  run_in_memory false flow_x []
  = (fail_json TypeError, [created_x],
     [get_executions_representation "flow";
      creation_call exec_x_levelled "flow" false;
      get_executions_representation "flow"]).
Proof.
  assert (@create_authentication_execution (list dict) memory_keycloak
            flow_x exec_x_levelled "flow" false []
          = (Ok created_x, [created_x],
             [creation_call exec_x_levelled "flow" false;
              get_executions_representation (alias flow_x)])) as Hcreate
    by (vm_cast_no_check (@eq_refl _ (@Ok dict created_x, [created_x],
             [creation_call exec_x_levelled "flow" false;
              get_executions_representation (alias flow_x)]))).
  eapply (@missing_execution_is_created_then_the_pass_fails (list dict) memory_keycloak
            simple_imports flow_x [] (step_exec "X") [] [] []
            (PassState no_report ∅ [] []) [] []);
    [reflexivity | reflexivity | reflexivity | reflexivity | reflexivity | reflexivity
    | exact Hcreate | reflexivity].
Defined.

(** No execution declared against [X], [Y]: both are removed. *)
Lemma nothing_declared_removes_every_execution_witness :
  ∃ r kc',
    run_in_memory false flow_none remote_x_y
    = (Returns r [], kc',
       [get_executions_representation "flow";
        delete_authentication_execution (VStr "1");
        delete_authentication_execution (VStr "2")])
    ∧ changed r = true.
Proof.
  destruct (@nothing_declared_removes_every_execution (list dict) memory_keycloak
              simple_imports false flow_none remote_x_y remote_x_y)
    as (r & kc' & Hrun & Hch & _).
  - by left.
  - reflexivity.
  - repeat (constructor; [intros _; repeat split; eexists; reflexivity|]). constructor.
  - intros id kc. eexists. reflexivity.
  - exists r, kc'. split; [exact Hrun|exact Hch].
Defined.

(** ** [main] on concrete flows *)

(** [X] declared against [X], [Y], in check mode. *)
Lemma main_in_check_mode_changes_nothing_witness :
  (main_there (module_of (Some [step_exec "X"]) present true) remote_x_y).1.2 = remote_x_y
  ∧ Forall (λ c, main_mutating c = false)
      (main_there (module_of (Some [step_exec "X"]) present true) remote_x_y).2.
Proof.
  apply (@main_in_check_mode_changes_nothing (list dict) memory_keycloak flow_there
           simple_imports (module_of (Some [step_exec "X"]) present true) remote_x_y).
  reflexivity.
Defined.

(** [state = exact] on the existing flow: it is deleted. *)
Lemma any_state_but_present_deletes_the_flow_witness :
  main_there (module_of (Some [step_exec "X"]) exact false) remote_x_y
  = (exit_json
       (ModuleResult true (VStr "Authentication flow: flow id: f-1 is deleted") ∅ None None),
     [],
     [on_flow (get_authentication_flow_by_alias "flow");
      on_flow (delete_authentication_flow_by_id (VStr "f-1"))]).
Proof.
  apply (@any_state_but_present_deletes_the_flow (list dict) memory_keycloak flow_there
           simple_imports (module_of (Some [step_exec "X"]) exact false) remote_x_y
           tt (flow_repr "flow") (VStr "f-1") []); try reflexivity.
  discriminate.
Defined.

(** [state = exact] and no flow: the lookup and nothing else. *)
Lemma state_exact_creates_nothing_witness :
  main_not_there (module_of (Some [step_exec "X"]) exact false) []
  = (exit_json (ModuleResult false (VStr "") ∅ None None), [],
     [on_flow (get_authentication_flow_by_alias "flow")]).
Proof.
  apply (@state_exact_creates_nothing (list dict) memory_keycloak flow_not_there
           simple_imports (module_of (Some [step_exec "X"]) exact false) [] tt None);
    try reflexivity.
  by left.
Defined.

(** The line for [Y] and the flag of the pass are those of [main]. *)
Lemma main_update_reports_the_pass_witness :
  ∃ rep declared c1 exec_repr,
    run_in_memory true flow_x remote_x_y = (Returns rep declared, remote_x_y, c1)
    ∧ Some remote_x_y = Some exec_repr
    ∧ calls_x_y
      = on_flow (get_authentication_flow_by_alias "flow")
        :: (on_executions <$> c1) ++ [on_executions (get_executions_representation "flow")]
    ∧ result_x_y
      = ModuleResult (changed rep) (VList (VStr <$> err_msg rep)) ∅ None
          (Some (VDict (<["authenticationExecutions" := VList (VDict <$> exec_repr)]>
                          (flow_repr "flow")))).
Proof.
  assert (main_there (module_of (Some [step_exec "X"]) present true) remote_x_y
          = (exit_json result_x_y, remote_x_y, calls_x_y)) as Hrun
    by (vm_cast_no_check (@eq_refl _ (exit_json result_x_y, remote_x_y, calls_x_y))).
  exact (@main_update_reports_the_pass (list dict) memory_keycloak flow_there
           simple_imports (module_of (Some [step_exec "X"]) present true) remote_x_y
           tt (flow_repr "flow") _ _ _ eq_refl eq_refl eq_refl eq_refl
           ltac:(discriminate) Hrun).
Defined.

(** The flow copied with [X], [Y] in it and nothing declared: both are
    removed, and the message is empty. *)
Lemma main_creation_drops_the_report_witness :
  ∃ r,
    main_not_there module_copy remote_x_y
    = (exit_json r, [],
       on_flow (get_authentication_flow_by_alias "flow")
         :: on_flow (flow_creation_call (params module_copy))
         :: (on_executions <$>
               [get_executions_representation "flow";
                delete_authentication_execution (VStr "1");
                delete_authentication_execution (VStr "2");
                get_executions_representation "flow"]))
    ∧ result_changed r = true ∧ result_msg r = VStr "".
Proof.
  assert (main_not_there module_copy remote_x_y
          = (exit_json
               (ModuleResult true (VStr "") ∅ None
                  (Some (VDict (<["authenticationExecutions" := VList []]>
                                  (flow_repr "flow"))))),
             [],
             on_flow (get_authentication_flow_by_alias "flow")
               :: on_flow (flow_creation_call (params module_copy))
               :: (on_executions <$>
                     [get_executions_representation "flow";
                      delete_authentication_execution (VStr "1");
                      delete_authentication_execution (VStr "2");
                      get_executions_representation "flow"]))) as Hrun
    by (vm_cast_no_check (@eq_refl (module_exit * list dict * list main_call)
          (exit_json
               (ModuleResult true (VStr "") ∅ None
                  (Some (VDict (<["authenticationExecutions" := VList []]>
                                  (flow_repr "flow"))))),
             [],
             on_flow (get_authentication_flow_by_alias "flow")
               :: on_flow (flow_creation_call (params module_copy))
               :: (on_executions <$>
                     [get_executions_representation "flow";
                      delete_authentication_execution (VStr "1");
                      delete_authentication_execution (VStr "2");
                      get_executions_representation "flow"])))).
  eexists. split; [exact Hrun|].
  exact (@main_creation_drops_the_report (list dict) memory_keycloak flow_not_there
           simple_imports module_copy remote_x_y
           tt None _ _ _ eq_refl eq_refl eq_refl (or_introl eq_refl) Hrun).
Defined.

(** The flow is created, [X] is created in it, and the module fails. *)
Lemma failed_pass_leaves_the_flow_created_witness :
  main_not_there (module_of (Some [step_exec "X"]) present false) []
  = (pass_failed TypeError, [created_x],
     on_flow (get_authentication_flow_by_alias "flow")
       :: on_flow (flow_creation_call
                     (params (module_of (Some [step_exec "X"]) present false)))
       :: (on_executions <$>
             [get_executions_representation "flow";
              creation_call exec_x_levelled "flow" false;
              get_executions_representation "flow"])).
Proof.
  assert (run_in_memory false flow_x []
          = (fail_json TypeError, [created_x],
             [get_executions_representation "flow";
              creation_call exec_x_levelled "flow" false;
              get_executions_representation "flow"])) as Hpass
    by (vm_cast_no_check (@eq_refl _
          (fail_json TypeError, [created_x],
             [get_executions_representation "flow";
              creation_call exec_x_levelled "flow" false;
              get_executions_representation "flow"]))).
  exact (@failed_pass_leaves_the_flow_created (list dict) memory_keycloak flow_not_there
           simple_imports (module_of (Some [step_exec "X"]) present false) []
           tt None (flow_repr "flow") [] TypeError [created_x] _
           eq_refl eq_refl eq_refl eq_refl (or_introl eq_refl) eq_refl Hpass).
Defined.

(** Nothing declared for the existing flow: [X] and [Y] are removed. *)
Lemma main_without_executions_empties_the_flow_witness :
  ∃ r kc',
    main_there (module_of None present false) remote_x_y
    = (exit_json r, kc',
       on_flow (get_authentication_flow_by_alias "flow")
         :: (on_executions <$>
               get_executions_representation "flow" :: (orphan_call <$> orphans remote_x_y))
         ++ [on_executions (get_executions_representation "flow")])
    ∧ result_changed r = bool_decide (orphans remote_x_y ≠ [])
    ∧ result_msg r
      = VList (VStr <$>
          (@orphan_line simple_imports (config_of (params (module_of None present false)))
             <$> orphans remote_x_y)).
Proof.
  apply (@main_without_executions_empties_the_flow (list dict) memory_keycloak flow_there
           simple_imports (module_of None present false) remote_x_y tt (flow_repr "flow")
           remote_x_y); try reflexivity.
  - discriminate.
  - repeat (constructor; [intros _; repeat split; eexists; reflexivity|]). constructor.
  - intros id kc. eexists. reflexivity.
  - intros kc1. eexists. reflexivity.
Defined.

(** The nested flow against the empty one: three lines. *)
Lemma dry_run_on_an_empty_flow_lists_every_execution_witness :
  ∃ r declared,
    run_in_memory true flow_nested []
    = (Returns r declared, [], [get_executions_representation "flow"])
    ∧ changed r = true
    ∧ err_msg r = ["Flow flow is missing execution A";
                   "Flow flow is missing execution B in subflow A";
                   "Flow flow is missing execution C in subflow B"]
    ∧ level <$> declared = [Some 0%Z; Some 1%Z; Some 2%Z].
Proof.
  apply (@dry_run_on_an_empty_flow_lists_every_execution (list dict) memory_keycloak
           simple_imports flow_nested
           (declared_executions (authenticationExecutions flow_nested))
           [] [0; 1; 2]%Z); try reflexivity.
  repeat constructor; intros _ i Hi; discriminate Hi.
Defined.

(** The sub-flow [S] at index [-1] against the empty flow. *)
Lemma subflow_index_below_the_flow_fails_witness :
  run_in_memory true flow_s_at_minus_1 []
  = (fail_json IndexError, [], [get_executions_representation "flow"]).
Proof.
  eapply (@subflow_index_below_the_flow_fails (list dict) memory_keycloak simple_imports
            true flow_s_at_minus_1 [] _ [] [] [] (PassState no_report ∅ [] []) [] []);
    try reflexivity.
Defined.

(** The flow with [X], [Y] re-created by force. *)
Lemma main_force_recreates_the_flow_witness :
  main_there module_force remote_x_y
  = (exit_json
       (ModuleResult true (VList []) ∅ None
          (Some (VDict (<["authenticationExecutions" := VList []]> (flow_repr "flow"))))),
     [],
     on_flow (get_authentication_flow_by_alias "flow")
       :: on_flow (delete_authentication_flow_by_id (VStr "f-1"))
       :: on_flow (flow_creation_call (params module_force))
       :: (on_executions <$> [get_executions_representation "flow"])
       ++ [on_executions (get_executions_representation "flow")]).
Proof.
  apply (@main_force_recreates_the_flow (list dict) memory_keycloak flow_there
           simple_imports module_force remote_x_y tt (flow_repr "flow") (VStr "f-1")
           [] (flow_repr "flow") [] no_report [] [] [get_executions_representation "flow"]
           []); reflexivity.
Defined.

(** The flow to create, in check mode: the lookup alone. *)
Lemma main_check_mode_stops_at_the_flow_witness :
  ∃ diff,
    main_not_there (module_of (Some [step_exec "X"]) present true) []
    = (exit_json (ModuleResult true (VStr "") ∅ diff None), [],
       [on_flow (get_authentication_flow_by_alias "flow")])
    ∧ (false = false → diff = None).
Proof.
  apply (@main_check_mode_stops_at_the_flow (list dict) memory_keycloak flow_not_there
           simple_imports (module_of (Some [step_exec "X"]) present true) [] tt None);
    try reflexivity.
  left. split; [by left|reflexivity].
Defined.
